(** * Sleep Age Simulator: the simulation engine of [app.js]

    A shallow embedding of [ScientificConstants.getAgeProfile] and of
    [HypnogramGenerator.generate] (the keyframe / continuous-loop variant
    at the head of [app.js]), with the properties of the hypnogram they
    build.

    JavaScript numbers are read as exact rationals ([Q]): every sum,
    product and quotient below is the exact one, so the equalities that
    the program satisfies "up to rounding" are stated with [==].  The two
    ambient library calls of the engine are parameters of the model:
    [Math.pow] is a function [Q -> Q -> Q] and [Math.random] is the
    sequence of the values returned by its successive calls.

    One property depends on the rounding itself: how many turns the
    continuous loop takes, and whether every turn adds to
    [accumulatedSleep].  For it the module [Double] embeds the loop a
    second time, on binary64 numbers. *)

From Stdlib Require Import QArith Qround Qminmax Qpower Lqa Lia ZArith List Bool Sorted.
From Stdlib Require Floats Uint63.
Import ListNotations.
Local Open Scope Q_scope.

(** ** Comparisons of JavaScript numbers *)

Definition Qleb (x y : Q) : bool := Qle_bool x y.
Definition Qltb (x y : Q) : bool := negb (Qle_bool y x).

Notation "x <=? y" := (Qleb x y) (at level 70, no associativity) : Q_scope.
Notation "x <? y" := (Qltb x y) (at level 70, no associativity) : Q_scope.
Notation "x >=? y" := (Qleb y x) (at level 70, no associativity, only parsing) : Q_scope.
Notation "x >? y" := (Qltb y x) (at level 70, no associativity, only parsing) : Q_scope.

(** [Math.max] and [Math.min] are [Qmax] and [Qmin]; [Math.floor] and
    [Math.ceil] are [Qfloor] and [Qceiling]. *)

(** ** Stages and blocks *)

Inductive Stage : Type := WAKE | REM | N1 | N2 | N3.

(** The numeric codes of the [STAGES] table. *)
Definition STAGES (s : Stage) : Z :=
  match s with WAKE => 0 | REM => 1 | N1 => 2 | N2 => 3 | N3 => 4 end%Z.

Definition is_wake (s : Stage) : bool := (STAGES s =? STAGES WAKE)%Z.

Record Block : Type := mkBlock {
  stage : Stage;
  duration : Q;
  start : Q
}.

Record WakeEvent : Type := mkWakeEvent {
  time : Q;
  we_duration : Q
}.

(** ** The age profile: [ScientificConstants.getAgeProfile] *)

Module ScientificConstants.

(** The scan of the [for] loop of [interpolate]: the first pair of
    neighbouring keyframes that brackets [val] gives the value; [fallback]
    is the value of the statement after the loop. *)
Fixpoint interpolate_scan (val : Q) (keyframes : list (Q * Q)) (fallback : Q) : Q :=
  match keyframes with
  | (a1, v1) :: rest =>
      match rest with
      | (a2, v2) :: _ =>
          if (val >=? a1) && (val <=? a2)
          then let t := (val - a1) / (a2 - a1) in v1 + t * (v2 - v1)
          else interpolate_scan val rest fallback
      | [] => fallback
      end
  | [] => fallback
  end.

(** [interpolate]: flat before the first keyframe and after the last one,
    linear in between.  The tables of the program are literal and not
    empty; on an empty table (where the program would fail) the model
    gives 0. *)
Definition interpolate (val : Q) (keyframes : list (Q * Q)) : Q :=
  match keyframes with
  | [] => 0
  | (a0, v0) :: _ =>
      let '(an, vn) := last keyframes (a0, v0) in
      if val <=? a0 then v0
      else if val >=? an then vn
      else interpolate_scan val keyframes vn
  end.

Definition tstKeyframes : list (Q * Q) :=
  [(0, 960); (5, 690); (12, 570); (18, 480); (40, 432); (60, 360); (80, 312); (90, 300)].

Definition n3Keyframes : list (Q * Q) :=
  [(0, 0.25); (10, 0.25); (18, 0.22); (40, 0.18); (60, 0.15); (80, 0.12); (100, 0.10)].

Definition remKeyframes : list (Q * Q) :=
  [(0, 0.50); (3, 0.30); (5, 0.25); (60, 0.23); (80, 0.20); (100, 0.18)].

Definition wasoKeyframes : list (Q * Q) :=
  [(0, 5); (30, 20); (50, 45); (70, 80); (80, 120); (90, 150)].

Definition n1Keyframes : list (Q * Q) :=
  [(0, 0.05); (50, 0.05); (80, 0.10); (100, 0.12)].

(** The six running targets of the engine: [tst], [n3P], [remP], [n1P],
    [n2P], [wasoMins]. *)
Record Profile : Type := mkProfile {
  tst : Q;
  n3P : Q;
  remP : Q;
  n1P : Q;
  n2P : Q;
  wasoMins : Q
}.

(** The "safety normalization" at the end of [getAgeProfile], on the three
    interpolated fractions: N2 is the remainder, and a negative remainder
    rescales the three to 0.95 in total and sets N2 to 0.05. *)
Definition safety_normalization (n3 rem n1 : Q) : Q * Q * Q * Q :=
  let n2 := 1.0 - (n3 + rem + n1) in
  if n2 <? 0 then
    let sum := n3 + rem + n1 in
    (n3 / sum * 0.95, rem / sum * 0.95, n1 / sum * 0.95, 0.05)
  else (n3, rem, n1, n2).

Definition getAgeProfile (age : Q) : Profile :=
  let tst := interpolate age tstKeyframes in
  let n3P := interpolate age n3Keyframes in
  let remP := interpolate age remKeyframes in
  let wasoMins := interpolate age wasoKeyframes in
  let n1P := interpolate age n1Keyframes in
  let '(n3P, remP, n1P, n2P) := safety_normalization n3P remP n1P in
  mkProfile tst n3P remP n1P n2P wasoMins.

End ScientificConstants.

Import ScientificConstants.

(** ** The configuration *)

Inductive Gender : Type := male | female | other.
Inductive Metabolism : Type := fast | normal | slow.
Inductive Chronotype : Type := lark | neutral | owl.

(** [neutral] is the chronotype ['normal'] (the name [normal] is the
    caffeine metabolism's). *)

Record Config : Type := mkConfig {
  age : Q;
  gender : Gender;
  alcohol : Q;
  caffeine : Q;
  caffeineTime : Q;
  caffeineMetabolism : Metabolism;
  sdbSeverity : Q;
  nocturia : Q;
  chronotype : Chronotype;
  socialJetLag : bool;
  blueLight : bool;
  isMenopausal : bool
}.

Definition set_sdbSeverity (c : Config) (s : Q) : Config :=
  mkConfig (age c) (gender c) (alcohol c) (caffeine c) (caffeineTime c)
           (caffeineMetabolism c) s (nocturia c) (chronotype c)
           (socialJetLag c) (blueLight c) (isMenopausal c).

(** The ranges of the fields that the data model documents. *)
Definition valid_config (c : Config) : Prop :=
  0 <= age c /\
  0 <= alcohol c <= 10 /\
  0 <= caffeine c <= 10 /\
  0 <= caffeineTime c /\
  0 <= sdbSeverity c <= 10 /\
  0 <= nocturia c.

(** ** The result *)

Module Params.
Record t : Type := mk {
  chronotype : Chronotype;
  startTimeOffset : Q;
  tst : Q;
  tib : Q
}.
End Params.

Module Stats.
Record t : Type := mk {
  n3P : Q;
  remP : Q;
  n1P : Q;
  n2P : Q;
  wasoMins : Q;
  tst : Q;
  tib : Q;
  sleepEfficiency : Q;
  latency : Q
}.
End Stats.

Module SimulationResult.
Record t : Type := mk {
  blocks : list Block;
  wakeEvents : list WakeEvent;
  params : Params.t;
  stats : Stats.t
}.
End SimulationResult.

(** ** Sorting of the insertion indices: [sort((a, b) => a - b)] *)

Fixpoint insert_sorted (x : Z) (l : list Z) : list Z :=
  match l with
  | [] => [x]
  | y :: l' => if (x <? y)%Z then x :: l else y :: insert_sorted x l'
  end.

Definition sort_ascending (l : list Z) : list Z :=
  fold_left (fun acc x => insert_sorted x acc) l [].

(** ** The generator: [HypnogramGenerator.generate] *)

Module HypnogramGenerator.

(** The state of the block engine: the [blocks] array and the four
    counters that the loop updates. *)
Record LoopState : Type := mkLoopState {
  blocks : list Block;
  currentTime : Q;
  accumulatedSleep : Q;
  cycleIndex : Z;
  wakeChunkIndex : nat
}.

(** [blocks.push({stage, duration, start: currentTime}); currentTime +=
    duration; accumulatedSleep += duration] for a stage of sleep. *)
Definition push_sleep (s : Stage) (d : Q) (st : LoopState) : LoopState :=
  mkLoopState (blocks st ++ [mkBlock s d (currentTime st)])
              (currentTime st + d) (accumulatedSleep st + d)
              (cycleIndex st) (wakeChunkIndex st).

(** The same for a WAKE chunk: [accumulatedSleep] is left alone and
    [wakeChunkIndex] moves on. *)
Definition push_wake_chunk (d : Q) (st : LoopState) : LoopState :=
  mkLoopState (blocks st ++ [mkBlock WAKE d (currentTime st)])
              (currentTime st + d) (accumulatedSleep st)
              (cycleIndex st) (S (wakeChunkIndex st)).

Definition next_cycle (st : LoopState) : LoopState :=
  mkLoopState (blocks st) (currentTime st) (accumulatedSleep st)
              (cycleIndex st + 1)%Z (wakeChunkIndex st).

(** The inner [while]: chunks whose scheduled index is the current cycle
    index are pushed.  Every turn moves [wakeChunkIndex] forward, so the
    length of the index array bounds the number of turns ([n]). *)
Fixpoint inject_wake (n : nat) (wakeInsertionIndices : list Z)
    (wakeChunkDuration : Q) (st : LoopState) : LoopState :=
  match n with
  | O => st
  | S n' =>
      match nth_error wakeInsertionIndices (wakeChunkIndex st) with
      | Some i =>
          if (i =? cycleIndex st)%Z
          then inject_wake n' wakeInsertionIndices wakeChunkDuration
                 (push_wake_chunk wakeChunkDuration st)
          else st
      | None => st
      end
  end.

Definition cycleLength : Q := 90.

Section Engine.

(** [Math.pow]. *)
Variable Math_pow : Q -> Q -> Q.

(** *** The modifiers of the targets *)

Definition halfLife (c : Config) : Q :=
  match caffeineMetabolism c with
  | fast => 4
  | slow => 8
  | normal => 6
  end.

Definition activeCaffeine (c : Config) : Q :=
  caffeine c * Math_pow 0.5 (caffeineTime c / halfLife c).

Definition blueLight_model (c : Config) (p : Profile) : Profile :=
  if blueLight c then
    mkProfile (tst p - 30) (n3P p * 0.85) (remP p * 0.9) (n1P p + 0.03)
              (n2P p) (wasoMins p)
  else p.

Definition caffeine_model (c : Config) (p : Profile) : Profile :=
  let activeCaffeine := activeCaffeine c in
  if activeCaffeine >? 0.1 then
    mkProfile (tst p - activeCaffeine * 15)
              (n3P p * Qmax 0.5 (1 - activeCaffeine * 0.15))
              (remP p) (n1P p + activeCaffeine * 0.03) (n2P p)
              (wasoMins p + activeCaffeine * 15)
  else p.

Definition alcohol_model (c : Config) (p : Profile) : Profile :=
  if alcohol c >? 0 then
    mkProfile (tst p)
              (n3P p * Qmax 0.6 (1 - alcohol c * 0.1))
              (remP p * Qmax 0.4 (1 - alcohol c * 0.15))
              (n1P p) (n2P p) (wasoMins p + alcohol c * 25)
  else p.

Definition socialJetLag_model (c : Config) (p : Profile) : Profile :=
  if socialJetLag c then
    mkProfile (tst p - 60) (n3P p * 0.85) (remP p * 0.8) (n1P p) (n2P p)
              (wasoMins p + 30)
  else p.

Definition gender_model (c : Config) (p : Profile) : Profile :=
  match gender c with
  | male =>
      if age c >? 30 then
        mkProfile (tst p) (n3P p) (remP p) (n1P p) (n2P p) (wasoMins p * 1.1)
      else p
  | _ => p
  end.

Definition menopause_model (c : Config) (p : Profile) : Profile :=
  if isMenopausal c then
    mkProfile (tst p) (n3P p * 0.80) (remP p * 0.9) (n1P p + 0.05) (n2P p)
              (wasoMins p + 45)
  else p.

Definition sdb_model (c : Config) (p : Profile) : Profile :=
  if sdbSeverity c >? 0 then
    let factor := sdbSeverity c / 10 in
    mkProfile (tst p - factor * 60)
              (n3P p * (1 - factor * 0.75))
              (remP p * (1 - factor * 0.3))
              (n1P p + factor * 0.15) (n2P p)
              (wasoMins p + factor * 80)
  else p.

Definition nocturia_model (c : Config) (p : Profile) : Profile :=
  if nocturia c >? 0 then
    mkProfile (tst p) (n3P p) (remP p) (n1P p) (n2P p)
              (wasoMins p + nocturia c * 10)
  else p.

(** "Recalculate N2": the three fractions are scaled down to 0.95 in
    total when they exceed it, and N2 is the remainder. *)
Definition recalculate_n2 (p : Profile) : Profile :=
  let totalP := n3P p + remP p + n1P p in
  let '(n3, rem, n1) :=
    if totalP >? 0.95 then
      let scale := 0.95 / totalP in
      (n3P p * scale, remP p * scale, n1P p * scale)
    else (n3P p, remP p, n1P p) in
  mkProfile (tst p) n3 rem n1 (1.0 - (n3 + rem + n1)) (wasoMins p).

(** The targets before the SDB modifier, which reads no [sdbSeverity]. *)
Definition targets_before_sdb (c : Config) : Profile :=
  menopause_model c (gender_model c (socialJetLag_model c
    (alcohol_model c (caffeine_model c (blueLight_model c
      (getAgeProfile (age c))))))).

(** The targets after every modifier: the values of [tst], [n3P], [remP],
    [n1P], [n2P] and [wasoMins] when the block engine starts. *)
Definition adjustedTargets (c : Config) : Profile :=
  recalculate_n2 (nocturia_model c (sdb_model c (targets_before_sdb c))).

Definition blueLightLatency (c : Config) : Q :=
  if blueLight c then 45 else 0.

Definition bedtimeShift (c : Config) : Q :=
  if socialJetLag c then 180 else 0.

Definition agePhaseShift (c : Config) : Q :=
  if age c >? 65 then
    let elderlyFactor := Qmin 1 ((age c - 65) / 20) in
    -120 * elderlyFactor
  else 0.

(** *** Latency and the first two blocks *)

Definition latency (c : Config) : Q :=
  let latency :=
    10 + Qmax 0 ((age c - 20) * 0.25) + activeCaffeine c * 20
    + blueLightLatency c in
  let latency :=
    if alcohol c >? 0 then Qmax 5 (latency - alcohol c * 5) else latency in
  if isMenopausal c then latency + 15 else latency.

Definition initialN1 (c : Config) : Q :=
  5 + (if age c >? 50 then 5 else 0) + activeCaffeine c * 5.

(** *** The wake injection points *)

Definition numWakeChunks (wasoMins : Q) : Z :=
  Z.max 1 (Qfloor (wasoMins / 15)).

Definition wakeChunkDuration (wasoMins : Q) : Q :=
  wasoMins / inject_Z (numWakeChunks wasoMins).

Definition estCycles (tst : Q) : Z := Qceiling (tst / cycleLength).

(** The [k]-th call of [Math.random] returns [Math_random k]; the indices
    take the first [numWakeChunks] calls. *)
Definition wakeInsertionIndices (Math_random : nat -> Q) (p : Profile) : list Z :=
  sort_ascending
    (map (fun k => Qfloor (Math_random k * inject_Z (estCycles (tst p))))
         (seq 0 (Z.to_nat (numWakeChunks (wasoMins p))))).

(** *** One sleep cycle *)

(** [localN3], [localREM] and [localN2] of the cycle of index
    [cycleIndex], after the alcohol logic and the normalization. *)
Definition localFractions (c : Config) (p : Profile) (cycleIndex : Z) : Q * Q * Q :=
  let ci := inject_Z cycleIndex in
  let localN3 := n3P p * (1 - (ci * 0.15)) * 2.0 in
  let localREM := remP p * (0.5 + (ci * 0.20) * 1.5) in
  let '(localN3, localREM) :=
    if alcohol c >? 0 then
      if ci <? 2 then
        (localN3 * (1 + alcohol c * 0.1),
         localREM * Qmax 0.1 (1 - (alcohol c * 0.3)))
      else
        (localN3 * 0.5, localREM * (1 + alcohol c * 0.2))
    else (localN3, localREM) in
  let localN2 := 1.0 - (localN3 + localREM) in
  if localN2 <? 0 then
    let total := localN3 + localREM in
    ((localN3 / total) * 0.9, (localREM / total) * 0.9, 0.1)
  else (localN3, localREM, localN2).

Definition transN1 (c : Config) : Q := 2 + (if age c >? 50 then 2 else 0).

(** The body of the continuous loop. *)
Definition cycle_body (c : Config) (p : Profile) (indices : list Z)
    (st : LoopState) : LoopState :=
  let '(localN3, localREM, localN2) := localFractions c p (cycleIndex st) in
  let remainingSleep := tst p - accumulatedSleep st in
  let currentCycleSleep := Qmin cycleLength remainingSleep in
  let st := push_sleep N2 (currentCycleSleep * (localN2 * 0.4)) st in
  let st :=
    if localN3 >? 0.01 then push_sleep N3 (currentCycleSleep * localN3) st
    else st in
  let st := push_sleep N2 (currentCycleSleep * (localN2 * 0.6)) st in
  let st := push_sleep REM (currentCycleSleep * localREM) st in
  let st :=
    if currentCycleSleep >=? cycleLength * 0.9
    then push_sleep N1 (transN1 c) st
    else st in
  let st :=
    inject_wake (length indices) indices (wakeChunkDuration (wasoMins p)) st in
  next_cycle st.

(** [while (accumulatedSleep < tst)]: [None] when [fuel] turns do not
    reach the exit. *)
Fixpoint cycle_loop (fuel : nat) (c : Config) (p : Profile)
    (indices : list Z) (st : LoopState) : option LoopState :=
  if accumulatedSleep st <? tst p then
    match fuel with
    | O => None
    | S fuel' => cycle_loop fuel' c p indices (cycle_body c p indices st)
    end
  else Some st.

(** The state at the head of the loop: the latency WAKE block and the
    initial N1 block. *)
Definition initial_state (c : Config) : LoopState :=
  let latency := latency c in
  let initialN1 := initialN1 c in
  mkLoopState [mkBlock WAKE latency 0; mkBlock N1 initialN1 (0 + latency)]
              (0 + latency + initialN1) initialN1 0%Z O.

(** The block engine, from the adjusted targets to the exit of the loop. *)
Definition run_cycles (fuel : nat) (Math_random : nat -> Q) (c : Config)
    : option LoopState :=
  let p := adjustedTargets c in
  cycle_loop fuel c p (wakeInsertionIndices Math_random p) (initial_state c).

(** *** The micro-arousal overlay *)

Definition numMicroArousals (c : Config) : Q :=
  5 + (if age c >? 50 then 5 else 0) + (sdbSeverity c * 15).

(** [for (let i = 0; i < numMicroArousals; i++)] runs once for every
    natural number below [numMicroArousals].  The calls of [Math.random]
    go on from the [first]-th one. *)
Definition microArousals (Math_random : nat -> Q) (first : nat) (c : Config)
    (currentTime : Q) : list WakeEvent :=
  map (fun i =>
         let wakeT :=
           latency c + Math_random (first + i)%nat * (currentTime - latency c) in
         mkWakeEvent wakeT 1)
      (seq 0 (Z.to_nat (Qceiling (numMicroArousals c)))).

(** *** Post-processing *)

Definition teenShift (c : Config) : Q :=
  if (age c >=? 13) && (age c <=? 21) then
    if age c <=? 17 then ((age c - 13) / 4) * 90
    else 90 - ((age c - 17) / 4) * 90
  else 0.

Definition startTimeOffset (c : Config) : Q :=
  let startTimeOffset :=
    match chronotype c with
    | lark => -120
    | owl => 180
    | neutral => 0
    end in
  let startTimeOffset :=
    if socialJetLag c then startTimeOffset + bedtimeShift c
    else startTimeOffset in
  let startTimeOffset := startTimeOffset + agePhaseShift c in
  startTimeOffset + teenShift c.

(** [blocks.reduce((sum, b) => b.stage !== STAGES.WAKE ? sum + b.duration
    : sum, 0)]. *)
Definition actualTST (blocks : list Block) : Q :=
  fold_left
    (fun sum b => if negb (is_wake (stage b)) then sum + duration b else sum)
    blocks 0.

Definition shift_block (offset : Q) (b : Block) : Block :=
  mkBlock (stage b) (duration b) (start b + 240 + offset).

Definition shift_event (offset : Q) (w : WakeEvent) : WakeEvent :=
  mkWakeEvent (time w + 240 + offset) (we_duration w).

(** The result built from the state at the exit of the loop.  (A quotient
    by zero is 0 in [Q]; [tib] is positive on every configuration in the
    documented ranges.) *)
Definition finish (Math_random : nat -> Q) (c : Config) (st : LoopState)
    : SimulationResult.t :=
  let p := adjustedTargets c in
  let wakeEvents :=
    microArousals Math_random (Z.to_nat (numWakeChunks (wasoMins p))) c
                  (currentTime st) in
  let startTimeOffset := startTimeOffset c in
  let actualTST := actualTST (blocks st) in
  let tib := currentTime st in
  let sleepEfficiency := (actualTST / tib) * 100 in
  SimulationResult.mk
    (map (shift_block startTimeOffset) (blocks st))
    (map (shift_event startTimeOffset) wakeEvents)
    (Params.mk (chronotype c) startTimeOffset actualTST tib)
    (Stats.mk (n3P p) (remP p) (n1P p) (n2P p) (wasoMins p) actualTST tib
              sleepEfficiency (latency c)).

Definition generate (fuel : nat) (Math_random : nat -> Q) (c : Config)
    : option SimulationResult.t :=
  match run_cycles fuel Math_random c with
  | Some st => Some (finish Math_random c st)
  | None => None
  end.

End Engine.

End HypnogramGenerator.

Import HypnogramGenerator.

(** ** Vocabulary of the properties *)

(** The sum of the durations of a sequence of blocks. *)
Definition sum_durations (bs : list Block) : Q :=
  fold_right Qplus 0 (map duration bs).

Definition sleep_blocks (bs : list Block) : list Block :=
  filter (fun b => negb (is_wake (stage b))) bs.

Definition wake_blocks (bs : list Block) : list Block :=
  filter (fun b => is_wake (stage b)) bs.

(** Every block but the last one ends where the next one starts. *)
Definition contiguous (bs : list Block) : Prop :=
  forall (i : nat) (b b' : Block),
    nth_error bs i = Some b -> nth_error bs (S i) = Some b' ->
    start b + duration b == start b'.

(** The same, from the head: the first block starts at [t]. *)
Fixpoint contiguous_from (t : Q) (bs : list Block) : Prop :=
  match bs with
  | [] => True
  | b :: bs' => start b == t /\ contiguous_from (start b + duration b) bs'
  end.

(** Keyframes in strictly increasing age with every value in [[lo, hi]]. *)
Fixpoint keyframes_ok (lo hi : Q) (keyframes : list (Q * Q)) : Prop :=
  match keyframes with
  | [] => True
  | (a1, v1) :: rest =>
      lo <= v1 <= hi /\
      match rest with
      | (a2, _) :: _ => a1 < a2
      | [] => True
      end /\ keyframes_ok lo hi rest
  end.

(** The targets that the modifiers keep: positive fractions, N3 at most
    0.25, REM at most 0.5, at least 5 minutes of WASO and at most 960
    minutes of sleep. *)
Definition targets_ok (p : Profile) : Prop :=
  0 < n3P p <= 0.25 /\ 0 < remP p <= 0.5 /\ 0 < n1P p /\
  5 <= wasoMins p /\ tst p <= 960.

(** [Math.pow(0.5, x)] lies in [[0, 1]] for an exponent [x >= 0]. *)
Definition pow_half_unit (Math_pow : Q -> Q -> Q) : Prop :=
  forall x : Q, 0 <= x -> 0 <= Math_pow 0.5 x <= 1.

(** The invariant of the block engine: the blocks are contiguous from
    time 0, their durations add up to [currentTime], and the durations of
    the blocks of sleep add up to [accumulatedSleep]. *)
Definition accounting (st : LoopState) : Prop :=
  contiguous_from 0 (blocks st) /\
  sum_durations (blocks st) == currentTime st /\
  sum_durations (sleep_blocks (blocks st)) == accumulatedSleep st.

(** ** Sample inputs *)

(** A rational stand-in for [Math.pow], to run the model: exact at the
    integer exponents and linear between two of them. *)
Definition pow_sample (b e : Q) : Q :=
  let n := Qfloor e in
  b ^ n * (1 + (b - 1) * (e - inject_Z n)).

(** A 28-year-old woman, no modifier. *)
Definition config_28 : Config :=
  mkConfig 28 female 0 0 0 normal 0 0 neutral false false false.

(** Age 90, ten cups of caffeine at bedtime, severity 10, blue light and
    social jet lag: the total-sleep target falls to 0. *)
Definition config_90 : Config :=
  mkConfig 90 female 0 10 0 normal 10 0 neutral true true false.

(** A 70-year-old man with several modifiers at once. *)
Definition config_70 : Config :=
  mkConfig 70 male 3 2 5 slow 4 2 owl false true false.

(** Random sources: every call returns 0.9, or every call returns 0. *)
Definition random_high : nat -> Q := fun _ => 0.9.
Definition random_low : nat -> Q := fun _ => 0.

(** A number of cycles that no configuration in the documented ranges
    exceeds: the fuel that is always enough. *)
Definition enough_fuel : nat := 18.

(** ** Vocabulary of further properties *)

(** A block of a well-formed night: no negative duration, and a positive
    one for every stage but the N2 bridges (whose share may be 0). *)
Definition duration_ok (b : Block) : Prop :=
  0 <= duration b /\ (stage b <> N2 -> 0 < duration b).

(** The number of scheduled indices below [K]. *)
Definition count_below (K : Z) (l : list Z) : nat :=
  length (filter (fun i => (i <? K)%Z) l).

(** [Math.random()] returns a number in [[0, 1)]. *)
Definition unit_draws (rnd : nat -> Q) : Prop :=
  forall k : nat, 0 <= rnd k < 1.

(** The time awake is the latency plus one chunk per step of the wake
    pointer, which stays within the index array. *)
Definition wake_pointer_ok (lat chunk : Q) (l : list Z) (st : LoopState) : Prop :=
  currentTime st - accumulatedSleep st
    == lat + inject_Z (Z.of_nat (wakeChunkIndex st)) * chunk /\
  (wakeChunkIndex st <= length l)%nat.

(** At the head of a cycle the entries before the wake pointer are below
    the cycle index and the others are not. *)
Definition scan_ok (l : list Z) (st : LoopState) : Prop :=
  Forall (fun i => (i < cycleIndex st)%Z) (firstn (wakeChunkIndex st) l) /\
  Forall (fun i => (cycleIndex st <= i)%Z) (skipn (wakeChunkIndex st) l).

(** Keyframe tables: ages in strictly increasing order; values that
    never increase, or never decrease, along the table. *)
Fixpoint ages_increasing (keyframes : list (Q * Q)) : Prop :=
  match keyframes with
  | (a1, _) :: rest =>
      match rest with
      | (a2, _) :: _ => a1 < a2
      | [] => True
      end /\ ages_increasing rest
  | [] => True
  end.

Fixpoint values_nonincreasing (keyframes : list (Q * Q)) : Prop :=
  match keyframes with
  | (_, v1) :: rest =>
      match rest with
      | (_, v2) :: _ => v2 <= v1
      | [] => True
      end /\ values_nonincreasing rest
  | [] => True
  end.

Fixpoint values_nondecreasing (keyframes : list (Q * Q)) : Prop :=
  match keyframes with
  | (_, v1) :: rest =>
      match rest with
      | (_, v2) :: _ => v1 <= v2
      | [] => True
      end /\ values_nondecreasing rest
  | [] => True
  end.

(** The table with every value negated. *)
Definition negate_values (keyframes : list (Q * Q)) : list (Q * Q) :=
  map (fun kv => (fst kv, - snd kv)) keyframes.

(** ** Further sample inputs *)

(** An 18-year-old woman, no modifier: a target of 480 minutes, six
    cycles estimated and six run. *)
Definition config_18 : Config :=
  mkConfig 18 female 0 0 0 normal 0 0 neutral false false false.

(** ** The curve parameters: [TwoProcessModel.getCurves] *)

Module TwoProcessModel.

Record Curves : Type := mkCurves {
  tau_r : Q;
  tau_d : Q;
  peakTime : Q;
  caffeine : Q;
  caffeineTime : Q;
  halfLife : Q
}.

Definition getCurves (tst : Q) (chronotype : Chronotype)
    (caffeine caffeineTime : Q) (caffeineMetabolism : Metabolism)
    (blueLight : bool) : Curves :=
  let tau_r := 18.2 * 60 in
  let tau_d := 4.2 * 60 in
  let peakTime := 240 + 180 in
  let peakTime :=
    match chronotype with lark => peakTime - 120 | _ => peakTime end in
  let peakTime :=
    match chronotype with owl => peakTime + 180 | _ => peakTime end in
  let peakTime := if blueLight then peakTime + 60 else peakTime in
  let halfLife := 6 in
  let halfLife :=
    match caffeineMetabolism with fast => 4 | _ => halfLife end in
  let halfLife :=
    match caffeineMetabolism with slow => 8 | _ => halfLife end in
  mkCurves tau_r tau_d peakTime caffeine caffeineTime halfLife.

(** The "caffeine block" of [drawCurves] at the time [t] of the graph,
    for a night that starts at [sleepStart]: nothing before the intake,
    then a tenth of the cups, halved every half-life. *)
Definition caffeineBlock (Math_pow : Q -> Q -> Q) (models : Curves)
    (sleepStart t : Q) : Q :=
  let intakeTime := sleepStart - (caffeineTime models * 60) in
  if (caffeine models >? 0) && (t >=? intakeTime) then
    let timeSinceIntake := (t - intakeTime) / 60 in
    (caffeine models * 0.1)
    * Math_pow 0.5 (timeSinceIntake / halfLife models)
  else 0.

(** The effective sleep drive that is drawn, from the drive [S]. *)
Definition effectiveS (Math_pow : Q -> Q -> Q) (models : Curves)
    (sleepStart t S : Q) : Q :=
  Qmax 0 (S - caffeineBlock Math_pow models sleepStart t).

End TwoProcessModel.

(** ** The state of a profile and its event handlers *)

Module App.

(** The template of the two profile states, on the fields that the
    engine reads. *)
Definition defaultState : Config :=
  mkConfig 25 male 0 0 0 normal 0 0 neutral false false false.

(** The counters of the page: the keys with a [-display] and an
    [-input] element. *)
Inductive CounterKey : Type := key_alcohol | key_caffeine | key_nocturia.

Definition counter (key : CounterKey) (s : Config) : Q :=
  match key with
  | key_alcohol => alcohol s
  | key_caffeine => caffeine s
  | key_nocturia => nocturia s
  end.

Definition set_counter (key : CounterKey) (v : Q) (s : Config) : Config :=
  match key with
  | key_alcohol =>
      mkConfig (age s) (gender s) v (caffeine s) (caffeineTime s)
               (caffeineMetabolism s) (sdbSeverity s) (nocturia s)
               (chronotype s) (socialJetLag s) (blueLight s) (isMenopausal s)
  | key_caffeine =>
      mkConfig (age s) (gender s) (alcohol s) v (caffeineTime s)
               (caffeineMetabolism s) (sdbSeverity s) (nocturia s)
               (chronotype s) (socialJetLag s) (blueLight s) (isMenopausal s)
  | key_nocturia =>
      mkConfig (age s) (gender s) (alcohol s) (caffeine s) (caffeineTime s)
               (caffeineMetabolism s) (sdbSeverity s) v
               (chronotype s) (socialJetLag s) (blueLight s) (isMenopausal s)
  end.

(** [updateCounter(key, change)] on the state of the active profile:
    [s[key] = Math.max(0, Math.min(10, s[key] + change))]. *)
Definition updateCounter (key : CounterKey) (change : Q) (s : Config) : Config :=
  set_counter key (Qmax 0 (Qmin 10 (counter key s + change))) s.

Definition set_age (v : Q) (s : Config) : Config :=
  mkConfig v (gender s) (alcohol s) (caffeine s) (caffeineTime s)
           (caffeineMetabolism s) (sdbSeverity s) (nocturia s)
           (chronotype s) (socialJetLag s) (blueLight s) (isMenopausal s).

Definition set_gender (g : Gender) (s : Config) : Config :=
  mkConfig (age s) g (alcohol s) (caffeine s) (caffeineTime s)
           (caffeineMetabolism s) (sdbSeverity s) (nocturia s)
           (chronotype s) (socialJetLag s) (blueLight s) (isMenopausal s).

Definition set_isMenopausal (b : bool) (s : Config) : Config :=
  mkConfig (age s) (gender s) (alcohol s) (caffeine s) (caffeineTime s)
           (caffeineMetabolism s) (sdbSeverity s) (nocturia s)
           (chronotype s) (socialJetLag s) (blueLight s) b.

(** The menopause group is shown for a woman of 40 to 60. *)
Definition menopauseVisible (s : Config) : bool :=
  (age s >=? 40) && (age s <=? 60)
  && match gender s with female => true | _ => false end.

(** The check after a change of age or gender: outside the window the
    group is hidden and [isMenopausal] is reset. *)
Definition menopauseGate (s : Config) : Config :=
  if menopauseVisible s then s else set_isMenopausal false s.

(** The inputs that the handlers of the page react to, on the fields
    that the engine reads.  The values of the sliders come through
    [parseInt]; a select or a radio button gives its value.  The three
    counters have buttons and no slider (the binding of a
    [nocturia-slider] finds no element, as the comment beside it says). *)
Inductive Event : Type :=
| CounterClick (key : CounterKey) (change : Q)
| AgeInput (val : Z)
| SdbInput (val : Z)
| CaffeineTimeInput (val : Z)
| ChronotypeInput (v : Chronotype)
| SocialJetLagToggle (checked : bool)
| BlueLightToggle (checked : bool)
| MenopauseToggle (checked : bool)
| GenderChange (g : Gender)
| MetabolismChange (m : Metabolism).

(** What a handler does to the state of the active profile. *)
Definition handle (s : Config) (e : Event) : Config :=
  match e with
  | CounterClick key change => updateCounter key change s
  | AgeInput val => menopauseGate (set_age (inject_Z val) s)
  | SdbInput val => set_sdbSeverity s (inject_Z val)
  | CaffeineTimeInput val =>
      mkConfig (age s) (gender s) (alcohol s) (caffeine s) (inject_Z val)
               (caffeineMetabolism s) (sdbSeverity s) (nocturia s)
               (chronotype s) (socialJetLag s) (blueLight s) (isMenopausal s)
  | ChronotypeInput v =>
      mkConfig (age s) (gender s) (alcohol s) (caffeine s) (caffeineTime s)
               (caffeineMetabolism s) (sdbSeverity s) (nocturia s)
               v (socialJetLag s) (blueLight s) (isMenopausal s)
  | SocialJetLagToggle checked =>
      mkConfig (age s) (gender s) (alcohol s) (caffeine s) (caffeineTime s)
               (caffeineMetabolism s) (sdbSeverity s) (nocturia s)
               (chronotype s) checked (blueLight s) (isMenopausal s)
  | BlueLightToggle checked =>
      mkConfig (age s) (gender s) (alcohol s) (caffeine s) (caffeineTime s)
               (caffeineMetabolism s) (sdbSeverity s) (nocturia s)
               (chronotype s) (socialJetLag s) checked (isMenopausal s)
  | MenopauseToggle checked => set_isMenopausal checked s
  | GenderChange g => menopauseGate (set_gender g s)
  | MetabolismChange m =>
      mkConfig (age s) (gender s) (alcohol s) (caffeine s) (caffeineTime s)
               m (sdbSeverity s) (nocturia s)
               (chronotype s) (socialJetLag s) (blueLight s) (isMenopausal s)
  end.

(** The two profiles share the controls of the page: [states] holds one
    state for each, [activeProfile] names the one that the handlers
    write to, and the menopause group is one element, shown or hidden. *)
Inductive ProfileId : Type := profile_A | profile_B.

Record Store : Type := mkStore {
  state_A : Config;
  state_B : Config;
  activeProfile : ProfileId;
  menopauseShown : bool
}.

Definition states (st : Store) (p : ProfileId) : Config :=
  match p with profile_A => state_A st | profile_B => state_B st end.

Definition set_state (p : ProfileId) (s : Config) (shown : bool) (st : Store)
    : Store :=
  match p with
  | profile_A => mkStore s (state_B st) (activeProfile st) shown
  | profile_B => mkStore (state_A st) s (activeProfile st) shown
  end.

(** The store at load, from the display of the menopause group in the
    page. *)
Definition initialStore (shown : bool) : Store :=
  mkStore defaultState defaultState profile_A shown.

(** [switchProfile]: the inputs are set from the state of the profile,
    and the menopause group is shown or hidden for it. *)
Definition switchProfile (p : ProfileId) (st : Store) : Store :=
  mkStore (state_A st) (state_B st) p (menopauseVisible (states st p)).

Inductive Action : Type :=
| Input (e : Event)
| TabClick (p : ProfileId)
| CompareToggle (checked : bool).

(** One action of the user.  An input writes to the state of the active
    profile; the handlers of the age and of the gender set the display of
    the menopause group; leaving the compare mode switches back to
    profile A. *)
Definition step (st : Store) (a : Action) : Store :=
  match a with
  | Input e =>
      let s' := handle (states st (activeProfile st)) e in
      let shown :=
        match e with
        | AgeInput _ | GenderChange _ => menopauseVisible s'
        | _ => menopauseShown st
        end in
      set_state (activeProfile st) s' shown st
  | TabClick p => switchProfile p st
  | CompareToggle checked =>
      if checked then st else switchProfile profile_A st
  end.

(** The menopause toggle sits in the menopause group: it can only fire
    while the group is shown. *)
Definition possible (st : Store) (a : Action) : Prop :=
  match a with
  | Input (MenopauseToggle _) => menopauseShown st = true
  | _ => True
  end.

(** A sequence of actions, each one possible when it happens. *)
Fixpoint possible_run (st : Store) (acts : list Action) : Prop :=
  match acts with
  | [] => True
  | a :: acts' => possible st a /\ possible_run (step st a) acts'
  end.

(** What the handlers keep of a profile state, and of the store: the
    counters in their range, [isMenopausal] only inside the window, and
    the menopause group shown only for a profile inside the window. *)
Definition profile_ok (s : Config) : Prop :=
  0 <= alcohol s <= 10 /\ 0 <= caffeine s <= 10 /\ 0 <= nocturia s <= 10 /\
  (isMenopausal s = true -> gender s = female /\ 40 <= age s <= 60).

Definition store_ok (st : Store) : Prop :=
  profile_ok (state_A st) /\ profile_ok (state_B st) /\
  (menopauseShown st = true ->
   menopauseVisible (states st (activeProfile st)) = true).

End App.
(** ** The chart: [drawHypnogram], [drawCurves] and [drawHormones] *)

Module Chart.

Record Padding : Type := mkPadding { top : Q; right : Q; bottom : Q; left : Q }.

Definition padding : Padding := mkPadding 50 30 40 60.

(** What is drawn: the rectangles of [fillRect], the vertical lines of
    the grid with the hour of their label, and the points of a curve. *)
Record Rect : Type := mkRect { rect_x : Q; rect_y : Q; rect_w : Q; rect_h : Q }.

Record GridLine : Type := mkGridLine { hourAbsolute : Z; grid_x : Q }.

Record Point : Type := mkPoint { point_x : Q; point_y : Q }.

(** [for (let t = t0; t <= last; t += step) body(t)], on whole numbers,
    collecting what the body draws. *)
Fixpoint for_loop {A : Type} (fuel : nat) (t step : Z) (last : Q)
    (body : Z -> list A) : list A :=
  match fuel with
  | O => []
  | S fuel' =>
      if inject_Z t <=? last
      then body t ++ for_loop fuel' (t + step) step last body
      else []
  end.

(** Fuel for the loop to leave by its own test. *)
Definition loop_fuel (t step : Z) (last : Q) : nat :=
  Z.to_nat ((Qfloor last - t) / step + 1).

Section Canvas.

Variables canvas_width canvas_height : Q.
Variable params : Params.t.

Definition width : Q := canvas_width - left padding - right padding.
Definition height : Q := canvas_height - top padding - bottom padding.

Definition sleepStart : Q := 240 + Params.startTimeOffset params.
Definition sleepEnd : Q := sleepStart + Params.tib params.

(** The viewport: the night with an hour on either side, widened around
    its centre to ten hours. *)
Definition viewport : Q * Q :=
  let viewStart := sleepStart - 60 in
  let viewEnd := sleepEnd + 60 in
  let minDuration := 600 in
  let currentDuration := viewEnd - viewStart in
  if currentDuration <? minDuration then
    let extra := minDuration - currentDuration in
    (viewStart - extra / 2, viewEnd + extra / 2)
  else (viewStart, viewEnd).

Definition viewStart : Q := fst viewport.
Definition viewEnd : Q := snd viewport.

Definition totalViewMins : Q := viewEnd - viewStart.

Definition timeToX (t : Q) : Q :=
  left padding + ((t - viewStart) / totalViewMins) * width.

Definition stageY (s : Stage) : Q :=
  match s with
  | WAKE => top padding
  | REM => top padding + height * 0.20
  | N1 => top padding + height * 0.40
  | N2 => top padding + height * 0.60
  | N3 => top padding + height * 0.80
  end.

(** [drawBackground]: the band of the ideal sleep window of the
    chronotype, cut to the plot, and the [x] of its label when the label
    is written. *)
Definition drawBackground : option (Rect * option Q) :=
  let '(start, end_) :=
    match Params.chronotype params with
    | lark => (120, 600)
    | owl => (420, 900)
    | neutral => (240, 720)
    end in
  let x1 := Qmax (left padding) (timeToX start) in
  let x2 := Qmin (canvas_width - right padding) (timeToX end_) in
  if x2 >? x1 then
    let label :=
      if (x1 <? canvas_width - right padding) && (x2 >? left padding) then
        let labelX := (x1 + x2) / 2 in
        if (labelX >? left padding) && (labelX <? canvas_width - right padding)
        then Some labelX else None
      else None in
    Some (mkRect x1 (top padding) (x2 - x1) height, label)
  else None.

(** The vertical lines of the grid, one for each whole hour in view. *)
Definition startHourMins : Z := (Qfloor (viewStart / 60) * 60)%Z.

Definition gridBody (m : Z) : list GridLine :=
  if inject_Z m <? viewStart then []
  else
    let x := timeToX (inject_Z m) in
    let hourAbsolute := Z.rem (18 + Qfloor (inject_Z m / 60)) 24 in
    [mkGridLine hourAbsolute x].

Definition gridLines (fuel : nat) : list GridLine :=
  for_loop fuel startHourMins 60 viewEnd gridBody.

(** The two rectangles of a block: the gradient from the level of its
    stage to the bottom, and the bar of 4 pixels at that level. *)
Definition blockRects (block : Block) : list Rect :=
  let bStart := start block in
  let bEnd := start block + duration block in
  if (bEnd <? viewStart) || (bStart >? viewEnd) then []
  else
    let x := timeToX (Qmax viewStart bStart) in
    let xEndBox := timeToX (Qmin viewEnd bEnd) in
    let w := xEndBox - x in
    if w <? 0.5 then []
    else
      let y := stageY (stage block) in
      let h := (canvas_height - bottom padding) - y in
      [mkRect x y w h; mkRect x (y - 1) w 4].

(** The vertical lines of the wake events, by their [x]. *)
Definition wakeLine (wake : WakeEvent) : list Q :=
  if (time wake <? viewStart) || (time wake >? viewEnd) then []
  else [timeToX (time wake)].

(** The marker of the end of sleep, by its [x]. *)
Definition endOfSleepMarker : option Q :=
  if (sleepEnd >=? viewStart) && (sleepEnd <=? viewEnd)
  then Some (timeToX sleepEnd) else None.

(** *** The curves

    [Math.exp], [Math.cos], [Math.pow] and [Math.PI] are parameters. *)

Variable Math_exp : Q -> Q.
Variable Math_cos : Q -> Q.
Variable Math_pow : Q -> Q -> Q.
Variable Math_PI : Q.

Variable state_local : Config.

Definition models : TwoProcessModel.Curves :=
  TwoProcessModel.getCurves (Params.tib params) (Params.chronotype params)
    (caffeine state_local) (caffeineTime state_local)
    (caffeineMetabolism state_local) (blueLight state_local).

(** Process S: the sleep drive builds up awake and decays asleep. *)
Definition processS (t : Q) : Q :=
  let hoursAwakeBeforeStart := 11 in
  let S_start :=
    1 - Math_exp (- (hoursAwakeBeforeStart * 60) / TwoProcessModel.tau_r models) in
  if t <? sleepStart then
    1 - (1 - S_start) * Math_exp (- t / TwoProcessModel.tau_r models)
  else if t <? sleepEnd then
    let S_onset :=
      1 - (1 - S_start) * Math_exp (- sleepStart / TwoProcessModel.tau_r models) in
    S_onset * Math_exp (- (t - sleepStart) / TwoProcessModel.tau_d models)
  else
    let S_end :=
      (1 - (1 - S_start) * Math_exp (- sleepStart / TwoProcessModel.tau_r models))
      * Math_exp (- (sleepEnd - sleepStart) / TwoProcessModel.tau_d models) in
    1 - (1 - S_end) * Math_exp (- (t - sleepEnd) / TwoProcessModel.tau_r models).

Definition sleepDrive (t : Q) : Q :=
  TwoProcessModel.effectiveS Math_pow models sleepStart t (processS t).

(** Process C: the circadian wave around the peak time. *)
Definition processC (t : Q) : Q :=
  let period := 24 * 60 in
  let phase := (t - TwoProcessModel.peakTime models) / period * 2 * Math_PI in
  0.5 + 0.4 * Math_cos phase.

(** Growth hormone: a pulse 70 minutes into the night. *)
Definition growthHormone (t : Q) : Q :=
  let gh := 0.1 in
  if (t >=? sleepStart) && (t <=? sleepEnd) then
    let timeAsleep := t - sleepStart in
    let peak := 70 in
    let sigma := 25 in
    let pulse :=
      Math_exp (- Math_pow (timeAsleep - peak) 2 / (2 * Math_pow sigma 2)) in
    gh + pulse * 0.8
  else gh.

(** Cortisol: flat, rising over the 210 minutes to half an hour after
    the wake time, then decaying. *)
Definition cortisol (t : Q) : Q :=
  let wakeTime := sleepEnd in
  if t <? wakeTime - 180 then 0.2
  else if t <=? wakeTime + 30 then
    let progress := (t - (wakeTime - 180)) / 210 in
    0.2 + (0.7 * Math_pow progress 2)
  else
    let timeSincePeak := t - (wakeTime + 30) in
    0.9 * Math_exp (- timeSincePeak / 180).

(** The height of a curve value on the canvas. *)
Definition curveY (v : Q) : Q :=
  (height + top padding) - (v * height * 0.9).

(** The points of a curve: one every 5 minutes from [Math.floor(viewStart)]
    to [Math.ceil(viewEnd)]. *)
Definition curvePoints (curve : Q -> Q) (fuel : nat) : list Point :=
  for_loop fuel (Qfloor viewStart) 5 (inject_Z (Qceiling viewEnd))
    (fun t => [mkPoint (timeToX (inject_Z t)) (curveY (curve (inject_Z t)))]).

End Canvas.

End Chart.

(** ** The pie chart and its legend: [drawPieChart] *)

Module PieChart.

Record Arc : Type := mkArc { startAngle : Q; endAngle : Q }.

(** [Math.round]: to the nearest whole number, a half going up. *)
Definition Math_round (x : Q) : Z := Qfloor (x + 0.5).

Section Pie.

Variable Math_PI : Q.
Variable stats : Stats.t.

(** The values of the slices: N3, REM, N2, N1 and wake. *)
Definition data : list Q :=
  [Stats.n3P stats; Stats.remP stats; Stats.n2P stats; Stats.n1P stats;
   Stats.wasoMins stats / Stats.tst stats].

Definition total : Q := fold_left (fun sum item => sum + item) data 0.

(** The [forEach] over the slices, from the running [startAngle]. *)
Fixpoint drawSlices (startAngle : Q) (values : list Q) : list Arc :=
  match values with
  | [] => []
  | value :: rest =>
      let sliceAngle := (value / total) * 2 * Math_PI in
      mkArc startAngle (startAngle + sliceAngle)
      :: drawSlices (startAngle + sliceAngle) rest
  end.

Definition arcs : list Arc := drawSlices (- Math_PI / 2) data.

(** The percentages of the legend. *)
Definition legend : list Z :=
  map (fun value => Math_round ((value / total) * 100)) data.

End Pie.

End PieChart.

(** ** What the chart needs of the library functions *)

(** [Math.exp] is positive, and at most 1 on what is not positive. *)
Definition exp_unit (Math_exp : Q -> Q) : Prop :=
  (forall x : Q, 0 < Math_exp x) /\ (forall x : Q, x <= 0 -> Math_exp x <= 1).

Definition cos_unit (Math_cos : Q -> Q) : Prop :=
  forall x : Q, - (1) <= Math_cos x <= 1.

Definition pow_square (Math_pow : Q -> Q -> Q) : Prop :=
  forall x : Q, Math_pow x 2 == x * x.

(** Stand-ins with these properties: [1 / (1 - x)] below zero and
    [1 + x] above for the exponential, the clamped parabola
    [1 - x^2 / 2] for the cosine. *)
Definition exp_sample (x : Q) : Q :=
  if x <=? 0 then 1 / (1 - x) else 1 + x.

Definition cos_sample (x : Q) : Q :=
  Qmax (- (1)) (Qmin 1 (1 - x * x / 2)).

Definition PI_sample : Q := 355 # 113.

(** ** The engine of the second bundle of [app.js]

    The file holds a second bundle, whose engine runs a fixed number of
    cycles, [Math.floor(tst / 90)], and draws the wake insertion indices
    below that number.  Its classes have the names of the first bundle;
    they are kept apart in the module [FixedCycles].  What the two
    engines share word for word is reused: the blue-light, gender and
    nocturia modifiers, "Recalculate N2", the active caffeine, the
    initial N1, the chunks and the inner [while] loop.  The loop state is
    the record of the first engine; this engine has no [accumulatedSleep]
    variable, the field is carried along and read by nothing. *)

Module FixedCycles.

Module ScientificConstants.

Definition getAgeProfile (age : Q) : Profile :=
  let tst :=
    if age <=? 5 then 660
    else if age <=? 12 then 600
    else if age <=? 18 then 510
    else if age <=? 80 then 480 - ((age - 18) * 2.0)
    else 360 in
  let n3P :=
    if age <=? 10 then 0.25
    else if age <=? 20 then 0.25
    else if age <=? 60 then 0.25 - ((age - 20) * 0.00125)
    else 0.15 in
  let remP := if age >? 60 then 0.20 else 0.25 in
  let wasoMins := if age >? 20 then 10 + (age - 20) * 1.8 else 10 in
  let n1P := if age >? 20 then 0.05 + (age - 20) * 0.0015 else 0.05 in
  let n2P := 1.0 - (n3P + remP + n1P) in
  mkProfile tst n3P remP n1P n2P wasoMins.

End ScientificConstants.

Module HypnogramGenerator.

Section Engine.

Variable Math_pow : Q -> Q -> Q.

Definition caffeine_model (c : Config) (p : Profile) : Profile :=
  let activeCaffeine := activeCaffeine Math_pow c in
  if activeCaffeine >? 0.1 then
    mkProfile (tst p)
              (n3P p * Qmax 0.5 (1 - (activeCaffeine * 0.15)))
              (remP p) (n1P p + activeCaffeine * 0.03) (n2P p) (wasoMins p)
  else p.

Definition alcohol_model (c : Config) (p : Profile) : Profile :=
  if alcohol c >? 0 then
    mkProfile (tst p) (n3P p) (remP p) (n1P p) (n2P p)
              (wasoMins p + alcohol c * 20)
  else p.

Definition socialJetLag_model (c : Config) (p : Profile) : Profile :=
  if socialJetLag c then
    mkProfile (tst p - 60) (n3P p * 0.9) (remP p) (n1P p) (n2P p)
              (wasoMins p + 30)
  else p.

Definition menopause_model (c : Config) (p : Profile) : Profile :=
  if isMenopausal c then
    mkProfile (tst p) (n3P p * 0.85) (remP p * 0.9) (n1P p + 0.05) (n2P p)
              (wasoMins p + 40)
  else p.

Definition sdb_model (c : Config) (p : Profile) : Profile :=
  if sdbSeverity c >? 0 then
    let factor := sdbSeverity c / 10 in
    mkProfile (tst p)
              (n3P p * (1 - factor * 0.8))
              (remP p * (1 - factor * 0.3))
              (n1P p + factor * 0.2) (n2P p)
              (wasoMins p + factor * 60)
  else p.

(** The targets after every modifier. *)
Definition adjustedTargets (c : Config) : Profile :=
  recalculate_n2 (nocturia_model c (sdb_model c (menopause_model c
    (gender_model c (socialJetLag_model c (alcohol_model c
      (caffeine_model c (blueLight_model c
        (ScientificConstants.getAgeProfile (age c)))))))))).

Definition numCycles (tst : Q) : Z := Qfloor (tst / cycleLength).

Definition latency (c : Config) : Q :=
  let latency :=
    15 + (if age c >? 60 then 10 else 0) + (activeCaffeine Math_pow c * 20)
    + blueLightLatency c in
  let latency :=
    if alcohol c >? 0 then Qmax 5 (latency - (alcohol c * 5)) else latency in
  if isMenopausal c then latency + 15 else latency.

(** The indices are drawn below [numCycles]. *)
Definition wakeInsertionIndices (Math_random : nat -> Q) (p : Profile)
    : list Z :=
  sort_ascending
    (map (fun k => Qfloor (Math_random k * inject_Z (numCycles (tst p))))
         (seq 0 (Z.to_nat (numWakeChunks (wasoMins p))))).

(** [localN3], [localREM] and [localN2] of cycle [i] of [numCycles]. *)
Definition localFractions (c : Config) (p : Profile) (numCycles i : Z)
    : Q * Q * Q :=
  let progress := inject_Z i / inject_Z numCycles in
  let localN3 := n3P p * (1 - progress) * 2.5 in
  let localREM := remP p * (0.5 + progress * 1.5) in
  let '(localN3, localREM) :=
    if alcohol c >? 0 then
      if inject_Z i <? inject_Z numCycles / 2 then
        (localN3 * (1 + alcohol c * 0.1),
         localREM * Qmax 0.1 (1 - (alcohol c * 0.3)))
      else
        (localN3 * 0.5, localREM * (1 + alcohol c * 0.2))
    else (localN3, localREM) in
  let localN2 := 1.0 - (localN3 + localREM) in
  if localN2 <? 0 then
    let overflow := - localN2 in
    (localN3 - overflow / 2, localREM - overflow / 2, 0)
  else (localN3, localREM, localN2).

(** The blocks of sleep of one cycle. *)
Definition cycle_sleep (c : Config) (p : Profile) (numCycles : Z)
    (st : LoopState) : LoopState :=
  let i := cycleIndex st in
  let '(localN3, localREM, localN2) := localFractions c p numCycles i in
  let cycleMins := cycleLength in
  let st := push_sleep N2 (cycleMins * (localN2 * 0.4)) st in
  let st :=
    if localN3 >? 0.05 then push_sleep N3 (cycleMins * localN3) st
    else push_sleep N2 (cycleMins * localN3) st in
  let st := push_sleep N2 (cycleMins * (localN2 * 0.6)) st in
  let st := push_sleep REM (cycleMins * localREM) st in
  if (i <? numCycles - 1)%Z then push_sleep N1 (transN1 c) st else st.

(** The body of [for (let i = 0; i < numCycles; i++)]. *)
Definition cycle_body (c : Config) (p : Profile) (indices : list Z)
    (st : LoopState) : LoopState :=
  let st := cycle_sleep c p (numCycles (tst p)) st in
  let st :=
    inject_wake (length indices) indices (wakeChunkDuration (wasoMins p)) st in
  next_cycle st.

Definition initial_state (c : Config) : LoopState :=
  let latency := latency c in
  let initialN1 := initialN1 Math_pow c in
  mkLoopState [mkBlock WAKE latency 0; mkBlock N1 initialN1 (0 + latency)]
              (0 + latency + initialN1) initialN1 0%Z O.

(** The state after the [n] first cycles. *)
Fixpoint cycles (n : nat) (c : Config) (p : Profile) (indices : list Z)
    (st : LoopState) : LoopState :=
  match n with
  | O => st
  | S n' => cycles n' c p indices (cycle_body c p indices st)
  end.

(** The loop runs once for every [i] from 0 below [numCycles]. *)
Definition run_cycles (Math_random : nat -> Q) (c : Config) : LoopState :=
  let p := adjustedTargets c in
  cycles (Z.to_nat (numCycles (tst p))) c p
    (wakeInsertionIndices Math_random p) (initial_state c).

Definition numMicroArousals (c : Config) : Q :=
  5 + (if age c >? 50 then 5 else 0) + (sdbSeverity c * 5).

Definition microArousals (Math_random : nat -> Q) (first : nat) (c : Config)
    (currentTime : Q) : list WakeEvent :=
  map (fun i =>
         let wakeT :=
           latency c + Math_random (first + i)%nat * (currentTime - latency c) in
         mkWakeEvent wakeT 1)
      (seq 0 (Z.to_nat (Qceiling (numMicroArousals c)))).

Definition startTimeOffset (c : Config) : Q :=
  let startTimeOffset :=
    match chronotype c with
    | lark => -120
    | owl => 180
    | neutral => 0
    end in
  if socialJetLag c then startTimeOffset + bedtimeShift c
  else startTimeOffset.

Definition finish (Math_random : nat -> Q) (c : Config) (st : LoopState)
    : SimulationResult.t :=
  let p := adjustedTargets c in
  let wakeEvents :=
    microArousals Math_random (Z.to_nat (numWakeChunks (wasoMins p))) c
                  (currentTime st) in
  let startTimeOffset := startTimeOffset c in
  let actualTST := actualTST (blocks st) in
  let tib := currentTime st in
  let sleepEfficiency := (actualTST / tib) * 100 in
  SimulationResult.mk
    (map (shift_block startTimeOffset) (blocks st))
    (map (shift_event startTimeOffset) wakeEvents)
    (Params.mk (chronotype c) startTimeOffset actualTST tib)
    (Stats.mk (n3P p) (remP p) (n1P p) (n2P p) (wasoMins p) actualTST tib
              sleepEfficiency (latency c)).

Definition generate (Math_random : nat -> Q) (c : Config)
    : SimulationResult.t :=
  finish Math_random c (run_cycles Math_random c).

End Engine.

End HypnogramGenerator.

End FixedCycles.

Module FixedEngine := FixedCycles.HypnogramGenerator.

(** ** The engine of [models.js]

    The data models of the file [models.js], an engine of the same
    family: a fixed number of cycles, no wake block but the latency, and
    wake events of 2 to 5 minutes and nocturia events of 10 minutes as
    an overlay.  Its SDB and nocturia modifiers are those of the second
    bundle; its loop has the variables [blocks], [currentTime] and [i],
    carried in the record of the first engine. *)

Module Phase6.

Module ScientificConstants.

Definition getAgeProfile (age : Q) : Profile :=
  let tst :=
    if age <=? 5 then 660
    else if age <=? 12 then 600
    else if age <=? 18 then 540
    else if age <=? 60 then 480 - ((age - 18) * 1.5)
    else 420 in
  let n3P :=
    if age <=? 10 then 0.25
    else if age <=? 20 then 0.20
    else if age <=? 60 then 0.20 - ((age - 20) * 0.004)
    else 0.02 in
  let remP := if age >? 60 then 0.20 else 0.25 in
  let wasoMins := if age >? 20 then 10 + (age - 20) * 1.5 else 10 in
  let n1P := 0.05 + (age / 100) * 0.10 in
  let n2P := 1.0 - (n3P + remP + n1P) in
  mkProfile tst n3P remP n1P n2P wasoMins.

End ScientificConstants.

(** The result: [params] holds the chronotype and the offset, [stats]
    has the fields of a profile. *)
Module Params.
Record t : Type := mk {
  chronotype : Chronotype;
  startTimeOffset : Q
}.
End Params.

Module Result.
Record t : Type := mk {
  blocks : list Block;
  wakeEvents : list WakeEvent;
  params : Params.t;
  stats : Profile
}.
End Result.

Module HypnogramGenerator.

Definition gender_model (c : Config) (p : Profile) : Profile :=
  match gender c with
  | male =>
      if age c >? 30 then
        mkProfile (tst p) (n3P p * 0.7) (remP p) (n1P p) (n2P p)
                  (wasoMins p * 1.3)
      else p
  | _ => p
  end.

Definition alcohol_model (c : Config) (p : Profile) : Profile :=
  if alcohol c >? 0 then
    mkProfile (tst p) (n3P p)
              (remP p * Qmax 0.5 (1 - (alcohol c * 0.1)))
              (n1P p) (n2P p) (wasoMins p + alcohol c * 15)
  else p.

Definition caffeine_model (c : Config) (p : Profile) : Profile :=
  if caffeine c >? 0 then
    mkProfile (tst p)
              (n3P p * Qmax 0.5 (1 - (caffeine c * 0.1)))
              (remP p) (n1P p + caffeine c * 0.02) (n2P p) (wasoMins p)
  else p.

(** The targets after the modifiers, before N2 is recalculated. *)
Definition modifiedTargets (c : Config) : Profile :=
  nocturia_model c (FixedEngine.sdb_model c (caffeine_model c
    (alcohol_model c (gender_model c
      (ScientificConstants.getAgeProfile (age c)))))).

(** "Recalculate N2", with the safety at 0.9. *)
Definition recalculate_n2 (p : Profile) : Profile :=
  let totalP := n3P p + remP p + n1P p in
  let '(n3, rem, n1) :=
    if totalP >? 0.9 then
      let scale := 0.9 / totalP in
      (n3P p * scale, remP p * scale, n1P p * scale)
    else (n3P p, remP p, n1P p) in
  mkProfile (tst p) n3 rem n1 (1.0 - (n3 + rem + n1)) (wasoMins p).

Definition adjustedTargets (c : Config) : Profile :=
  recalculate_n2 (modifiedTargets c).

Definition effectiveTST (c : Config) : Q :=
  tst (modifiedTargets c) - wasoMins (modifiedTargets c).

Definition numCycles (c : Config) : Z :=
  Qfloor (effectiveTST c / cycleLength).

Definition latency (c : Config) : Q :=
  let latency := 15 + (if age c >? 60 then 10 else 0) + (caffeine c * 15) in
  if alcohol c >? 0 then Qmax 5 (latency - 10) else latency.

Definition localFractions (p : Profile) (numCycles i : Z) : Q * Q * Q :=
  let progress := inject_Z i / inject_Z numCycles in
  let localN3 := n3P p * (1 - progress) * 2.0 in
  let localREM := remP p * (0.5 + progress * 1.5) in
  let localN2 := 1.0 - (localN3 + localREM) in
  if localN2 <? 0 then
    let overflow := - localN2 in
    (localN3 - overflow / 2, localREM - overflow / 2, 0)
  else (localN3, localREM, localN2).

(** The body of [for (let i = 0; i < numCycles; i++)]. *)
Definition cycle_body (c : Config) (p : Profile) (numCycles : Z)
    (st : LoopState) : LoopState :=
  let i := cycleIndex st in
  let '(localN3, localREM, localN2) := localFractions p numCycles i in
  let cycleMins := cycleLength in
  let st :=
    if localN3 >? 0.05 then
      push_sleep N3 (cycleMins * localN3) (push_sleep N2 (cycleMins * 0.1) st)
    else push_sleep N2 (cycleMins * (0.1 + localN3)) st in
  let st := push_sleep N2 (cycleMins * (localN2 * 0.5)) st in
  let thisRem :=
    if (alcohol c >? 0) && (i <? 2)%Z then localREM * 0.2 else localREM in
  let st := push_sleep REM (cycleMins * thisRem) st in
  next_cycle st.

Fixpoint cycles (n : nat) (c : Config) (p : Profile) (numCycles : Z)
    (st : LoopState) : LoopState :=
  match n with
  | O => st
  | S n' => cycles n' c p numCycles (cycle_body c p numCycles st)
  end.

(** The state at the head of the loop: the latency block. *)
Definition initial_state (c : Config) : LoopState :=
  mkLoopState [mkBlock WAKE (latency c) 0] (0 + latency c) 0 0%Z O.

Definition run_cycles (c : Config) : LoopState :=
  cycles (Z.to_nat (numCycles c)) c (adjustedTargets c) (numCycles c)
    (initial_state c).

(** The overlay: [numWakeEvents] events, two calls of [Math.random]
    each, then one nocturia event, with one call, for every whole number
    from 1 to [nocturia]. *)
Definition numWakeEvents (c : Config) : Z :=
  Qfloor (wasoMins (modifiedTargets c) / 2).

Definition randomWakeEvents (Math_random : nat -> Q) (c : Config)
    : list WakeEvent :=
  map (fun i =>
         let wakeT := latency c + Math_random (2 * i)%nat * effectiveTST c in
         mkWakeEvent wakeT (2 + Math_random (2 * i + 1)%nat * 3))
      (seq 0 (Z.to_nat (numWakeEvents c))).

Definition nocturiaEvents (Math_random : nat -> Q) (c : Config)
    : list WakeEvent :=
  if nocturia c >? 0 then
    map (fun k =>
           let i := inject_Z (Z.of_nat (S k)) in
           let time :=
             latency c + (effectiveTST c * (i / (nocturia c + 1)))
             + (Math_random (2 * Z.to_nat (numWakeEvents c) + k)%nat * 30 - 15) in
           mkWakeEvent time 10)
        (seq 0 (Z.to_nat (Qfloor (nocturia c))))
  else [].

Definition startTimeOffset (c : Config) : Q :=
  match chronotype c with
  | lark => -120
  | owl => 180
  | neutral => 0
  end.

Definition generate (Math_random : nat -> Q) (c : Config) : Result.t :=
  let st := run_cycles c in
  let wakeEvents :=
    randomWakeEvents Math_random c ++ nocturiaEvents Math_random c in
  let startTimeOffset := startTimeOffset c in
  Result.mk
    (map (shift_block startTimeOffset) (blocks st))
    (map (shift_event startTimeOffset) wakeEvents)
    (Params.mk (chronotype c) startTimeOffset)
    (adjustedTargets c).

End HypnogramGenerator.

End Phase6.

Module Phase6Engine := Phase6.HypnogramGenerator.

(** ** The loop of the engine in double precision

    The rest of this file reads the numbers of the program as exact
    rationals.  The guard of the continuous loop, [accumulatedSleep <
    tst], compares two sums of products, and how many turns the loop
    takes depends on how those sums are rounded.  The module [Double]
    is the same code, from [getAgeProfile] to the exit of the loop, on
    binary64 numbers with the operations of the kernel: every literal is
    the nearest double, every [+ - * /] rounds to nearest, and the
    operations are taken in the order in which the program writes them.
    [Math.max] and [Math.min] are given on ordered numbers (the engine
    calls them on no NaN); [Math.floor] and [Math.ceil] go through the
    exact mantissa and exponent of their argument; [Math.pow] is a
    parameter and [Math.random] the sequence of its values, as before.
    The assignment [cycleProgress], which nothing reads, is left out. *)

Module Double.

Import PrimFloat FloatOps SpecFloat.
Local Open Scope float_scope.
#[local] Set Warnings "-inexact-float".

Definition Math_max (x y : float) : float := if x <? y then y else x.
Definition Math_min (x y : float) : float := if y <? x then y else x.

(** A whole number as a double (exact below 2^53). *)
Definition of_Z (n : Z) : float :=
  if (n <? 0)%Z then - of_uint63 (Uint63.of_Z (- n))
  else of_uint63 (Uint63.of_Z n).

(** The greatest whole number not above a finite [x]; 0 at the others. *)
Definition floor_Z (x : float) : Z :=
  match Prim2SF x with
  | S754_finite s m e =>
      let z := if s then Z.neg m else Z.pos m in
      (if (0 <=? e)%Z then z * 2 ^ e else z / 2 ^ (- e))%Z
  | _ => 0%Z
  end.

Definition Math_floor (x : float) : float :=
  match Prim2SF x with
  | S754_finite _ _ _ => of_Z (floor_Z x)
  | _ => x
  end.

Definition Math_ceil (x : float) : float :=
  match Prim2SF x with
  | S754_finite _ _ _ => of_Z (- floor_Z (- x))
  | _ => x
  end.

Record Block : Type := mkBlock {
  stage : Stage;
  duration : float;
  start : float
}.

Record Config : Type := mkConfig {
  age : float;
  gender : Gender;
  alcohol : float;
  caffeine : float;
  caffeineTime : float;
  caffeineMetabolism : Metabolism;
  sdbSeverity : float;
  nocturia : float;
  chronotype : Chronotype;
  socialJetLag : bool;
  blueLight : bool;
  isMenopausal : bool
}.

Record Profile : Type := mkProfile {
  tst : float;
  n3P : float;
  remP : float;
  n1P : float;
  n2P : float;
  wasoMins : float
}.

(** *** [ScientificConstants.getAgeProfile] *)

Fixpoint interpolate_scan (val : float) (keyframes : list (float * float))
    (fallback : float) : float :=
  match keyframes with
  | (a1, v1) :: rest =>
      match rest with
      | (a2, v2) :: _ =>
          if (a1 <=? val) && (val <=? a2)
          then let t := (val - a1) / (a2 - a1) in v1 + t * (v2 - v1)
          else interpolate_scan val rest fallback
      | [] => fallback
      end
  | [] => fallback
  end.

Definition interpolate (val : float) (keyframes : list (float * float))
    : float :=
  match keyframes with
  | [] => 0
  | (a0, v0) :: _ =>
      let '(an, vn) := last keyframes (a0, v0) in
      if val <=? a0 then v0
      else if an <=? val then vn
      else interpolate_scan val keyframes vn
  end.

Definition tstKeyframes : list (float * float) :=
  [(0, 960); (5, 690); (12, 570); (18, 480); (40, 432); (60, 360);
   (80, 312); (90, 300)].

Definition n3Keyframes : list (float * float) :=
  [(0, 0.25); (10, 0.25); (18, 0.22); (40, 0.18); (60, 0.15); (80, 0.12);
   (100, 0.10)].

Definition remKeyframes : list (float * float) :=
  [(0, 0.50); (3, 0.30); (5, 0.25); (60, 0.23); (80, 0.20); (100, 0.18)].

Definition wasoKeyframes : list (float * float) :=
  [(0, 5); (30, 20); (50, 45); (70, 80); (80, 120); (90, 150)].

Definition n1Keyframes : list (float * float) :=
  [(0, 0.05); (50, 0.05); (80, 0.10); (100, 0.12)].

Definition getAgeProfile (age : float) : Profile :=
  let tst := interpolate age tstKeyframes in
  let n3P := interpolate age n3Keyframes in
  let remP := interpolate age remKeyframes in
  let wasoMins := interpolate age wasoKeyframes in
  let n1P := interpolate age n1Keyframes in
  let n2P := 1.0 - (n3P + remP + n1P) in
  if n2P <? 0 then
    let sum := n3P + remP + n1P in
    mkProfile tst (n3P / sum * 0.95) (remP / sum * 0.95) (n1P / sum * 0.95)
              0.05 wasoMins
  else mkProfile tst n3P remP n1P n2P wasoMins.

(** *** [HypnogramGenerator.generate], to the exit of the loop *)

Record LoopState : Type := mkLoopState {
  blocks : list Block;
  currentTime : float;
  accumulatedSleep : float;
  cycleIndex : float;
  wakeChunkIndex : nat
}.

(** [blocks.push({stage, duration, start: currentTime}); currentTime +=
    duration; accumulatedSleep += duration]. *)
Definition push_sleep (s : Stage) (d : float) (st : LoopState) : LoopState :=
  mkLoopState (blocks st ++ [mkBlock s d (currentTime st)])
              (currentTime st + d) (accumulatedSleep st + d)
              (cycleIndex st) (wakeChunkIndex st).

Definition push_wake_chunk (d : float) (st : LoopState) : LoopState :=
  mkLoopState (blocks st ++ [mkBlock WAKE d (currentTime st)])
              (currentTime st + d) (accumulatedSleep st)
              (cycleIndex st) (S (wakeChunkIndex st)).

Fixpoint inject_wake (n : nat) (wakeInsertionIndices : list float)
    (wakeChunkDuration : float) (st : LoopState) : LoopState :=
  match n with
  | O => st
  | S n' =>
      match nth_error wakeInsertionIndices (wakeChunkIndex st) with
      | Some i =>
          if i =? cycleIndex st
          then inject_wake n' wakeInsertionIndices wakeChunkDuration
                 (push_wake_chunk wakeChunkDuration st)
          else st
      | None => st
      end
  end.

(** [sort((a, b) => a - b)] on numbers. *)
Fixpoint insert_sorted (x : float) (l : list float) : list float :=
  match l with
  | [] => [x]
  | y :: l' => if x <? y then x :: l else y :: insert_sorted x l'
  end.

Definition sort_ascending (l : list float) : list float :=
  fold_left (fun acc x => insert_sorted x acc) l [].

Definition cycleLength : float := 90.

Section Engine.

Variable Math_pow : float -> float -> float.

Definition activeCaffeine (c : Config) : float :=
  let halfLife :=
    match caffeineMetabolism c with
    | fast => 4
    | slow => 8
    | normal => 6
    end in
  caffeine c * Math_pow 0.5 (caffeineTime c / halfLife).

(** The targets after every modifier, in the order of the program. *)
Definition adjustedTargets (c : Config) : Profile :=
  let p := getAgeProfile (age c) in
  let tst := tst p in
  let n3P := n3P p in
  let remP := remP p in
  let n1P := n1P p in
  let wasoMins := wasoMins p in
  (* Blue light *)
  let '(tst, n3P, remP, n1P) :=
    if blueLight c then (tst - 30, n3P * 0.85, remP * 0.9, n1P + 0.03)
    else (tst, n3P, remP, n1P) in
  (* Caffeine *)
  let activeCaffeine := activeCaffeine c in
  let '(tst, n3P, n1P, wasoMins) :=
    if 0.1 <? activeCaffeine then
      (tst - activeCaffeine * 15,
       n3P * Math_max 0.5 (1 - (activeCaffeine * 0.15)),
       n1P + activeCaffeine * 0.03,
       wasoMins + activeCaffeine * 15)
    else (tst, n3P, n1P, wasoMins) in
  (* Alcohol *)
  let '(n3P, remP, wasoMins) :=
    if 0 <? alcohol c then
      (n3P * Math_max 0.6 (1 - (alcohol c * 0.1)),
       remP * Math_max 0.4 (1 - (alcohol c * 0.15)),
       wasoMins + alcohol c * 25)
    else (n3P, remP, wasoMins) in
  (* Social jet lag *)
  let '(tst, n3P, remP, wasoMins) :=
    if socialJetLag c then (tst - 60, n3P * 0.85, remP * 0.8, wasoMins + 30)
    else (tst, n3P, remP, wasoMins) in
  (* Gender *)
  let wasoMins :=
    match gender c with
    | male => if 30 <? age c then wasoMins * 1.1 else wasoMins
    | _ => wasoMins
    end in
  (* Menopause *)
  let '(wasoMins, n3P, remP, n1P) :=
    if isMenopausal c then (wasoMins + 45, n3P * 0.80, remP * 0.9, n1P + 0.05)
    else (wasoMins, n3P, remP, n1P) in
  (* SDB *)
  let '(n3P, remP, wasoMins, n1P, tst) :=
    if 0 <? sdbSeverity c then
      let factor := sdbSeverity c / 10 in
      (n3P * (1 - factor * 0.75), remP * (1 - factor * 0.3),
       wasoMins + factor * 80, n1P + factor * 0.15, tst - factor * 60)
    else (n3P, remP, wasoMins, n1P, tst) in
  (* Nocturia *)
  let wasoMins :=
    if 0 <? nocturia c then wasoMins + nocturia c * 10 else wasoMins in
  (* Recalculate N2 *)
  let totalP := n3P + remP + n1P in
  let '(n3P, remP, n1P) :=
    if 0.95 <? totalP then
      let scale := 0.95 / totalP in (n3P * scale, remP * scale, n1P * scale)
    else (n3P, remP, n1P) in
  let n2P := 1.0 - (n3P + remP + n1P) in
  mkProfile tst n3P remP n1P n2P wasoMins.

Definition latency (c : Config) : float :=
  let blueLightLatency := if blueLight c then 45 else 0 in
  let latency :=
    10 + Math_max 0 ((age c - 20) * 0.25) + (activeCaffeine c * 20)
    + blueLightLatency in
  let latency :=
    if 0 <? alcohol c then Math_max 5 (latency - (alcohol c * 5))
    else latency in
  if isMenopausal c then latency + 15 else latency.

Definition initialN1 (c : Config) : float :=
  5 + (if 50 <? age c then 5 else 0) + (activeCaffeine c * 5).

Definition numWakeChunks (wasoMins : float) : float :=
  Math_max 1 (Math_floor (wasoMins / 15)).

Definition wakeChunkDuration (wasoMins : float) : float :=
  wasoMins / numWakeChunks wasoMins.

Definition estCycles (tst : float) : float := Math_ceil (tst / cycleLength).

(** [for (let k = 0; k < numWakeChunks; k++)]: one draw for every whole
    number below [numWakeChunks], a whole number itself. *)
Definition wakeInsertionIndices (Math_random : nat -> float) (p : Profile)
    : list float :=
  let count := Z.to_nat (floor_Z (numWakeChunks (wasoMins p))) in
  sort_ascending
    (map (fun k => Math_floor (Math_random k * estCycles (tst p)))
         (seq 0 count)).

Definition localFractions (c : Config) (p : Profile) (cycleIndex : float)
    : float * float * float :=
  let localN3 := n3P p * (1 - (cycleIndex * 0.15)) * 2.0 in
  let localREM := remP p * (0.5 + (cycleIndex * 0.20) * 1.5) in
  let '(localN3, localREM) :=
    if 0 <? alcohol c then
      if cycleIndex <? 2 then
        (localN3 * (1 + alcohol c * 0.1),
         localREM * Math_max 0.1 (1 - (alcohol c * 0.3)))
      else
        (localN3 * 0.5, localREM * (1 + alcohol c * 0.2))
    else (localN3, localREM) in
  let localN2 := 1.0 - (localN3 + localREM) in
  if localN2 <? 0 then
    let total := localN3 + localREM in
    ((localN3 / total) * 0.9, (localREM / total) * 0.9, 0.1)
  else (localN3, localREM, localN2).

(** The body of the continuous loop. *)
Definition cycle_body (c : Config) (p : Profile) (indices : list float)
    (st : LoopState) : LoopState :=
  let '(localN3, localREM, localN2) := localFractions c p (cycleIndex st) in
  let remainingSleep := tst p - accumulatedSleep st in
  let currentCycleSleep := Math_min cycleLength remainingSleep in
  let st := push_sleep N2 (currentCycleSleep * (localN2 * 0.4)) st in
  let st :=
    if 0.01 <? localN3 then push_sleep N3 (currentCycleSleep * localN3) st
    else st in
  let st := push_sleep N2 (currentCycleSleep * (localN2 * 0.6)) st in
  let st := push_sleep REM (currentCycleSleep * localREM) st in
  let st :=
    if cycleLength * 0.9 <=? currentCycleSleep
    then push_sleep N1 (2 + (if 50 <? age c then 2 else 0)) st
    else st in
  let st :=
    inject_wake (length indices) indices (wakeChunkDuration (wasoMins p)) st in
  mkLoopState (blocks st) (currentTime st) (accumulatedSleep st)
              (cycleIndex st + 1) (wakeChunkIndex st).


(** [while (accumulatedSleep < tst)]: [None] when [fuel] turns do not
    reach the exit. *)
Fixpoint cycle_loop (fuel : nat) (c : Config) (p : Profile)
    (indices : list float) (st : LoopState) : option LoopState :=
  if accumulatedSleep st <? tst p then
    match fuel with
    | O => None
    | S fuel' => cycle_loop fuel' c p indices (cycle_body c p indices st)
    end
  else Some st.

(** The state at the head of the loop. *)
Definition initial_state (c : Config) : LoopState :=
  let latency := latency c in
  let initialN1 := initialN1 c in
  mkLoopState [mkBlock WAKE latency 0; mkBlock N1 initialN1 (0 + latency)]
              (0 + latency + initialN1) initialN1 0 O.

Definition run_cycles (fuel : nat) (Math_random : nat -> float) (c : Config)
    : option LoopState :=
  let p := adjustedTargets c in
  cycle_loop fuel c p (wakeInsertionIndices Math_random p) (initial_state c).




End Engine.


Definition age_77 : float := 77.

(** The default state of the page with the age slider at 77. *)
Definition config_77 : Config :=
  mkConfig 77 male 0 0 0 normal 0 0 neutral false false false.


End Double.

(** The same input in the exact reading. *)
Definition config_77 : Config :=
  mkConfig 77 male 0 0 0 normal 0 0 neutral false false false.
(** * Lemmas *)

(** ** Comparisons, maxima and quotients *)

Lemma Qleb_spec (x y : Q) : BoolSpec (x <= y) (y < x) (x <=? y).
Proof.
  unfold Qleb. destruct (Qle_bool x y) eqn:E; constructor.
  - now apply Qle_bool_iff.
  - apply Qnot_le_lt. intro H. apply Qle_bool_iff in H. congruence.
Qed.

Lemma Qltb_spec (x y : Q) : BoolSpec (x < y) (y <= x) (x <? y).
Proof.
  unfold Qltb. destruct (Qle_bool y x) eqn:E; constructor.
  - now apply Qle_bool_iff.
  - apply Qnot_le_lt. intro H. apply Qle_bool_iff in H. congruence.
Qed.

Lemma Qmax_cases (x y : Q) : (x < y /\ Qmax x y == y) \/ (y <= x /\ Qmax x y == x).
Proof. apply Q.max_spec. Qed.

Lemma Qmin_cases (x y : Q) : (x < y /\ Qmin x y == x) \/ (y <= x /\ Qmin x y == y).
Proof. apply Q.min_spec. Qed.

(** Case analysis on every comparison, maximum and minimum in sight. *)
Ltac qcases :=
  repeat match goal with
  | |- context [Qleb ?x ?y] => destruct (Qleb_spec x y)
  | |- context [Qltb ?x ?y] => destruct (Qltb_spec x y)
  | H : context [Qleb ?x ?y] |- _ => destruct (Qleb_spec x y)
  | H : context [Qltb ?x ?y] |- _ => destruct (Qltb_spec x y)
  end.

Ltac qminmax :=
  repeat match goal with
  | |- context [Qmax ?x ?y] =>
      let m := fresh "m" in let Hm := fresh "Hm" in
      destruct (Qmax_cases x y) as [[? Hm]|[? Hm]];
      set (m := Qmax x y) in *; clearbody m
  | |- context [Qmin ?x ?y] =>
      let m := fresh "m" in let Hm := fresh "Hm" in
      destruct (Qmin_cases x y) as [[? Hm]|[? Hm]];
      set (m := Qmin x y) in *; clearbody m
  end.

(** A quotient [a / b] with [b] known to be non-zero becomes a fresh
    number [q] with [q * b == a], which linear and polynomial arithmetic
    can use. *)
Ltac qdiv a b :=
  let q := fresh "q" in
  let Hq := fresh "Hq" in
  assert (Hq : (a / b) * b == a) by (field; lra);
  set (q := a / b) in *; clearbody q.

(** ** Bounds of the interpolation *)

Section InterpolateBounds.

Variables lo hi : Q.

Lemma interpolate_scan_bounds (val : Q) (keyframes : list (Q * Q)) (fallback : Q) :
  keyframes_ok lo hi keyframes -> lo <= fallback <= hi ->
  lo <= interpolate_scan val keyframes fallback <= hi.
Proof.
  induction keyframes as [|[a1 v1] rest IH]; simpl; intros Hk Hf; [exact Hf|].
  destruct rest as [|[a2 v2] rest']; [exact Hf|].
  destruct Hk as (Hv1 & Hlt & Hk).
  destruct (Qleb_spec a1 val), (Qleb_spec val a2); simpl;
    try (apply IH; assumption).
  assert (Hv2 : lo <= v2 <= hi) by (simpl in Hk; tauto).
  qdiv (val - a1) (a2 - a1).
  assert (0 <= q <= 1) by (split; nra).
  split; nra.
Qed.

Lemma last_bounds (keyframes : list (Q * Q)) (d : Q * Q) :
  keyframes_ok lo hi keyframes -> lo <= snd d <= hi ->
  lo <= snd (last keyframes d) <= hi.
Proof.
  induction keyframes as [|[a1 v1] rest IH]; intros Hk Hd; [exact Hd|].
  destruct Hk as (Hv1 & _ & Hk). destruct rest as [|kf rest'].
  - exact Hv1.
  - change (last ((a1, v1) :: kf :: rest') d) with (last (kf :: rest') d).
    apply IH; assumption.
Qed.

Lemma interpolate_bounds (val : Q) (keyframes : list (Q * Q)) :
  keyframes <> [] -> keyframes_ok lo hi keyframes ->
  lo <= interpolate val keyframes <= hi.
Proof.
  intros Hne Hk. unfold interpolate.
  destruct keyframes as [|[a0 v0] rest]; [congruence|].
  assert (Hv0 : lo <= v0 <= hi) by (simpl in Hk; tauto).
  pose proof (last_bounds ((a0, v0) :: rest) (a0, v0) Hk Hv0) as Hl.
  destruct (last ((a0, v0) :: rest) (a0, v0)) as [an vn]. simpl in Hl.
  destruct (Qleb_spec val a0); [exact Hv0|].
  destruct (Qleb_spec an val); [exact Hl|].
  apply interpolate_scan_bounds; assumption.
Qed.

End InterpolateBounds.

Ltac keyframes_tac :=
  first [ discriminate
        | simpl; repeat split; lra ].

Lemma tst_profile_bounds (age : Q) : 300 <= interpolate age tstKeyframes <= 960.
Proof. apply interpolate_bounds; keyframes_tac. Qed.

Lemma n3_profile_bounds (age : Q) : 0.10 <= interpolate age n3Keyframes <= 0.25.
Proof. apply interpolate_bounds; keyframes_tac. Qed.

Lemma rem_profile_bounds (age : Q) : 0.18 <= interpolate age remKeyframes <= 0.50.
Proof. apply interpolate_bounds; keyframes_tac. Qed.

Lemma waso_profile_bounds (age : Q) : 5 <= interpolate age wasoKeyframes <= 150.
Proof. apply interpolate_bounds; keyframes_tac. Qed.

Lemma n1_profile_bounds (age : Q) : 0.05 <= interpolate age n1Keyframes <= 0.12.
Proof. apply interpolate_bounds; keyframes_tac. Qed.
(** ** Sums and contiguity of block sequences *)

Lemma sum_durations_app (l1 l2 : list Block) :
  sum_durations (l1 ++ l2) == sum_durations l1 + sum_durations l2.
Proof.
  unfold sum_durations. induction l1 as [|b l1 IH]; simpl.
  - lra.
  - rewrite IH. lra.
Qed.

Lemma sum_durations_snoc (l : list Block) (b : Block) :
  sum_durations (l ++ [b]) == sum_durations l + duration b.
Proof. rewrite sum_durations_app. unfold sum_durations. simpl. lra. Qed.

Lemma sleep_blocks_app (l1 l2 : list Block) :
  sleep_blocks (l1 ++ l2) = sleep_blocks l1 ++ sleep_blocks l2.
Proof. apply filter_app. Qed.

Lemma wake_blocks_app (l1 l2 : list Block) :
  wake_blocks (l1 ++ l2) = wake_blocks l1 ++ wake_blocks l2.
Proof. apply filter_app. Qed.

Lemma sum_sleep_wake (bs : list Block) :
  sum_durations bs ==
  sum_durations (sleep_blocks bs) + sum_durations (wake_blocks bs).
Proof.
  induction bs as [|b bs IH]; [reflexivity|].
  unfold sleep_blocks, wake_blocks in *. simpl.
  destruct (is_wake (stage b)); simpl;
    unfold sum_durations in *; simpl; rewrite IH; lra.
Qed.

(** The [reduce] of the program computes the sum over the sleep blocks. *)
Lemma actualTST_fold (bs : list Block) (acc : Q) :
  fold_left
    (fun sum b => if negb (is_wake (stage b)) then sum + duration b else sum)
    bs acc == acc + sum_durations (sleep_blocks bs).
Proof.
  revert acc. induction bs as [|b bs IH]; intro acc; simpl.
  - unfold sum_durations. simpl. lra.
  - rewrite IH. unfold sleep_blocks. simpl.
    destruct (negb (is_wake (stage b))); unfold sum_durations; simpl; lra.
Qed.

Lemma actualTST_sum (bs : list Block) :
  actualTST bs == sum_durations (sleep_blocks bs).
Proof. unfold actualTST. rewrite actualTST_fold. lra. Qed.

Lemma sum_durations_shift (o : Q) (bs : list Block) :
  sum_durations (map (shift_block o) bs) = sum_durations bs.
Proof.
  unfold sum_durations. rewrite map_map. reflexivity.
Qed.

Lemma sleep_blocks_shift (o : Q) (bs : list Block) :
  sleep_blocks (map (shift_block o) bs) = map (shift_block o) (sleep_blocks bs).
Proof.
  unfold sleep_blocks. induction bs as [|b bs IH]; simpl; [reflexivity|].
  destruct (negb (is_wake (stage b))); simpl; now rewrite IH.
Qed.

Lemma wake_blocks_shift (o : Q) (bs : list Block) :
  wake_blocks (map (shift_block o) bs) = map (shift_block o) (wake_blocks bs).
Proof.
  unfold wake_blocks. induction bs as [|b bs IH]; simpl; [reflexivity|].
  destruct (is_wake (stage b)); simpl; now rewrite IH.
Qed.

Lemma contiguous_from_eq (t t' : Q) (bs : list Block) :
  t == t' -> contiguous_from t bs -> contiguous_from t' bs.
Proof.
  destruct bs as [|b bs]; simpl; [trivial|].
  intros E [H1 H2]. split; [lra | exact H2].
Qed.

Lemma contiguous_from_snoc (t : Q) (bs : list Block) (b : Block) :
  contiguous_from t bs -> start b == t + sum_durations bs ->
  contiguous_from t (bs ++ [b]).
Proof.
  revert t. induction bs as [|a bs IH]; simpl; intros t Hc Hs.
  - unfold sum_durations in Hs. simpl in Hs. split; [lra | exact I].
  - destruct Hc as [Ha Hc]. split; [exact Ha|].
    apply IH; [exact Hc|].
    unfold sum_durations in *. simpl in Hs. lra.
Qed.

Lemma contiguous_from_shift (t o : Q) (bs : list Block) :
  contiguous_from t bs ->
  contiguous_from (t + 240 + o) (map (shift_block o) bs).
Proof.
  revert t. induction bs as [|b bs IH]; simpl; intros t Hc; [exact I|].
  destruct Hc as [Hb Hc]. split; [lra|].
  apply contiguous_from_eq with (t := start b + duration b + 240 + o); [lra|].
  apply IH. exact Hc.
Qed.

Lemma contiguous_from_contiguous (t : Q) (bs : list Block) :
  contiguous_from t bs -> contiguous bs.
Proof.
  revert t. induction bs as [|a bs IH]; intros t Hc i b b' Hi Hi'.
  - destruct i; discriminate.
  - destruct Hc as [_ Hc]. destruct i as [|i].
    + simpl in Hi, Hi'. injection Hi as <-.
      destruct bs as [|a' bs']; [discriminate|].
      simpl in Hi'. injection Hi' as <-. destruct Hc as [Hc _]. lra.
    + simpl in Hi. change (nth_error bs (S i) = Some b') in Hi'.
      exact (IH _ Hc i b b' Hi Hi').
Qed.

(** ** The accounting invariant of the block engine *)

Lemma accounting_push_sleep (s : Stage) (d : Q) (st : LoopState) :
  s <> WAKE -> accounting st -> accounting (push_sleep s d st).
Proof.
  intros Hs (Hc & Ht & Ha). unfold accounting, push_sleep. simpl.
  repeat split.
  - apply contiguous_from_snoc; [exact Hc | simpl; lra].
  - rewrite sum_durations_snoc. simpl. lra.
  - rewrite sleep_blocks_app, sum_durations_app.
    unfold sleep_blocks at 2. simpl.
    destruct s; try congruence; unfold sum_durations at 2; simpl; lra.
Qed.

Lemma accounting_push_wake_chunk (d : Q) (st : LoopState) :
  accounting st -> accounting (push_wake_chunk d st).
Proof.
  intros (Hc & Ht & Ha). unfold accounting, push_wake_chunk. simpl.
  repeat split.
  - apply contiguous_from_snoc; [exact Hc | simpl; lra].
  - rewrite sum_durations_snoc. simpl. lra.
  - rewrite sleep_blocks_app, sum_durations_app.
    unfold sleep_blocks at 2. simpl. unfold sum_durations at 2. simpl. lra.
Qed.

Lemma accounting_inject_wake (n : nat) (indices : list Z) (d : Q) (st : LoopState) :
  accounting st -> accounting (inject_wake n indices d st).
Proof.
  revert st. induction n as [|n IH]; simpl; intros st H; [exact H|].
  destruct (nth_error indices (wakeChunkIndex st)) as [i|]; [|exact H].
  destruct (i =? cycleIndex st)%Z; [|exact H].
  apply IH. now apply accounting_push_wake_chunk.
Qed.

Lemma accounting_next_cycle (st : LoopState) :
  accounting st -> accounting (next_cycle st).
Proof. intro H. exact H. Qed.

Lemma accounting_cycle_body (c : Config) (p : Profile) (indices : list Z)
    (st : LoopState) :
  accounting st -> accounting (cycle_body c p indices st).
Proof.
  intro H. unfold cycle_body.
  destruct (localFractions c p (cycleIndex st)) as [[localN3 localREM] localN2].
  apply accounting_next_cycle, accounting_inject_wake.
  repeat match goal with
  | |- accounting (if ?b then _ else _) => destruct b
  | |- accounting (push_sleep _ _ _) => apply accounting_push_sleep; [discriminate|]
  end; exact H.
Qed.

Lemma accounting_cycle_loop (fuel : nat) (c : Config) (p : Profile)
    (indices : list Z) (st st' : LoopState) :
  accounting st -> cycle_loop fuel c p indices st = Some st' -> accounting st'.
Proof.
  revert st. induction fuel as [|fuel IH]; simpl; intros st H E.
  - destruct (accumulatedSleep st <? tst p); [discriminate|].
    injection E as <-. exact H.
  - destruct (accumulatedSleep st <? tst p).
    + apply (IH _ (accounting_cycle_body c p indices st H) E).
    + injection E as <-. exact H.
Qed.

Lemma accounting_initial_state (Math_pow : Q -> Q -> Q) (c : Config) :
  accounting (initial_state Math_pow c).
Proof.
  unfold accounting, initial_state, sleep_blocks, sum_durations. simpl.
  repeat split; lra.
Qed.

(** ** The sample power function *)

Lemma pow_sample_half_unit : pow_half_unit pow_sample.
Proof.
  intros x Hx. unfold pow_sample.
  pose proof (Qfloor_le x) as Hfl. pose proof (Qlt_floor x) as Hfu.
  assert (Hn : (0 <= Qfloor x)%Z).
  { change 0%Z with (Qfloor 0). now apply Qfloor_resp_le. }
  rewrite inject_Z_plus in Hfu. change (inject_Z 1) with 1 in Hfu.
  assert (Hp : 0 < 0.5 ^ Qfloor x <= 1).
  { split; [apply Qpower_0_lt; lra|].
    assert (H2 : 1 <= 2 ^ Qfloor x) by (apply Qpower_1_le; [lra | exact Hn]).
    assert (E : 0.5 ^ Qfloor x == / (2 ^ Qfloor x)).
    { rewrite <- Qinv_power. apply Qpower_comp; reflexivity. }
    rewrite E. apply Qle_shift_inv_r; lra. }
  set (w := 0.5 ^ Qfloor x) in *. clearbody w.
  set (f := inject_Z (Qfloor x)) in *. clearbody f.
  split; nra.
Qed.

(** ** Bounds of the age profile *)

Lemma getAgeProfile_fields (a : Q) :
  tst (getAgeProfile a) = interpolate a tstKeyframes /\
  n3P (getAgeProfile a) = interpolate a n3Keyframes /\
  remP (getAgeProfile a) = interpolate a remKeyframes /\
  n1P (getAgeProfile a) = interpolate a n1Keyframes /\
  wasoMins (getAgeProfile a) = interpolate a wasoKeyframes /\
  n2P (getAgeProfile a) =
    1.0 - (interpolate a n3Keyframes + interpolate a remKeyframes
           + interpolate a n1Keyframes).
Proof.
  unfold getAgeProfile, safety_normalization.
  pose proof (n3_profile_bounds a). pose proof (rem_profile_bounds a).
  pose proof (n1_profile_bounds a).
  destruct (Qltb_spec
    (1.0 - (interpolate a n3Keyframes + interpolate a remKeyframes
            + interpolate a n1Keyframes)) 0); [lra|].
  simpl. repeat split; reflexivity.
Qed.

Lemma getAgeProfile_ok (a : Q) :
  targets_ok (getAgeProfile a) /\ 300 <= tst (getAgeProfile a).
Proof.
  destruct (getAgeProfile_fields a) as (Et & E3 & Er & E1 & Ew & _).
  unfold targets_ok. rewrite Et, E3, Er, E1, Ew.
  pose proof (tst_profile_bounds a). pose proof (n3_profile_bounds a).
  pose proof (rem_profile_bounds a). pose proof (n1_profile_bounds a).
  pose proof (waso_profile_bounds a).
  repeat split; lra.
Qed.

(** ** The modifiers keep the targets in range *)

Section Targets.

Variable Math_pow : Q -> Q -> Q.

Ltac targets_step :=
  intros (H3 & Hr & H1 & Hw & Ht); unfold targets_ok; cbv zeta;
  qcases; simpl; try (repeat split; lra);
  qminmax; repeat split; nra.

Lemma blueLight_model_ok (c : Config) (p : Profile) :
  targets_ok p -> targets_ok (blueLight_model c p).
Proof. unfold blueLight_model. destruct (blueLight c); targets_step. Qed.

Lemma caffeine_model_ok (c : Config) (p : Profile) :
  targets_ok p -> targets_ok (caffeine_model Math_pow c p).
Proof. unfold caffeine_model. targets_step. Qed.

Lemma alcohol_model_ok (c : Config) (p : Profile) :
  targets_ok p -> targets_ok (alcohol_model c p).
Proof. unfold alcohol_model. targets_step. Qed.

Lemma socialJetLag_model_ok (c : Config) (p : Profile) :
  targets_ok p -> targets_ok (socialJetLag_model c p).
Proof. unfold socialJetLag_model. destruct (socialJetLag c); targets_step. Qed.

Lemma gender_model_ok (c : Config) (p : Profile) :
  targets_ok p -> targets_ok (gender_model c p).
Proof. unfold gender_model. destruct (gender c); targets_step. Qed.

Lemma menopause_model_ok (c : Config) (p : Profile) :
  targets_ok p -> targets_ok (menopause_model c p).
Proof. unfold menopause_model. destruct (isMenopausal c); targets_step. Qed.

Lemma sdb_model_ok (c : Config) (p : Profile) :
  sdbSeverity c <= 10 -> targets_ok p -> targets_ok (sdb_model c p).
Proof.
  intro Hs. unfold sdb_model. cbv zeta.
  qdiv (sdbSeverity c) 10. targets_step.
Qed.

Lemma nocturia_model_ok (c : Config) (p : Profile) :
  targets_ok p -> targets_ok (nocturia_model c p).
Proof. unfold nocturia_model. targets_step. Qed.

Lemma recalculate_n2_ok (p : Profile) :
  targets_ok p -> targets_ok (recalculate_n2 p).
Proof.
  intros (H3 & Hr & H1 & Hw & Ht). unfold recalculate_n2, targets_ok.
  cbv zeta. destruct (Qltb_spec 0.95 (n3P p + remP p + n1P p)); simpl.
  - qdiv 0.95 (n3P p + remP p + n1P p).
    assert (0 < q < 1) by (split; nra).
    repeat split; nra.
  - repeat split; lra.
Qed.

Lemma targets_before_sdb_ok (c : Config) : targets_ok (targets_before_sdb Math_pow c).
Proof.
  unfold targets_before_sdb.
  apply menopause_model_ok, gender_model_ok, socialJetLag_model_ok,
    alcohol_model_ok, caffeine_model_ok, blueLight_model_ok, getAgeProfile_ok.
Qed.

Lemma adjustedTargets_ok (c : Config) :
  sdbSeverity c <= 10 -> targets_ok (adjustedTargets Math_pow c).
Proof.
  intro Hs. unfold adjustedTargets.
  apply recalculate_n2_ok, nocturia_model_ok, sdb_model_ok;
    [exact Hs | apply targets_before_sdb_ok].
Qed.

(** The modifiers never read [sdbSeverity] before the SDB step. *)
Lemma targets_before_sdb_set (c : Config) (s : Q) :
  targets_before_sdb Math_pow (set_sdbSeverity c s) = targets_before_sdb Math_pow c.
Proof. unfold targets_before_sdb. reflexivity. Qed.

(** *** The active caffeine, the latency and the initial N1 *)

Lemma halfLife_pos (c : Config) : 0 < halfLife c.
Proof. unfold halfLife. destruct (caffeineMetabolism c); lra. Qed.

Lemma activeCaffeine_range (c : Config) :
  pow_half_unit Math_pow -> valid_config c ->
  0 <= activeCaffeine Math_pow c <= 10.
Proof.
  intros Hp (_ & _ & Hc & Ht & _). unfold activeCaffeine.
  pose proof (halfLife_pos c) as Hh.
  assert (Hx : 0 <= caffeineTime c / halfLife c)
    by (apply Qle_shift_div_l; lra).
  specialize (Hp _ Hx).
  set (w := Math_pow 0.5 (caffeineTime c / halfLife c)) in *. clearbody w.
  split; nra.
Qed.

Lemma latency_lower (c : Config) :
  0 <= activeCaffeine Math_pow c -> 5 <= latency Math_pow c.
Proof.
  intro Ha. unfold latency, blueLightLatency. cbv zeta.
  destruct (blueLight c), (isMenopausal c); qcases; qminmax; lra.
Qed.

Lemma initialN1_range (c : Config) :
  0 <= activeCaffeine Math_pow c <= 10 ->
  5 <= initialN1 Math_pow c <= 10 + 5 * activeCaffeine Math_pow c.
Proof. intro Ha. unfold initialN1. qcases; lra. Qed.

Lemma numWakeChunks_pos (w : Q) : 1 <= inject_Z (numWakeChunks w).
Proof.
  unfold numWakeChunks. change 1 with (inject_Z 1).
  rewrite <- Zle_Qle. lia.
Qed.

Lemma wakeChunkDuration_pos (w : Q) : 0 < w -> 0 < wakeChunkDuration w.
Proof.
  intro Hw. unfold wakeChunkDuration.
  pose proof (numWakeChunks_pos w).
  apply Qlt_shift_div_l; lra.
Qed.

(** *** A lower bound of the adjusted total-sleep target *)

Lemma tst_recalculate_n2 (p : Profile) : tst (recalculate_n2 p) = tst p.
Proof.
  unfold recalculate_n2. cbv zeta.
  destruct (0.95 <? n3P p + remP p + n1P p); reflexivity.
Qed.

Lemma tst_blueLight_model (c : Config) (p : Profile) :
  tst p - 30 <= tst (blueLight_model c p).
Proof. unfold blueLight_model. destruct (blueLight c); simpl; lra. Qed.

Lemma tst_caffeine_model (c : Config) (p : Profile) :
  0 <= activeCaffeine Math_pow c ->
  tst p - 15 * activeCaffeine Math_pow c <= tst (caffeine_model Math_pow c p).
Proof. intro Ha. unfold caffeine_model. cbv zeta. qcases; simpl; lra. Qed.

Lemma tst_alcohol_model (c : Config) (p : Profile) :
  tst p <= tst (alcohol_model c p).
Proof. unfold alcohol_model. qcases; simpl; lra. Qed.

Lemma tst_socialJetLag_model (c : Config) (p : Profile) :
  tst p - 60 <= tst (socialJetLag_model c p).
Proof. unfold socialJetLag_model. destruct (socialJetLag c); simpl; lra. Qed.

Lemma tst_gender_model (c : Config) (p : Profile) :
  tst p <= tst (gender_model c p).
Proof. unfold gender_model. destruct (gender c); qcases; simpl; lra. Qed.

Lemma tst_menopause_model (c : Config) (p : Profile) :
  tst p <= tst (menopause_model c p).
Proof. unfold menopause_model. destruct (isMenopausal c); simpl; lra. Qed.

Lemma tst_adjusted_lower (c : Config) :
  0 <= activeCaffeine Math_pow c -> sdbSeverity c <= 10 ->
  150 - 15 * activeCaffeine Math_pow c <= tst (adjustedTargets Math_pow c).
Proof.
  intros Ha Hs. unfold adjustedTargets. rewrite tst_recalculate_n2.
  assert (E1 : tst (nocturia_model c (sdb_model c (targets_before_sdb Math_pow c)))
               = tst (sdb_model c (targets_before_sdb Math_pow c))).
  { unfold nocturia_model. destruct (0 <? nocturia c); reflexivity. }
  rewrite E1. clear E1.
  assert (E2 : tst (targets_before_sdb Math_pow c) - 60
               <= tst (sdb_model c (targets_before_sdb Math_pow c))).
  { unfold sdb_model. cbv zeta. qdiv (sdbSeverity c) 10. qcases; simpl; lra. }
  assert (E3 : 210 - 15 * activeCaffeine Math_pow c
               <= tst (targets_before_sdb Math_pow c)).
  { unfold targets_before_sdb.
    destruct (getAgeProfile_ok (age c)) as [_ H0].
    set (p0 := getAgeProfile (age c)) in *. clearbody p0.
    pose proof (tst_blueLight_model c p0).
    pose proof (tst_caffeine_model c (blueLight_model c p0) Ha).
    set (p1 := caffeine_model Math_pow c (blueLight_model c p0)) in *.
    pose proof (tst_alcohol_model c p1).
    pose proof (tst_socialJetLag_model c (alcohol_model c p1)).
    set (p2 := socialJetLag_model c (alcohol_model c p1)) in *.
    pose proof (tst_gender_model c p2).
    pose proof (tst_menopause_model c (gender_model c p2)).
    lra. }
  lra.
Qed.

End Targets.

(** ** One cycle of the block engine *)

Section Cycle.

Variable Math_pow : Q -> Q -> Q.
Variable c : Config.
Variable p : Profile.
Variable indices : list Z.

(** The normalization of the local fractions keeps their sum at 1, N2
    non-negative, and the signs of N3 and REM. *)
Lemma local_normalize_props (b s l3 lrem l2 : Q) :
  (if 1.0 - (b + s) <? 0
   then ((b / (b + s)) * 0.9, (s / (b + s)) * 0.9, 0.1)
   else (b, s, 1.0 - (b + s))) = (l3, lrem, l2) ->
  l3 + lrem + l2 == 1 /\ 0 <= l2 /\
  (b <= 0 -> l3 <= 0) /\
  (forall k, k <= 0 -> k <= b -> k <= l3) /\
  (0 < s -> 0 < lrem).
Proof.
  destruct (Qltb_spec (1.0 - (b + s)) 0) as [Hneg|Hpos]; intro E;
    injection E as <- <- <-.
  - assert (Ht : 1 < b + s) by lra.
    qdiv b (b + s). qdiv s (b + s).
    set (t := b + s) in *.
    assert (Et : t == b + s) by reflexivity. clearbody t.
    assert (Hsum : (q + q0) * t == t) by lra.
    assert (Hone : q + q0 == 1) by nra.
    repeat split; try nra.
    intros k Hk Hkb. nra.
  - repeat split; try lra. intros k Hk Hkb. lra.
Qed.

Lemma localFractions_props (ci : Z) (l3 lrem l2 : Q) :
  0 <= n3P p <= 0.25 -> (0 <= ci)%Z ->
  localFractions c p ci = (l3, lrem, l2) ->
  l3 + lrem + l2 == 1 /\ 0 <= l2 /\
  ((7 <= ci)%Z -> l3 <= 0) /\
  ((ci <= 17)%Z -> - (0.775) <= l3) /\
  (0 < remP p -> 0 < lrem).
Proof.
  intros Hn3 Hci. unfold localFractions. cbv zeta.
  assert (Hx : 0 <= inject_Z ci)
    by (change 0 with (inject_Z 0); rewrite <- Zle_Qle; exact Hci).
  assert (Hx7 : (7 <= ci)%Z -> 7 <= inject_Z ci)
    by (intro; change 7 with (inject_Z 7); rewrite <- Zle_Qle; assumption).
  assert (Hx17 : (ci <= 17)%Z -> inject_Z ci <= 17)
    by (intro; change 17 with (inject_Z 17); rewrite <- Zle_Qle; assumption).
  set (x := inject_Z ci) in *. clearbody x.
  set (a := n3P p * (1 - x * 0.15) * 2.0).
  set (r := remP p * (0.5 + x * 0.20 * 1.5)).
  assert (Ha7 : 7 <= x -> a <= 0) by (unfold a; nra).
  assert (Ha17 : x <= 17 -> - (0.775) <= a) by (unfold a; nra).
  assert (Ha2 : x < 2 -> 0 <= a) by (unfold a; nra).
  assert (Hr : 0 < remP p -> 0 < r) by (unfold r; nra).
  clearbody a r.
  destruct (Qltb_spec 0 (alcohol c)) as [Halc|Halc];
    [destruct (Qltb_spec x 2) as [Hx2|Hx2]|]; cbv beta iota; intro E;
    apply local_normalize_props in E;
    destruct E as (E1 & E2 & E3 & E4 & E5);
    (split; [exact E1|]); (split; [exact E2|]).
  - repeat split.
    + intro H7. specialize (Hx7 H7). lra.
    + intros _. apply E4; [lra|]. specialize (Ha2 Hx2). nra.
    + intro Hp. apply E5. specialize (Hr Hp). qminmax; nra.
  - repeat split.
    + intro H7. apply E3. specialize (Ha7 (Hx7 H7)). lra.
    + intro H17. apply E4; [lra|]. specialize (Ha17 (Hx17 H17)).
      destruct (Qlt_le_dec a 0); lra.
    + intro Hp. apply E5. specialize (Hr Hp). nra.
  - repeat split.
    + intro H7. apply E3, Ha7, Hx7, H7.
    + intro H17. apply E4; [lra|]. apply Ha17, Hx17, H17.
    + intro Hp. apply E5, Hr, Hp.
Qed.

Lemma transN1_range : 2 <= transN1 c <= 4.
Proof. unfold transN1. qcases; lra. Qed.

(** *** What the inner loop leaves alone *)

Lemma inject_wake_accumulatedSleep (n : nat) (d : Q) (st : LoopState) :
  accumulatedSleep (inject_wake n indices d st) = accumulatedSleep st.
Proof.
  revert st. induction n as [|n IH]; simpl; intro st; [reflexivity|].
  destruct (nth_error indices (wakeChunkIndex st)) as [i|]; [|reflexivity].
  destruct (i =? cycleIndex st)%Z; [|reflexivity].
  rewrite IH. reflexivity.
Qed.

Lemma inject_wake_cycleIndex (n : nat) (d : Q) (st : LoopState) :
  cycleIndex (inject_wake n indices d st) = cycleIndex st.
Proof.
  revert st. induction n as [|n IH]; simpl; intro st; [reflexivity|].
  destruct (nth_error indices (wakeChunkIndex st)) as [i|]; [|reflexivity].
  destruct (i =? cycleIndex st)%Z; [|reflexivity].
  rewrite IH. reflexivity.
Qed.

Lemma inject_wake_currentTime (n : nat) (d : Q) (st : LoopState) :
  0 <= d -> currentTime st <= currentTime (inject_wake n indices d st).
Proof.
  intro Hd. revert st. induction n as [|n IH]; simpl; intro st; [lra|].
  destruct (nth_error indices (wakeChunkIndex st)) as [i|]; [|lra].
  destruct (i =? cycleIndex st)%Z; [|lra].
  specialize (IH (push_wake_chunk d st)). simpl in IH. lra.
Qed.

(** The time awake, [currentTime - accumulatedSleep], never shrinks in a
    cycle when the wake chunks are not negative. *)
Lemma cycle_body_awake (st : LoopState) :
  0 <= wakeChunkDuration (wasoMins p) ->
  currentTime st - accumulatedSleep st <=
  currentTime (cycle_body c p indices st)
  - accumulatedSleep (cycle_body c p indices st).
Proof.
  intro Hd. unfold cycle_body.
  destruct (localFractions c p (cycleIndex st)) as [[l3 lrem] l2].
  unfold next_cycle. simpl.
  rewrite inject_wake_accumulatedSleep.
  match goal with
  | |- _ <= currentTime (inject_wake ?n indices ?d ?s) - _ =>
      pose proof (inject_wake_currentTime n d s Hd) as Hw;
      set (st1 := s) in *
  end.
  assert (E : currentTime st1 - accumulatedSleep st1
              == currentTime st - accumulatedSleep st).
  { unfold st1. qcases; simpl; lra. }
  lra.
Qed.

(** *** The sleep gained in a cycle *)

Lemma cycle_body_cycleIndex (st : LoopState) :
  cycleIndex (cycle_body c p indices st) = (cycleIndex st + 1)%Z.
Proof.
  unfold cycle_body.
  destruct (localFractions c p (cycleIndex st)) as [[l3 lrem] l2].
  unfold next_cycle. simpl. rewrite inject_wake_cycleIndex.
  qcases; reflexivity.
Qed.

Lemma cycle_body_progress (st : LoopState) :
  0 <= n3P p <= 0.25 -> (0 <= cycleIndex st)%Z ->
  accumulatedSleep st < tst p ->
  accumulatedSleep st < accumulatedSleep (cycle_body c p indices st) /\
  ((7 <= cycleIndex st)%Z ->
     tst p <= accumulatedSleep (cycle_body c p indices st) \/
     accumulatedSleep st + 90 <= accumulatedSleep (cycle_body c p indices st)) /\
  ((cycleIndex st <= 17)%Z ->
     accumulatedSleep (cycle_body c p indices st) < tst p + 90).
Proof.
  intros Hn3 Hci Hlt. unfold cycle_body.
  destruct (localFractions c p (cycleIndex st)) as [[l3 lrem] l2] eqn:E.
  apply (localFractions_props _ _ _ _ Hn3 Hci) in E.
  destruct E as (Hsum & Hl2 & H7 & H17 & _).
  unfold next_cycle. simpl. rewrite inject_wake_accumulatedSleep.
  pose proof transN1_range as Ht. unfold cycleLength.
  destruct (Qltb_spec 0.01 l3) as [Hbig|Hsmall];
    destruct (Qleb_spec (90 * 0.9) (Qmin 90 (tst p - accumulatedSleep st)))
      as [Hfull|Hpart]; simpl;
    set (acc := accumulatedSleep st) in *; clearbody acc;
    destruct (Qmin_cases 90 (tst p - acc)) as [[Hm Em]|[Hm Em]];
    set (ccs := Qmin 90 (tst p - acc)) in *; clearbody ccs;
    (assert (Hprod : ccs * l3 + ccs * lrem + ccs * l2 == ccs) by nra);
    (assert (H17' : (cycleIndex st <= 17)%Z -> - (0.775) * ccs <= ccs * l3)
       by (intro H; specialize (H17 H); nra));
    (assert (H7' : (7 <= cycleIndex st)%Z -> ccs * l3 <= 0)
       by (intro H; specialize (H7 H); nra));
    try (assert (Hsm : ccs * l3 <= 0.01 * ccs) by nra);
    set (x3 := ccs * l3) in *; set (xr := ccs * lrem) in *;
    set (x2 := ccs * l2) in *;
    (assert (E4 : ccs * (l2 * 0.4) == 0.4 * x2) by (unfold x2; ring));
    (assert (E6 : ccs * (l2 * 0.6) == 0.6 * x2) by (unfold x2; ring));
    rewrite ?E4, ?E6; clearbody x3 xr x2;
    (split; [lra|]); (split; [intro H; specialize (H7' H); lra|]);
    intro H; specialize (H17' H); lra.
Qed.

(** *** The loop *)

Lemma cycle_loop_fuel (n m : nat) (st a b : LoopState) :
  cycle_loop n c p indices st = Some a ->
  cycle_loop m c p indices st = Some b -> a = b.
Proof.
  revert m st. induction n as [|n IH]; intros m st; simpl.
  - destruct (accumulatedSleep st <? tst p) eqn:E; [discriminate|].
    intro Ha. destruct m; simpl; rewrite E; congruence.
  - destruct (accumulatedSleep st <? tst p) eqn:E.
    + destruct m; simpl; rewrite E; [discriminate|]. apply IH.
    + intro Ha. destruct m; simpl; rewrite E; congruence.
Qed.

(** With [0 <= n3P <= 0.25], a state whose missing sleep fits in the
    cycles left reaches the exit, at least at the target and less than a
    cycle over it. *)
Lemma cycle_loop_exit (n : nat) (st : LoopState) :
  0 <= n3P p <= 0.25 -> (0 <= cycleIndex st)%Z ->
  (cycleIndex st + Z.of_nat n = 18)%Z ->
  tst p - accumulatedSleep st
    <= 90 * inject_Z (Z.of_nat n - Z.max 0 (7 - cycleIndex st)) ->
  accumulatedSleep st < tst p + 90 ->
  exists st', cycle_loop n c p indices st = Some st' /\
    tst p <= accumulatedSleep st' /\ accumulatedSleep st' < tst p + 90.
Proof.
  intro Hn3. revert st. induction n as [|n IH]; intros st Hci Hsum Hrem Hover;
    simpl; destruct (Qltb_spec (accumulatedSleep st) (tst p)) as [Hlt|Hge];
    try (exists st; repeat split; [exact Hge | exact Hover]).
  - exfalso.
    assert (Hk : inject_Z (Z.of_nat 0 - Z.max 0 (7 - cycleIndex st)) <= 0)
      by (change 0 with (inject_Z 0); rewrite <- Zle_Qle; lia).
    lra.
  - destruct (cycle_body_progress st Hn3 Hci Hlt) as (Hinc & H7 & H17).
    pose proof (cycle_body_cycleIndex st) as Eci.
    apply IH.
    + lia.
    + lia.
    + rewrite Eci.
      destruct (Z_lt_le_dec (cycleIndex st) 7) as [Hs|Hb].
      * replace (Z.of_nat n - Z.max 0 (7 - (cycleIndex st + 1)))%Z
          with (Z.of_nat (S n) - Z.max 0 (7 - cycleIndex st))%Z by lia.
        lra.
      * replace (Z.of_nat (S n) - Z.max 0 (7 - cycleIndex st))%Z
          with (Z.of_nat n + 1)%Z in Hrem by lia.
        replace (Z.of_nat n - Z.max 0 (7 - (cycleIndex st + 1)))%Z
          with (Z.of_nat n) by lia.
        rewrite inject_Z_plus in Hrem. change (inject_Z 1) with 1 in Hrem.
        assert (Hn : 0 <= inject_Z (Z.of_nat n))
          by (change 0 with (inject_Z 0); rewrite <- Zle_Qle; lia).
        destruct (H7 Hb); lra.
    + apply H17. lia.
Qed.

End Cycle.

(** ** From the head of the loop to the result *)

Section Run.

Variable Math_pow : Q -> Q -> Q.

Lemma cycle_loop_awake (fuel : nat) (c : Config) (p : Profile)
    (indices : list Z) (st st' : LoopState) :
  0 <= wakeChunkDuration (wasoMins p) ->
  cycle_loop fuel c p indices st = Some st' ->
  currentTime st - accumulatedSleep st <=
  currentTime st' - accumulatedSleep st'.
Proof.
  intro Hd. revert st. induction fuel as [|fuel IH]; simpl; intros st E;
    destruct (accumulatedSleep st <? tst p); try discriminate;
    try (injection E as <-; lra).
  pose proof (cycle_body_awake c p indices st Hd).
  specialize (IH _ E). lra.
Qed.

Lemma cycle_loop_sleep (fuel : nat) (c : Config) (p : Profile)
    (indices : list Z) (st st' : LoopState) :
  0 <= n3P p <= 0.25 -> (0 <= cycleIndex st)%Z ->
  cycle_loop fuel c p indices st = Some st' ->
  accumulatedSleep st <= accumulatedSleep st'.
Proof.
  intro Hn3. revert st. induction fuel as [|fuel IH]; simpl; intros st Hci E;
    destruct (Qltb_spec (accumulatedSleep st) (tst p)) as [Hlt|Hge];
    try discriminate; try (injection E as <-; lra).
  destruct (cycle_body_progress c p indices st Hn3 Hci Hlt) as (Hinc & _).
  assert (Hci' : (0 <= cycleIndex (cycle_body c p indices st))%Z)
    by (rewrite cycle_body_cycleIndex; lia).
  specialize (IH _ Hci' E). lra.
Qed.

(** The blocks pushed before a cycle stay in place. *)
Lemma inject_wake_blocks (n : nat) (indices : list Z) (d : Q) (st : LoopState) :
  exists l, blocks (inject_wake n indices d st) = blocks st ++ l.
Proof.
  revert st. induction n as [|n IH]; simpl; intro st.
  - exists []. now rewrite app_nil_r.
  - destruct (nth_error indices (wakeChunkIndex st)) as [i|];
      [|exists []; now rewrite app_nil_r].
    destruct (i =? cycleIndex st)%Z; [|exists []; now rewrite app_nil_r].
    destruct (IH (push_wake_chunk d st)) as [l ->]. simpl.
    rewrite <- app_assoc. eexists. reflexivity.
Qed.

Lemma cycle_body_blocks (c : Config) (p : Profile) (indices : list Z)
    (st : LoopState) :
  exists l, blocks (cycle_body c p indices st) = blocks st ++ l.
Proof.
  unfold cycle_body.
  destruct (localFractions c p (cycleIndex st)) as [[l3 lrem] l2].
  unfold next_cycle. simpl.
  match goal with
  | |- exists l, blocks (inject_wake ?n ?i ?d ?s) = _ =>
      destruct (inject_wake_blocks n i d s) as [l ->]
  end.
  qcases; simpl; rewrite <- ?app_assoc; eexists; reflexivity.
Qed.

Lemma cycle_loop_blocks (fuel : nat) (c : Config) (p : Profile)
    (indices : list Z) (st st' : LoopState) :
  cycle_loop fuel c p indices st = Some st' ->
  exists l, blocks st' = blocks st ++ l.
Proof.
  revert st. induction fuel as [|fuel IH]; simpl; intros st E;
    destruct (accumulatedSleep st <? tst p); try discriminate;
    try (injection E as <-; exists []; now rewrite app_nil_r).
  destruct (IH _ E) as [l ->].
  destruct (cycle_body_blocks c p indices st) as [l' ->].
  rewrite <- app_assoc. eexists. reflexivity.
Qed.

Lemma run_cycles_accounting (fuel : nat) (rnd : nat -> Q) (c : Config)
    (st : LoopState) :
  run_cycles Math_pow fuel rnd c = Some st -> accounting st.
Proof.
  unfold run_cycles. apply accounting_cycle_loop, accounting_initial_state.
Qed.


Lemma adjusted_n3P_range (c : Config) :
  valid_config c -> 0 <= n3P (adjustedTargets Math_pow c) <= 0.25.
Proof.
  intros (_ & _ & _ & _ & [_ Hs] & _).
  destruct (adjustedTargets_ok Math_pow c Hs) as (H3 & _). lra.
Qed.

(** Every configuration in the documented ranges leaves the loop within
    [enough_fuel] cycles, with the accumulated sleep at least at the
    target and less than a cycle over it. *)
Lemma run_cycles_exit (rnd : nat -> Q) (c : Config) :
  pow_half_unit Math_pow -> valid_config c ->
  exists st, run_cycles Math_pow enough_fuel rnd c = Some st /\
    tst (adjustedTargets Math_pow c) <= accumulatedSleep st /\
    accumulatedSleep st < tst (adjustedTargets Math_pow c) + 90.
Proof.
  intros Hp Hv. unfold run_cycles, enough_fuel.
  pose proof (activeCaffeine_range Math_pow c Hp Hv) as Ha.
  pose proof (initialN1_range Math_pow c Ha) as Hi.
  assert (Hs : sdbSeverity c <= 10) by (destruct Hv as (_ & _ & _ & _ & [_ H] & _); exact H).
  destruct (adjustedTargets_ok Math_pow c Hs) as (_ & _ & _ & _ & Ht).
  pose proof (tst_adjusted_lower Math_pow c (proj1 Ha) Hs) as Hl.
  apply cycle_loop_exit.
  - apply adjusted_n3P_range, Hv.
  - simpl. lia.
  - simpl. lia.
  - simpl. unfold inject_Z. lra.
  - simpl. lra.
Qed.

(** Time awake and time asleep at the exit. *)
Lemma run_cycles_awake (fuel : nat) (rnd : nat -> Q) (c : Config)
    (st : LoopState) :
  pow_half_unit Math_pow -> valid_config c ->
  run_cycles Math_pow fuel rnd c = Some st ->
  5 <= accumulatedSleep st /\ accumulatedSleep st + 5 <= currentTime st.
Proof.
  intros Hp Hv E. unfold run_cycles in E.
  pose proof (activeCaffeine_range Math_pow c Hp Hv) as Ha.
  pose proof (initialN1_range Math_pow c Ha) as Hi.
  pose proof (latency_lower Math_pow c (proj1 Ha)) as Hl.
  assert (Hs : sdbSeverity c <= 10) by (destruct Hv as (_ & _ & _ & _ & [_ H] & _); exact H).
  destruct (adjustedTargets_ok Math_pow c Hs) as (_ & _ & _ & Hw & _).
  assert (Hd : 0 <= wakeChunkDuration (wasoMins (adjustedTargets Math_pow c)))
    by (apply Qlt_le_weak, wakeChunkDuration_pos; lra).
  pose proof (cycle_loop_awake _ _ _ _ _ _ Hd E) as H1.
  assert (Hci : (0 <= cycleIndex (initial_state Math_pow c))%Z) by (simpl; lia).
  pose proof (cycle_loop_sleep _ _ _ _ _ _ (adjusted_n3P_range c Hv) Hci E) as H2.
  simpl in H1, H2. split; lra.
Qed.

(** The fields of the result, from the state at the exit. *)
Lemma generate_inv (fuel : nat) (rnd : nat -> Q) (c : Config)
    (r : SimulationResult.t) :
  generate Math_pow fuel rnd c = Some r ->
  exists st, run_cycles Math_pow fuel rnd c = Some st /\
             r = finish Math_pow rnd c st.
Proof.
  unfold generate. destruct (run_cycles Math_pow fuel rnd c) as [st|];
    [|discriminate].
  intro E. injection E as <-. exists st. split; reflexivity.
Qed.

Lemma generate_returns (rnd : nat -> Q) (c : Config) :
  pow_half_unit Math_pow -> valid_config c ->
  exists r, generate Math_pow enough_fuel rnd c = Some r.
Proof.
  intros Hp Hv. destruct (run_cycles_exit rnd c Hp Hv) as (st & E & _).
  unfold generate. rewrite E. eexists. reflexivity.
Qed.

End Run.

(** ** The SDB severity in the adjusted targets *)

Section Severity.

Variable Math_pow : Q -> Q -> Q.

Lemma sdb_model_fields (c : Config) (p : Profile) (s : Q) :
  0 <= s ->
  n3P (sdb_model (set_sdbSeverity c s) p) == n3P p * (1 - 0.075 * s) /\
  remP (sdb_model (set_sdbSeverity c s) p) == remP p * (1 - 0.03 * s) /\
  n1P (sdb_model (set_sdbSeverity c s) p) == n1P p + 0.015 * s /\
  wasoMins (sdb_model (set_sdbSeverity c s) p) == wasoMins p + 8 * s.
Proof.
  intro Hs. unfold sdb_model. cbv zeta. simpl sdbSeverity.
  assert (Eq : s / 10 == s * 0.1) by field.
  destruct (Qltb_spec 0 s) as [Hpos|Hneg]; simpl.
  - rewrite Eq. repeat split; ring.
  - assert (Es : s == 0) by lra. rewrite Es. repeat split; ring.
Qed.

Lemma nocturia_model_fields (c : Config) (p : Profile) :
  n3P (nocturia_model c p) = n3P p /\
  remP (nocturia_model c p) = remP p /\
  n1P (nocturia_model c p) = n1P p /\
  wasoMins (nocturia_model c p) ==
    wasoMins p + (if nocturia c >? 0 then nocturia c * 10 else 0).
Proof.
  unfold nocturia_model. destruct (0 <? nocturia c); simpl;
    repeat split; lra.
Qed.

Lemma wasoMins_recalculate_n2 (p : Profile) :
  wasoMins (recalculate_n2 p) = wasoMins p.
Proof.
  unfold recalculate_n2. cbv zeta.
  destruct (0.95 <? n3P p + remP p + n1P p); reflexivity.
Qed.

(** The rescale under the 0.95 ceiling keeps a strict order of the N3
    fractions when the smaller one comes with no less REM and N1. *)
Lemma recalculate_n2_n3P_lt (p1 p2 : Profile) :
  0 < n3P p2 -> n3P p2 < n3P p1 ->
  0 < remP p1 + n1P p1 ->
  remP p1 + n1P p1 <= remP p2 + n1P p2 ->
  n3P (recalculate_n2 p2) < n3P (recalculate_n2 p1).
Proof.
  intros Hpos Hlt Hm Hle. unfold recalculate_n2. cbv zeta.
  set (a1 := n3P p1) in *. set (a2 := n3P p2) in *.
  assert (Hx : a2 * (remP p1 + n1P p1) < a1 * (remP p2 + n1P p2)) by nra.
  assert (E1 : a1 + remP p1 + n1P p1 == a1 + (remP p1 + n1P p1)) by ring.
  assert (E2 : a2 + remP p2 + n1P p2 == a2 + (remP p2 + n1P p2)) by ring.
  set (t1 := a1 + remP p1 + n1P p1) in *.
  set (t2 := a2 + remP p2 + n1P p2) in *.
  set (m1 := remP p1 + n1P p1) in *. set (m2 := remP p2 + n1P p2) in *.
  clearbody t1 t2 m1 m2 a1 a2.
  destruct (Qltb_spec 0.95 t2) as [H2|H2];
    destruct (Qltb_spec 0.95 t1) as [H1|H1]; simpl.
  - qdiv 0.95 t2. qdiv 0.95 t1.
    assert (Ht : 0 < t1 * t2) by nra.
    apply (Qmult_lt_r _ _ (t1 * t2) Ht).
    assert (Ea : a2 * q * (t1 * t2) == 0.95 * (a2 * t1)).
    { transitivity (a2 * t1 * (q * t2)); [ring|]. rewrite Hq. ring. }
    assert (Eb : a1 * q0 * (t1 * t2) == 0.95 * (a1 * t2)).
    { transitivity (a1 * t2 * (q0 * t1)); [ring|]. rewrite Hq0. ring. }
    rewrite Ea, Eb. nra.
  - qdiv 0.95 t2. assert (0 < q < 1) by (split; nra). nra.
  - qdiv 0.95 t1.
    apply (Qmult_lt_r _ _ t1); [lra|].
    assert (Eb : a1 * q * t1 == 0.95 * a1).
    { transitivity (a1 * (q * t1)); [ring|]. rewrite Hq. ring. }
    rewrite Eb. nra.
  - exact Hlt.
Qed.

Lemma adjustedTargets_sdb_monotone (c : Config) (s1 s2 : Q) :
  0 <= s1 -> s1 < s2 -> s2 <= 10 ->
  n3P (adjustedTargets Math_pow (set_sdbSeverity c s2))
    < n3P (adjustedTargets Math_pow (set_sdbSeverity c s1)) /\
  wasoMins (adjustedTargets Math_pow (set_sdbSeverity c s1))
    < wasoMins (adjustedTargets Math_pow (set_sdbSeverity c s2)).
Proof.
  intros H1 H12 H2. unfold adjustedTargets.
  rewrite !targets_before_sdb_set.
  destruct (targets_before_sdb_ok Math_pow c) as (Hn3 & Hrem & Hn1 & _).
  set (p := targets_before_sdb Math_pow c) in *. clearbody p.
  assert (H2' : 0 <= s2) by lra.
  destruct (sdb_model_fields c p s1 H1) as (A1 & R1 & N1' & W1).
  destruct (sdb_model_fields c p s2 H2') as (A2 & R2 & N2' & W2).
  destruct (nocturia_model_fields (set_sdbSeverity c s1)
              (sdb_model (set_sdbSeverity c s1) p)) as (B1 & S1 & M1 & V1).
  destruct (nocturia_model_fields (set_sdbSeverity c s2)
              (sdb_model (set_sdbSeverity c s2) p)) as (B2 & S2 & M2 & V2).
  simpl nocturia in V1, V2.
  split.
  - apply recalculate_n2_n3P_lt; rewrite ?B1, ?S1, ?M1, ?B2, ?S2, ?M2;
      rewrite ?A1, ?R1, ?N1', ?A2, ?R2, ?N2'; nra.
  - rewrite !wasoMins_recalculate_n2, V1, V2, W1, W2. lra.
Qed.

End Severity.

(** ** The model on concrete inputs *)

(** Age 28: the total-sleep target is 480 - (10/22) * 48 minutes, the
    WASO target 19 minutes. *)
Example tst_at_28 : interpolate 28 tstKeyframes == 5040 # 11.
Proof. vm_compute. reflexivity. Qed.

Example waso_at_28 : interpolate 28 wasoKeyframes == 19.
Proof. vm_compute. reflexivity. Qed.

(** A newborn: half of the sleep is REM and N2 fills the last fifth. *)
Example fractions_at_0 :
  n3P (getAgeProfile 0) == 0.25 /\ remP (getAgeProfile 0) == 0.5 /\
  n1P (getAgeProfile 0) == 0.05 /\ n2P (getAgeProfile 0) == 0.2.
Proof. repeat split; vm_compute; reflexivity. Qed.

(** Age 28, no modifier, every draw 0: five cycles, and the one wake
    chunk after the first of them. *)
Example stages_at_28 :
  option_map (fun r => map stage (SimulationResult.blocks r))
    (generate pow_sample enough_fuel random_low config_28)
  = Some [WAKE; N1;
          N2; N3; N2; REM; N1; WAKE;
          N2; N3; N2; REM; N1;
          N2; N3; N2; REM; N1;
          N2; N3; N2; REM; N1;
          N2; N3; N2; REM; N1].
Proof. vm_compute. reflexivity. Qed.

(** * The properties of the engine *)

Import SimulationResult.


Lemma valid_config_70 : valid_config config_70.
Proof. unfold valid_config. simpl. repeat split; lra. Qed.

Lemma valid_config_90 : valid_config config_90.
Proof. unfold valid_config. simpl. repeat split; lra. Qed.

(** C1. For every configuration in the documented ranges and every random
    source, [generate] returns a result in which the durations of all
    blocks add up to the time in bed ([stats.tib]), the durations of the
    blocks other than WAKE add up to the actual total sleep ([stats.tst]),
    and the actual total sleep is at most the time in bed. *)
Theorem generate_durations_accounting
    (Math_pow : Q -> Q -> Q) (rnd : nat -> Q) (c : Config) :
  pow_half_unit Math_pow -> valid_config c ->
  (exists r, generate Math_pow enough_fuel rnd c = Some r) /\
  forall (fuel : nat) (r : SimulationResult.t),
    generate Math_pow fuel rnd c = Some r ->
    sum_durations (blocks r) == Stats.tib (stats r) /\
    sum_durations (sleep_blocks (blocks r)) == Stats.tst (stats r) /\
    Stats.tst (stats r) <= Stats.tib (stats r).
Proof.
  intros Hp Hv. split; [now apply generate_returns|].
  intros fuel r E.
  destruct (generate_inv _ _ _ _ _ E) as (st & Er & ->). simpl.
  destruct (run_cycles_accounting _ _ _ _ _ Er) as (_ & Ht & Ha).
  destruct (run_cycles_awake _ _ _ _ _ Hp Hv Er) as (_ & Hw).
  rewrite sleep_blocks_shift, !sum_durations_shift, actualTST_sum.
  repeat split; lra.
Qed.

Lemma generate_durations_accounting_witness :
  exists r, generate pow_sample enough_fuel random_low config_70 = Some r /\
    sum_durations (blocks r) == Stats.tib (stats r) /\
    sum_durations (sleep_blocks (blocks r)) == Stats.tst (stats r) /\
    Stats.tst (stats r) <= Stats.tib (stats r).
Proof.
  destruct (generate_durations_accounting pow_sample random_low config_70
              pow_sample_half_unit valid_config_70) as [[r Er] H].
  exists r. split; [exact Er | exact (H _ _ Er)].
Defined.






(** C4. For every age in [[0, 100]], the four fractions of
    [getAgeProfile] are non-negative and add up to 1, with N2 the
    remainder [1 - (N3 + REM + N1)]; and whenever that remainder is
    negative, the safety normalization gives a strictly positive N2 and
    a total of 1. *)
Theorem getAgeProfile_fractions (a : Q) :
  0 <= a <= 100 ->
  (0 <= n3P (getAgeProfile a) /\ 0 <= remP (getAgeProfile a) /\
   0 <= n1P (getAgeProfile a) /\ 0 <= n2P (getAgeProfile a)) /\
  n3P (getAgeProfile a) + remP (getAgeProfile a) + n1P (getAgeProfile a)
    + n2P (getAgeProfile a) == 1 /\
  n2P (getAgeProfile a) ==
    1 - (n3P (getAgeProfile a) + remP (getAgeProfile a) + n1P (getAgeProfile a)) /\
  forall n3 rem n1 : Q,
    1 - (n3 + rem + n1) < 0 ->
    let '(n3', rem', n1', n2') := safety_normalization n3 rem n1 in
    0 < n2' /\ n3' + rem' + n1' + n2' == 1.
Proof.
  intros _.
  destruct (getAgeProfile_fields a) as (_ & E3 & Er & E1 & _ & E2).
  rewrite E3, Er, E1, E2.
  pose proof (n3_profile_bounds a). pose proof (rem_profile_bounds a).
  pose proof (n1_profile_bounds a).
  repeat split; try lra.
  intros n3 rem n1 Hneg. unfold safety_normalization.
  destruct (Qltb_spec (1.0 - (n3 + rem + n1)) 0) as [_|Hge]; [|lra].
  split; [lra|]. field. lra.
Qed.

Lemma getAgeProfile_fractions_witness :
  ((0 <= n3P (getAgeProfile 50) /\ 0 <= remP (getAgeProfile 50) /\
    0 <= n1P (getAgeProfile 50) /\ 0 <= n2P (getAgeProfile 50)) /\
   n3P (getAgeProfile 50) + remP (getAgeProfile 50) + n1P (getAgeProfile 50)
     + n2P (getAgeProfile 50) == 1) /\
  (let '(n3', rem', n1', n2') := safety_normalization 0.5 0.5 0.5 in
   0 < n2' /\ n3' + rem' + n1' + n2' == 1).
Proof.
  assert (Ha : 0 <= 50 <= 100) by (split; lra).
  destruct (getAgeProfile_fractions 50 Ha) as (H1 & H2 & _ & H4).
  split; [split; [exact H1 | exact H2]|].
  apply (H4 0.5 0.5 0.5). lra.
Defined.

(** C5. The partition of the WASO target is exact: [numWakeChunks] chunks
    of [wakeChunkDuration] each add up to [wasoMins].  But a chunk whose
    drawn index is not below the number of cycles that the loop really
    runs is never pushed: at age 28 with no modifier the target is 19
    minutes in one chunk, [estCycles] is 6, the loop runs 5 cycles, and a
    draw of 0.9 schedules the chunk at index 5; the result then has no
    WAKE block after the latency block. *)
Theorem waso_chunk_dropped :
  (forall w : Q, wakeChunkDuration w * inject_Z (numWakeChunks w) == w) /\
  estCycles (tst (adjustedTargets pow_sample config_28)) = 6%Z /\
  wakeInsertionIndices random_high (adjustedTargets pow_sample config_28) = [5%Z] /\
  exists r, generate pow_sample enough_fuel random_high config_28 = Some r /\
    Stats.wasoMins (stats r) == 19 /\
    wake_blocks (tl (blocks r)) = [] /\
    ~ sum_durations (wake_blocks (tl (blocks r))) == Stats.wasoMins (stats r).
Proof.
  split; [|split; [|split]].
  - intro w. unfold wakeChunkDuration.
    pose proof (numWakeChunks_pos w). field. lra.
  - vm_compute. reflexivity.
  - vm_compute. reflexivity.
  - assert (H : match generate pow_sample enough_fuel random_high config_28 with
                | Some r =>
                    Qeq_bool (Stats.wasoMins (stats r)) 19
                    && (length (wake_blocks (tl (blocks r))) =? 0)%nat
                | None => false
                end = true) by (vm_compute; reflexivity).
    destruct (generate pow_sample enough_fuel random_high config_28)
      as [r|]; [|discriminate].
    apply andb_prop in H. destruct H as [Hw Hb].
    apply Qeq_bool_iff in Hw. apply Nat.eqb_eq, length_zero_iff_nil in Hb.
    exists r. split; [reflexivity|].
    split; [exact Hw|]. split; [exact Hb|].
    rewrite Hb, Hw. unfold sum_durations. simpl. lra.
Qed.

Lemma valid_config_set_sdbSeverity (c : Config) (s : Q) :
  valid_config c -> 0 <= s <= 10 -> valid_config (set_sdbSeverity c s).
Proof.
  intros (Ha & Hal & Hc & Ht & _ & Hn) Hs. unfold valid_config. simpl.
  repeat split; lra.
Qed.

(** C6. With every other field fixed, for two severities
    [0 <= s1 < s2 <= 10] the [stats.n3P] of the result at [s2] is
    strictly below the one at [s1], and [stats.wasoMins] at [s2] is
    strictly above the one at [s1].  (With the other fields in the
    documented ranges both results exist.) *)
Theorem sdbSeverity_monotone
    (Math_pow : Q -> Q -> Q) (rnd1 rnd2 : nat -> Q) (c : Config) (s1 s2 : Q) :
  0 <= s1 -> s1 < s2 -> s2 <= 10 ->
  (pow_half_unit Math_pow -> valid_config c ->
   exists r1 r2,
     generate Math_pow enough_fuel rnd1 (set_sdbSeverity c s1) = Some r1 /\
     generate Math_pow enough_fuel rnd2 (set_sdbSeverity c s2) = Some r2) /\
  forall (fuel1 fuel2 : nat) (r1 r2 : SimulationResult.t),
    generate Math_pow fuel1 rnd1 (set_sdbSeverity c s1) = Some r1 ->
    generate Math_pow fuel2 rnd2 (set_sdbSeverity c s2) = Some r2 ->
    Stats.n3P (stats r2) < Stats.n3P (stats r1) /\
    Stats.wasoMins (stats r1) < Stats.wasoMins (stats r2).
Proof.
  intros H1 H12 H2. split.
  - intros Hp Hv.
    assert (V1 : 0 <= s1 <= 10) by (split; lra).
    assert (V2 : 0 <= s2 <= 10) by (split; lra).
    destruct (generate_returns Math_pow rnd1 _ Hp
                (valid_config_set_sdbSeverity c s1 Hv V1)) as [r1 E1].
    destruct (generate_returns Math_pow rnd2 _ Hp
                (valid_config_set_sdbSeverity c s2 Hv V2)) as [r2 E2].
    exists r1, r2. split; assumption.
  - intros fuel1 fuel2 r1 r2 E1 E2.
    destruct (generate_inv _ _ _ _ _ E1) as (st1 & _ & ->).
    destruct (generate_inv _ _ _ _ _ E2) as (st2 & _ & ->).
    simpl. now apply adjustedTargets_sdb_monotone.
Qed.

Lemma sdbSeverity_monotone_witness :
  exists r1 r2,
    generate pow_sample enough_fuel random_low (set_sdbSeverity config_70 2) = Some r1 /\
    generate pow_sample enough_fuel random_high (set_sdbSeverity config_70 7) = Some r2 /\
    Stats.n3P (stats r2) < Stats.n3P (stats r1) /\
    Stats.wasoMins (stats r1) < Stats.wasoMins (stats r2).
Proof.
  assert (G0 : 0 <= 2) by lra.
  assert (G1 : 2 < 7) by lra.
  assert (G2 : 7 <= 10) by lra.
  destruct (sdbSeverity_monotone pow_sample random_low random_high config_70
              2 7 G0 G1 G2) as [Hr H].
  destruct (Hr pow_sample_half_unit valid_config_70) as (r1 & r2 & E1 & E2).
  exists r1, r2. split; [exact E1|]. split; [exact E2|].
  exact (H _ _ _ _ E1 E2).
Defined.

(** C7. For every configuration in the documented ranges, [generate]
    returns a result whose time in bed is positive and whose sleep
    efficiency, [(actualTST / tib) * 100], lies in (0, 100]. *)
Theorem sleepEfficiency_range
    (Math_pow : Q -> Q -> Q) (rnd : nat -> Q) (c : Config) :
  pow_half_unit Math_pow -> valid_config c ->
  (exists r, generate Math_pow enough_fuel rnd c = Some r) /\
  forall (fuel : nat) (r : SimulationResult.t),
    generate Math_pow fuel rnd c = Some r ->
    0 < Stats.tib (stats r) /\
    0 < Stats.sleepEfficiency (stats r) <= 100.
Proof.
  intros Hp Hv. split; [now apply generate_returns|].
  intros fuel r E.
  destruct (generate_inv _ _ _ _ _ E) as (st & Er & ->). simpl.
  destruct (run_cycles_accounting _ _ _ _ _ Er) as (_ & _ & Ha).
  destruct (run_cycles_awake _ _ _ _ _ Hp Hv Er) as (Hs & Hw).
  pose proof (actualTST_sum (HypnogramGenerator.blocks st)) as Et.
  set (t := actualTST (HypnogramGenerator.blocks st)) in *. clearbody t.
  assert (Hb : 0 < currentTime st) by lra.
  split; [exact Hb|].
  qdiv t (currentTime st).
  assert (0 < q <= 1) by (split; nra).
  split; lra.
Qed.

Lemma sleepEfficiency_range_witness :
  exists r, generate pow_sample enough_fuel random_high config_90 = Some r /\
    0 < Stats.tib (stats r) /\
    0 < Stats.sleepEfficiency (stats r) <= 100.
Proof.
  destruct (sleepEfficiency_range pow_sample random_high config_90
              pow_sample_half_unit valid_config_90) as [[r Er] H].
  exists r. split; [exact Er | exact (H _ _ Er)].
Defined.

(** The loop in exact arithmetic.  With the numbers of the program read
    as rationals, for every configuration in the documented ranges and
    every random source the loop ends within [enough_fuel] = 18 cycles,
    every cycle strictly increases [accumulatedSleep], and the REM block
    of every cycle has a strictly positive duration.  The sums of the
    program are rounded, and there the strict increase is lost: see the
    section on the loop in double precision below. *)
Theorem generate_terminates
    (Math_pow : Q -> Q -> Q) (rnd : nat -> Q) (c : Config) :
  pow_half_unit Math_pow -> valid_config c ->
  (exists r, generate Math_pow enough_fuel rnd c = Some r) /\
  forall (indices : list Z) (st : LoopState),
    (0 <= cycleIndex st)%Z ->
    accumulatedSleep st < tst (adjustedTargets Math_pow c) ->
    accumulatedSleep st
      < accumulatedSleep (cycle_body c (adjustedTargets Math_pow c) indices st) /\
    forall localN3 localREM localN2 : Q,
      localFractions c (adjustedTargets Math_pow c) (cycleIndex st)
        = (localN3, localREM, localN2) ->
      0 < Qmin cycleLength
            (tst (adjustedTargets Math_pow c) - accumulatedSleep st) * localREM.
Proof.
  intros Hp Hv. split; [now apply generate_returns|].
  intros indices st Hci Hlt.
  pose proof (adjusted_n3P_range Math_pow c Hv) as Hn3.
  split; [apply (cycle_body_progress c _ indices st Hn3 Hci Hlt)|].
  intros l3 lrem l2 E.
  apply (localFractions_props _ _ _ _ _ _ Hn3 Hci) in E.
  destruct E as (_ & _ & _ & _ & Hrem).
  assert (Hs : sdbSeverity c <= 10)
    by (destruct Hv as (_ & _ & _ & _ & [_ H] & _); exact H).
  destruct (adjustedTargets_ok Math_pow c Hs) as (_ & [Hr _] & _).
  specialize (Hrem Hr). unfold cycleLength. qminmax; nra.
Qed.

Lemma triple_eta (x : Q * Q * Q) : x = (fst (fst x), snd (fst x), snd x).
Proof. destruct x as [[a b] d]. reflexivity. Qed.

Lemma generate_terminates_witness :
  (exists r, generate pow_sample enough_fuel random_high config_70 = Some r) /\
  accumulatedSleep (initial_state pow_sample config_70)
    < accumulatedSleep
        (cycle_body config_70 (adjustedTargets pow_sample config_70) []
           (initial_state pow_sample config_70)) /\
  0 < Qmin cycleLength
        (tst (adjustedTargets pow_sample config_70)
         - accumulatedSleep (initial_state pow_sample config_70))
      * snd (fst (localFractions config_70
                    (adjustedTargets pow_sample config_70)
                    (cycleIndex (initial_state pow_sample config_70)))).
Proof.
  destruct (generate_terminates pow_sample random_high config_70
              pow_sample_half_unit valid_config_70) as [Hr H].
  assert (Hci : (0 <= cycleIndex (initial_state pow_sample config_70))%Z)
    by (unfold initial_state, cycleIndex; lia).
  assert (Hlt : accumulatedSleep (initial_state pow_sample config_70)
                < tst (adjustedTargets pow_sample config_70))
    by (apply Qlt_alt; vm_compute; reflexivity).
  destruct (H [] (initial_state pow_sample config_70) Hci Hlt) as [Hinc Hrem].
  split; [exact Hr|]. split; [exact Hinc|].
  exact (Hrem _ _ _ (triple_eta _)).
Defined.

(** ** The loop in double precision *)

Section DoubleLoop.

Import PrimFloat.
Local Open Scope float_scope.








Section Age77.

Variable Math_pow : float -> float -> float.
Variable Math_random : nat -> float.
Hypothesis pow_zero : Math_pow 0.5 0 = 1.






End Age77.



End DoubleLoop.

Lemma wakeInsertionIndices_ext (rnd1 rnd2 : nat -> Q) (p : Profile) :
  (forall k : nat, (k < Z.to_nat (numWakeChunks (wasoMins p)))%nat ->
                   rnd1 k = rnd2 k) ->
  wakeInsertionIndices rnd1 p = wakeInsertionIndices rnd2 p.
Proof.
  intro H. unfold wakeInsertionIndices. f_equal.
  apply map_ext_in. intros k Hk. apply in_seq in Hk.
  rewrite (H k); [reflexivity | lia].
Qed.

(** C9. The micro-arousal overlay is a frame effect: two random sources
    that return the same values to the calls that place the wake chunks
    (the first [numWakeChunks] calls), whatever they return to the calls
    that place the wake events, give the same blocks, the same [params]
    (actual total sleep, time in bed) and the same [stats].  (In the
    documented ranges both results exist.) *)
Theorem microArousals_frame
    (Math_pow : Q -> Q -> Q) (rnd1 rnd2 : nat -> Q) (c : Config) :
  (forall k : nat,
     (k < Z.to_nat (numWakeChunks (wasoMins (adjustedTargets Math_pow c))))%nat ->
     rnd1 k = rnd2 k) ->
  (pow_half_unit Math_pow -> valid_config c ->
   exists r1 r2,
     generate Math_pow enough_fuel rnd1 c = Some r1 /\
     generate Math_pow enough_fuel rnd2 c = Some r2) /\
  forall (fuel1 fuel2 : nat) (r1 r2 : SimulationResult.t),
    generate Math_pow fuel1 rnd1 c = Some r1 ->
    generate Math_pow fuel2 rnd2 c = Some r2 ->
    blocks r1 = blocks r2 /\ params r1 = params r2 /\ stats r1 = stats r2.
Proof.
  intros Hk. split.
  - intros Hp Hv.
    destruct (generate_returns Math_pow rnd1 c Hp Hv) as [r1 E1].
    destruct (generate_returns Math_pow rnd2 c Hp Hv) as [r2 E2].
    exists r1, r2. split; assumption.
  - intros fuel1 fuel2 r1 r2 E1 E2.
    destruct (generate_inv _ _ _ _ _ E1) as (st1 & Er1 & ->).
    destruct (generate_inv _ _ _ _ _ E2) as (st2 & Er2 & ->).
    unfold run_cycles in Er1, Er2.
    rewrite (wakeInsertionIndices_ext rnd1 rnd2 _ Hk) in Er1.
    rewrite (cycle_loop_fuel _ _ _ _ _ _ _ _ Er1 Er2).
    repeat split; reflexivity.
Qed.

(** A random source that returns 0.9 to its first [n] calls and 0.1 to
    the later ones agrees with [random_high] on the first [n]. *)
Lemma random_high_prefix (n : nat) :
  forall k : nat, (k < n)%nat ->
    random_high k = (fun i => if (i <? n)%nat then 0.9 else 0.1) k.
Proof. intros k Hk. apply Nat.ltb_lt in Hk. simpl. rewrite Hk. reflexivity. Qed.

Lemma microArousals_frame_witness :
  exists r1 r2,
    generate pow_sample enough_fuel random_high config_70 = Some r1 /\
    generate pow_sample enough_fuel
      (fun i => if (i <? Z.to_nat (numWakeChunks
                       (wasoMins (adjustedTargets pow_sample config_70))))%nat
                then 0.9 else 0.1) config_70 = Some r2 /\
    blocks r1 = blocks r2 /\ params r1 = params r2 /\ stats r1 = stats r2.
Proof.
  destruct (microArousals_frame pow_sample random_high _ config_70
              (random_high_prefix _)) as [Hr H].
  destruct (Hr pow_sample_half_unit valid_config_70) as (r1 & r2 & E1 & E2).
  exists r1, r2. split; [exact E1|]. split; [exact E2|].
  exact (H _ _ _ _ E1 E2).
Defined.

(** C10. When the adjusted total-sleep target is at most the duration of
    the initial N1 block, the loop body never runs: [generate] returns
    exactly two blocks, the latency WAKE block and the initial N1 block,
    and no WAKE chunk of the WASO target, whatever that target is. *)
Theorem short_target_two_blocks
    (Math_pow : Q -> Q -> Q) (rnd : nat -> Q) (c : Config) (fuel : nat) :
  tst (adjustedTargets Math_pow c) <= initialN1 Math_pow c ->
  exists r, generate Math_pow fuel rnd c = Some r /\
    blocks r =
      [shift_block (startTimeOffset c) (mkBlock WAKE (latency Math_pow c) 0);
       shift_block (startTimeOffset c)
         (mkBlock N1 (initialN1 Math_pow c) (0 + latency Math_pow c))] /\
    wake_blocks (tl (blocks r)) = [].
Proof.
  intro H. unfold generate, run_cycles.
  assert (E : cycle_loop fuel c (adjustedTargets Math_pow c)
                (wakeInsertionIndices rnd (adjustedTargets Math_pow c))
                (initial_state Math_pow c)
              = Some (initial_state Math_pow c)).
  { destruct fuel; simpl;
      destruct (Qltb_spec (initialN1 Math_pow c) (tst (adjustedTargets Math_pow c)));
      try reflexivity; lra. }
  rewrite E. eexists. split; [reflexivity|]. simpl. split; reflexivity.
Qed.

Lemma short_target_two_blocks_witness :
  0 < wasoMins (adjustedTargets pow_sample config_90) /\
  exists r, generate pow_sample 0 random_low config_90 = Some r /\
    blocks r =
      [shift_block (startTimeOffset config_90)
         (mkBlock WAKE (latency pow_sample config_90) 0);
       shift_block (startTimeOffset config_90)
         (mkBlock N1 (initialN1 pow_sample config_90)
            (0 + latency pow_sample config_90))] /\
    wake_blocks (tl (blocks r)) = [].
Proof.
  split.
  - apply Qlt_alt. vm_compute. reflexivity.
  - apply (short_target_two_blocks pow_sample random_low config_90 0).
    apply Qle_bool_iff. vm_compute. reflexivity.
Defined.
(** * Further properties of the engine *)

(** ** The shape of a cycle *)

Section CycleShape.

Variable Math_pow : Q -> Q -> Q.
Variable c : Config.
Variable p : Profile.
Variable indices : list Z.

Lemma inject_wake_Forall (P : Block -> Prop) (n : nat) (d : Q) (st : LoopState) :
  (forall t : Q, P (mkBlock WAKE d t)) ->
  Forall P (HypnogramGenerator.blocks st) ->
  Forall P (HypnogramGenerator.blocks (inject_wake n indices d st)).
Proof.
  intro Hw. revert st. induction n as [|n IH]; simpl; intros st H; [exact H|].
  destruct (nth_error indices (wakeChunkIndex st)) as [i|]; [|exact H].
  destruct (i =? cycleIndex st)%Z; [|exact H].
  apply IH. simpl. apply Forall_app. split; [exact H|].
  constructor; [apply Hw | constructor].
Qed.

(** A cycle is a run of sleep blocks, which leave the wake pointer, the
    cycle index and the time awake alone, then the inner loop, then the
    increment. *)
Lemma cycle_body_shape (st : LoopState) :
  exists stX,
    cycle_body c p indices st
      = next_cycle (inject_wake (length indices) indices
                      (wakeChunkDuration (wasoMins p)) stX) /\
    wakeChunkIndex stX = wakeChunkIndex st /\
    cycleIndex stX = cycleIndex st /\
    currentTime stX - accumulatedSleep stX
      == currentTime st - accumulatedSleep st.
Proof.
  unfold cycle_body.
  destruct (localFractions c p (cycleIndex st)) as [[l3 lrem] l2].
  eexists. split; [reflexivity|].
  qcases; simpl; repeat split; lra.
Qed.

Lemma cycle_body_durations (st : LoopState) :
  0 <= n3P p <= 0.25 -> 0 < remP p ->
  0 < wakeChunkDuration (wasoMins p) ->
  (0 <= cycleIndex st)%Z -> accumulatedSleep st < tst p ->
  Forall duration_ok (HypnogramGenerator.blocks st) ->
  Forall duration_ok (HypnogramGenerator.blocks (cycle_body c p indices st)).
Proof.
  intros Hn3 Hrem Hd Hci Hlt H. unfold cycle_body.
  destruct (localFractions c p (cycleIndex st)) as [[l3 lrem] l2] eqn:E.
  apply (localFractions_props _ _ _ _ _ _ Hn3 Hci) in E.
  destruct E as (_ & Hl2 & _ & _ & Hlr). specialize (Hlr Hrem).
  pose proof (transN1_range c) as Ht.
  unfold next_cycle. simpl.
  apply inject_wake_Forall.
  { intro t. split; simpl; [lra | intros _; lra]. }
  unfold cycleLength.
  assert (Hccs : 0 < Qmin 90 (tst p - accumulatedSleep st))
    by (destruct (Qmin_cases 90 (tst p - accumulatedSleep st)) as [[? ->]|[? ->]]; lra).
  set (ccs := Qmin 90 (tst p - accumulatedSleep st)) in *. clearbody ccs.
  destruct (Qltb_spec 0.01 l3); destruct (Qleb_spec (90 * 0.9) ccs); simpl;
    repeat match goal with
    | |- Forall _ (_ ++ [_]) =>
        apply Forall_app; split; [|constructor; [|constructor]]
    end;
    try exact H;
    (split; simpl; [nra | intro Hs; try congruence; nra]).
Qed.

Lemma cycle_loop_durations (fuel : nat) (st st' : LoopState) :
  0 <= n3P p <= 0.25 -> 0 < remP p ->
  0 < wakeChunkDuration (wasoMins p) ->
  (0 <= cycleIndex st)%Z ->
  Forall duration_ok (HypnogramGenerator.blocks st) ->
  cycle_loop fuel c p indices st = Some st' ->
  Forall duration_ok (HypnogramGenerator.blocks st').
Proof.
  intros Hn3 Hrem Hd. revert st.
  induction fuel as [|fuel IH]; simpl; intros st Hci H E;
    destruct (Qltb_spec (accumulatedSleep st) (tst p)) as [Hlt|Hge];
    try discriminate; try (injection E as <-; exact H).
  apply (IH (cycle_body c p indices st)).
  - rewrite cycle_body_cycleIndex. lia.
  - now apply cycle_body_durations.
  - exact E.
Qed.

End CycleShape.

(** Contiguous blocks with no negative duration stay within the span
    from the first start to the sum of the durations. *)
Lemma contiguous_from_within (t : Q) (bs : list Block) :
  contiguous_from t bs -> Forall (fun b => 0 <= duration b) bs ->
  Forall (fun b => t <= start b /\
                   start b + duration b <= t + sum_durations bs) bs.
Proof.
  revert t. induction bs as [|a bs IH]; intros t Hc Hd; [constructor|].
  destruct Hc as [Ha Hc]. inversion Hd as [|? ? Hda Hdb]; subst.
  specialize (IH _ Hc Hdb).
  assert (Hs : 0 <= sum_durations bs).
  { clear -Hdb. induction Hdb as [|b l Hb Hl IHl];
      unfold sum_durations in *; simpl; lra. }
  constructor.
  - unfold sum_durations in *. simpl. lra.
  - eapply Forall_impl; [|exact IH]. intros b [H1 H2].
    unfold sum_durations in *. simpl. lra.
Qed.

Lemma Forall_duration_shift (P : Stage -> Q -> Prop) (o : Q) (bs : list Block) :
  Forall (fun b => P (stage b) (duration b)) bs ->
  Forall (fun b => P (stage b) (duration b)) (map (shift_block o) bs).
Proof.
  intro H. apply Forall_map. eapply Forall_impl; [|exact H].
  intros b Hb. exact Hb.
Qed.

(** ** The wake pointer *)

Lemma nth_error_skipn (A : Type) (l : list A) (k : nat) (x : A) :
  nth_error l k = Some x -> skipn k l = x :: skipn (S k) l.
Proof.
  revert k. induction l as [|a l IH]; intros [|k] H; try discriminate.
  - simpl in H. injection H as ->. reflexivity.
  - simpl in H. apply IH in H. exact H.
Qed.

Lemma firstn_S_nth (A : Type) (l : list A) (k : nat) (x : A) :
  nth_error l k = Some x -> firstn (S k) l = firstn k l ++ [x].
Proof.
  revert k. induction l as [|a l IH]; intros [|k] H; try discriminate.
  - simpl in H. injection H as ->. reflexivity.
  - simpl in H. apply IH in H. simpl in *. now rewrite H.
Qed.

Lemma skipn_all_nil (A : Type) (l : list A) (k : nat) :
  nth_error l k = None -> skipn k l = [].
Proof. intro H. apply skipn_all2. now apply nth_error_None. Qed.

Lemma StronglySorted_skipn (l : list Z) (k : nat) :
  StronglySorted Z.le l -> StronglySorted Z.le (skipn k l).
Proof.
  revert l. induction k as [|k IH]; intros l H; [exact H|].
  destruct l as [|a l]; [constructor|].
  simpl. apply IH. now inversion H.
Qed.

Lemma insert_sorted_In (x y : Z) (l : list Z) :
  In y (insert_sorted x l) <-> y = x \/ In y l.
Proof.
  induction l as [|a l IH]; simpl; [intuition|].
  destruct (x <? a)%Z; simpl; [intuition|].
  rewrite IH. intuition.
Qed.

Lemma insert_sorted_sorted (x : Z) (l : list Z) :
  StronglySorted Z.le l -> StronglySorted Z.le (insert_sorted x l).
Proof.
  induction l as [|a l IH]; simpl; intro H.
  - constructor; constructor.
  - destruct (Z.ltb_spec x a) as [Hlt|Hge].
    + constructor; [exact H|].
      inversion H as [|? ? Hs Hf]; subst.
      constructor; [lia|]. eapply Forall_impl; [|exact Hf].
      intros b Hb. lia.
    + inversion H as [|? ? Hs Hf]; subst.
      constructor; [now apply IH|].
      apply Forall_forall. intros y Hy. apply insert_sorted_In in Hy.
      destruct Hy as [->|Hy]; [exact Hge|].
      rewrite Forall_forall in Hf. now apply Hf.
Qed.

Lemma sort_ascending_sorted (l : list Z) : StronglySorted Z.le (sort_ascending l).
Proof.
  unfold sort_ascending.
  assert (H : forall acc, StronglySorted Z.le acc ->
            StronglySorted Z.le (fold_left (fun a x => insert_sorted x a) l acc)).
  { induction l as [|x l IH]; simpl; intros acc Ha; [exact Ha|].
    apply IH. now apply insert_sorted_sorted. }
  apply H. constructor.
Qed.

Lemma sort_ascending_In (l : list Z) (y : Z) : In y (sort_ascending l) <-> In y l.
Proof.
  unfold sort_ascending.
  assert (H : forall acc,
            In y (fold_left (fun a x => insert_sorted x a) l acc)
            <-> In y l \/ In y acc).
  { induction l as [|x l IH]; simpl; intro acc; [intuition|].
    rewrite IH, insert_sorted_In. intuition. }
  rewrite H. simpl. intuition.
Qed.

Lemma insert_sorted_length (x : Z) (l : list Z) :
  length (insert_sorted x l) = S (length l).
Proof.
  induction l as [|a l IH]; simpl; [reflexivity|].
  destruct (x <? a)%Z; simpl; [reflexivity | now rewrite IH].
Qed.

Lemma sort_ascending_length (l : list Z) : length (sort_ascending l) = length l.
Proof.
  unfold sort_ascending.
  assert (H : forall acc,
            length (fold_left (fun a x => insert_sorted x a) l acc)
            = (length l + length acc)%nat).
  { induction l as [|x l IH]; simpl; intro acc; [reflexivity|].
    rewrite IH, insert_sorted_length. lia. }
  rewrite H. simpl. lia.
Qed.

Section WakePointer.

Variable indices : list Z.
Variable d : Q.

(** The inner loop moves the pointer forward, never past the end of the
    array, and adds one chunk of time per step of the pointer. *)
Lemma inject_wake_time (n : nat) (st : LoopState) :
  (wakeChunkIndex st <= length indices)%nat ->
  (wakeChunkIndex st <= wakeChunkIndex (inject_wake n indices d st))%nat /\
  (wakeChunkIndex (inject_wake n indices d st) <= length indices)%nat /\
  currentTime (inject_wake n indices d st)
    == currentTime st
       + inject_Z (Z.of_nat (wakeChunkIndex (inject_wake n indices d st))
                   - Z.of_nat (wakeChunkIndex st)) * d.
Proof.
  revert st. induction n as [|n IH]; simpl; intros st Hk.
  - rewrite Z.sub_diag. repeat split; try lia. unfold inject_Z. lra.
  - destruct (nth_error indices (wakeChunkIndex st)) as [i|] eqn:E;
      [destruct (i =? cycleIndex st)%Z|];
      try (rewrite Z.sub_diag; repeat split; try lia; unfold inject_Z; lra).
    assert (Hlt : (wakeChunkIndex st < length indices)%nat)
      by (apply nth_error_Some; congruence).
    destruct (IH (push_wake_chunk d st)) as (H1 & H2 & H3); [simpl; lia|].
    simpl in H1, H3. repeat split; try lia.
    rewrite H3.
    set (k' := wakeChunkIndex (inject_wake n indices d (push_wake_chunk d st))) in *.
    replace (Z.of_nat k' - Z.of_nat (wakeChunkIndex st))%Z
      with ((Z.of_nat k' - Z.of_nat (S (wakeChunkIndex st))) + 1)%Z by lia.
    rewrite inject_Z_plus. change (inject_Z 1) with 1.
    change (Z.pos (Pos.of_succ_nat (wakeChunkIndex st)))
      with (Z.of_nat (S (wakeChunkIndex st))).
    ring.
Qed.

(** On a sorted array whose entries from the pointer on are at least the
    cycle index, the inner loop (with enough turns) stops at the first
    entry above the cycle index. *)
Lemma inject_wake_scan (n : nat) (st : LoopState) :
  StronglySorted Z.le indices ->
  (length indices - wakeChunkIndex st <= n)%nat ->
  Forall (fun i => (i < cycleIndex st + 1)%Z)
    (firstn (wakeChunkIndex st) indices) ->
  Forall (fun i => (cycleIndex st <= i)%Z) (skipn (wakeChunkIndex st) indices) ->
  Forall (fun i => (i < cycleIndex st + 1)%Z)
    (firstn (wakeChunkIndex (inject_wake n indices d st)) indices) /\
  Forall (fun i => (cycleIndex st + 1 <= i)%Z)
    (skipn (wakeChunkIndex (inject_wake n indices d st)) indices).
Proof.
  intro Hs. revert st. induction n as [|n IH]; simpl; intros st Hn Hf Hg.
  - assert (E : skipn (wakeChunkIndex st) indices = [])
      by (apply skipn_all2; lia).
    rewrite E. split; [|constructor].
    eapply Forall_impl; [|exact Hf]. intros i Hi. simpl in Hi. lia.
  - destruct (nth_error indices (wakeChunkIndex st)) as [i|] eqn:E.
    + pose proof (nth_error_skipn _ _ _ _ E) as Es.
      rewrite Es in Hg. inversion Hg as [|? ? Hi Hrest]; subst.
      destruct (Z.eqb_spec i (cycleIndex st)) as [->|Hne].
      * assert (Hlt : (wakeChunkIndex st < length indices)%nat)
          by (apply nth_error_Some; congruence).
        assert (HF : Forall (fun j => (j < cycleIndex st + 1)%Z)
                       (firstn (wakeChunkIndex st) indices)) by exact Hf.
        assert (HF' : Forall (fun j => (j < cycleIndex st + 1)%Z)
                        (firstn (S (wakeChunkIndex st)) indices)).
        { rewrite (firstn_S_nth _ _ _ _ E). apply Forall_app. split.
          - exact HF.
          - constructor; [lia | constructor]. }
        destruct (IH (push_wake_chunk d st)) as [R1 R2].
        -- simpl. lia.
        -- exact HF'.
        -- exact Hrest.
        -- split; [exact R1 | exact R2].
      * split.
        -- eapply Forall_impl; [|exact Hf]. intros j Hj. simpl in Hj. lia.
        -- rewrite Es.
           pose proof (StronglySorted_skipn _ (wakeChunkIndex st) Hs) as Hss.
           rewrite Es in Hss. inversion Hss as [|? ? _ Hall]; subst.
           constructor; [lia|].
           eapply Forall_impl; [|exact Hall]. intros j Hj. simpl in Hj. lia.
    + rewrite (skipn_all_nil _ _ _ E). split; [|constructor].
      eapply Forall_impl; [|exact Hf]. intros j Hj. simpl in Hj. lia.
Qed.

(** With the entries before the pointer below [K] and the others not,
    the pointer is the number of entries below [K]. *)
Lemma pointer_count (K : Z) (k : nat) :
  (k <= length indices)%nat ->
  Forall (fun i => (i < K)%Z) (firstn k indices) ->
  Forall (fun i => (K <= i)%Z) (skipn k indices) ->
  count_below K indices = k.
Proof.
  intros Hk Hf Hg. unfold count_below.
  rewrite <- (firstn_skipn k indices) at 1.
  rewrite filter_app, length_app.
  assert (E1 : filter (fun i => (i <? K)%Z) (firstn k indices) = firstn k indices).
  { clear Hg. induction Hf as [|x l Hx Hl IHl]; simpl; [reflexivity|].
    destruct (Z.ltb_spec x K); [now rewrite IHl | lia]. }
  assert (E2 : filter (fun i => (i <? K)%Z) (skipn k indices) = []).
  { clear Hf. induction Hg as [|x l Hx Hl IHl]; simpl; [reflexivity|].
    destruct (Z.ltb_spec x K); [lia | exact IHl]. }
  rewrite E1, E2, length_firstn. simpl. lia.
Qed.

End WakePointer.

(** ** The wake chunks in the loop *)

Section WakeChunks.

Variable c : Config.
Variable p : Profile.
Variable indices : list Z.
Variable lat : Q.

Lemma cycle_body_wake_pointer (st : LoopState) :
  wake_pointer_ok lat (wakeChunkDuration (wasoMins p)) indices st ->
  wake_pointer_ok lat (wakeChunkDuration (wasoMins p)) indices
    (cycle_body c p indices st).
Proof.
  intros [Ht Hk].
  destruct (cycle_body_shape c p indices st) as (stX & -> & Ek & Eci & Es).
  unfold wake_pointer_ok, next_cycle. simpl.
  rewrite inject_wake_accumulatedSleep.
  destruct (inject_wake_time indices (wakeChunkDuration (wasoMins p))
              (length indices) stX) as (H1 & H2 & H3); [lia|].
  split; [|exact H2].
  rewrite H3, Ek.
  set (k' := wakeChunkIndex
               (inject_wake (length indices) indices
                  (wakeChunkDuration (wasoMins p)) stX)) in *.
  replace (Z.of_nat k')
    with ((Z.of_nat k' - Z.of_nat (wakeChunkIndex st))
          + Z.of_nat (wakeChunkIndex st))%Z at 2 by lia.
  rewrite inject_Z_plus. lra.
Qed.

Lemma cycle_body_scan (st : LoopState) :
  StronglySorted Z.le indices -> scan_ok indices st ->
  scan_ok indices (cycle_body c p indices st).
Proof.
  intros Hs [Hf Hg].
  destruct (cycle_body_shape c p indices st) as (stX & -> & Ek & Eci & _).
  unfold scan_ok, next_cycle. simpl.
  rewrite inject_wake_cycleIndex, Eci.
  rewrite <- Eci.
  apply inject_wake_scan.
  - exact Hs.
  - lia.
  - rewrite Ek, Eci. eapply Forall_impl; [|exact Hf].
    intros i Hi. simpl in Hi. lia.
  - rewrite Ek, Eci. exact Hg.
Qed.

Lemma cycle_loop_wake_pointer (fuel : nat) (st st' : LoopState) :
  wake_pointer_ok lat (wakeChunkDuration (wasoMins p)) indices st ->
  cycle_loop fuel c p indices st = Some st' ->
  wake_pointer_ok lat (wakeChunkDuration (wasoMins p)) indices st'.
Proof.
  revert st. induction fuel as [|fuel IH]; simpl; intros st H E;
    destruct (accumulatedSleep st <? tst p); try discriminate;
    try (injection E as <-; exact H).
  apply (IH _ (cycle_body_wake_pointer st H) E).
Qed.

Lemma cycle_loop_scan (fuel : nat) (st st' : LoopState) :
  StronglySorted Z.le indices -> scan_ok indices st ->
  cycle_loop fuel c p indices st = Some st' -> scan_ok indices st'.
Proof.
  intro Hs. revert st. induction fuel as [|fuel IH]; simpl; intros st H E;
    destruct (accumulatedSleep st <? tst p); try discriminate;
    try (injection E as <-; exact H).
  apply (IH _ (cycle_body_scan st Hs H) E).
Qed.

End WakeChunks.

Section EngineFacts.

Variable Math_pow : Q -> Q -> Q.

Lemma wakeInsertionIndices_length (rnd : nat -> Q) (p : Profile) :
  length (wakeInsertionIndices rnd p) = Z.to_nat (numWakeChunks (wasoMins p)).
Proof.
  unfold wakeInsertionIndices.
  now rewrite sort_ascending_length, length_map, length_seq.
Qed.

Lemma estCycles_nonneg (t : Q) : 0 <= t -> (0 <= estCycles t)%Z.
Proof.
  intro Ht. unfold estCycles, cycleLength.
  change 0%Z with (Qceiling 0). apply Qceiling_resp_le.
  apply Qle_shift_div_l; lra.
Qed.

Lemma wakeInsertionIndices_range (rnd : nat -> Q) (p : Profile) :
  unit_draws rnd -> 0 <= tst p ->
  Forall (fun i => (0 <= i)%Z /\ (0 < tst p -> (i < estCycles (tst p))%Z))
    (wakeInsertionIndices rnd p).
Proof.
  intros Hr Ht. apply Forall_forall. intros i Hi.
  unfold wakeInsertionIndices in Hi. rewrite sort_ascending_In in Hi.
  apply in_map_iff in Hi. destruct Hi as (k & <- & _).
  pose proof (estCycles_nonneg _ Ht) as He.
  assert (He' : 0 <= inject_Z (estCycles (tst p)))
    by (change 0 with (inject_Z 0); now rewrite <- Zle_Qle).
  destruct (Hr k) as [Hk0 Hk1].
  split.
  - change 0%Z with (Qfloor 0). apply Qfloor_resp_le. nra.
  - intro Hpos.
    assert (He1 : (1 <= estCycles (tst p))%Z).
    { unfold estCycles, cycleLength.
      pose proof (Qle_ceiling (tst p / 90)) as Hc.
      assert (Hq : 0 < tst p / 90) by (apply Qlt_shift_div_l; lra).
      assert (Hz : 0 < inject_Z (Qceiling (tst p / 90))) by lra.
      change 0 with (inject_Z 0) in Hz. rewrite <- Zlt_Qlt in Hz. lia. }
    assert (He1' : 1 <= inject_Z (estCycles (tst p)))
      by (change 1 with (inject_Z 1); now rewrite <- Zle_Qle).
    pose proof (Qfloor_le (rnd k * inject_Z (estCycles (tst p)))) as Hf.
    assert (Hlt : inject_Z (Qfloor (rnd k * inject_Z (estCycles (tst p))))
                  < inject_Z (estCycles (tst p))) by nra.
    now rewrite <- Zlt_Qlt in Hlt.
Qed.

Lemma wakeChunk_partition (w : Q) :
  inject_Z (Z.of_nat (Z.to_nat (numWakeChunks w))) * wakeChunkDuration w == w.
Proof.
  pose proof (numWakeChunks_pos w) as Hn.
  assert (Hz : (1 <= numWakeChunks w)%Z)
    by (change 1 with (inject_Z 1) in Hn; now rewrite <- Zle_Qle in Hn).
  rewrite Z2Nat.id by lia. unfold wakeChunkDuration. field. lra.
Qed.

Lemma initial_wake_pointer (c : Config) (l : list Z) (chunk : Q) :
  wake_pointer_ok (latency Math_pow c) chunk l (initial_state Math_pow c).
Proof.
  unfold wake_pointer_ok, initial_state. simpl. split; [|lia].
  unfold inject_Z. lra.
Qed.

(** The WAKE blocks after the first one hold one chunk per step of the
    wake pointer. *)
Lemma run_cycles_wake_total (fuel : nat) (rnd : nat -> Q) (c : Config)
    (st : LoopState) :
  run_cycles Math_pow fuel rnd c = Some st ->
  sum_durations (wake_blocks (tl (HypnogramGenerator.blocks st)))
    == inject_Z (Z.of_nat (wakeChunkIndex st))
       * wakeChunkDuration (wasoMins (adjustedTargets Math_pow c)) /\
  (wakeChunkIndex st
   <= Z.to_nat (numWakeChunks (wasoMins (adjustedTargets Math_pow c))))%nat.
Proof.
  intro E. pose proof (run_cycles_accounting _ _ _ _ _ E) as (_ & Ht & Ha).
  unfold run_cycles in E.
  pose proof (cycle_loop_wake_pointer c _ _ (latency Math_pow c) fuel _ _
                (initial_wake_pointer c _ _) E) as [Hw Hk].
  rewrite wakeInsertionIndices_length in Hk. split; [|exact Hk].
  apply cycle_loop_blocks in E. destruct E as [l El].
  pose proof (sum_sleep_wake (HypnogramGenerator.blocks st)) as Hsw.
  rewrite El in *. simpl in *.
  unfold wake_blocks in Hsw. simpl in Hsw.
  unfold sum_durations in Hsw at 3. simpl in Hsw.
  fold (wake_blocks l) in Hsw.
  change (fold_right Qplus 0 (map duration (wake_blocks l)))
    with (sum_durations (wake_blocks l)) in Hsw.
  unfold wake_blocks at 1. simpl. fold (wake_blocks l).
  lra.
Qed.

End EngineFacts.

(** ** Blocks, targets and offsets of a generated night *)

Lemma recalculate_n2_fractions (p : Profile) :
  n3P (recalculate_n2 p) + remP (recalculate_n2 p) + n1P (recalculate_n2 p)
    + n2P (recalculate_n2 p) == 1 /\
  0.05 <= n2P (recalculate_n2 p).
Proof.
  unfold recalculate_n2. cbv zeta.
  destruct (Qltb_spec 0.95 (n3P p + remP p + n1P p)) as [Hbig|Hsmall]; simpl.
  - split; [ring|].
    assert (E : n3P p * (0.95 / (n3P p + remP p + n1P p))
                + remP p * (0.95 / (n3P p + remP p + n1P p))
                + n1P p * (0.95 / (n3P p + remP p + n1P p))
                == 0.95) by (field; lra).
    set (q := 0.95 / (n3P p + remP p + n1P p)) in *. clearbody q.
    lra.
  - split; [ring | lra].
Qed.

Lemma agePhaseShift_range (c : Config) : - (120) <= agePhaseShift c <= 0.
Proof.
  unfold agePhaseShift. cbv zeta.
  destruct (Qltb_spec 65 (age c)); [|lra].
  qdiv (age c - 65) 20. qminmax; lra.
Qed.

Lemma teenShift_range (c : Config) :
  0 <= teenShift c <= 90 /\ (65 < age c -> teenShift c == 0).
Proof.
  unfold teenShift.
  destruct (Qleb_spec 13 (age c)); destruct (Qleb_spec (age c) 21);
    cbn [andb]; try (split; lra).
  destruct (Qleb_spec (age c) 17).
  - qdiv (age c - 13) 4. split; lra.
  - qdiv (age c - 17) 4. split; lra.
Qed.

Lemma run_cycles_durations (Math_pow : Q -> Q -> Q) (rnd : nat -> Q)
    (c : Config) (fuel : nat) (st : LoopState) :
  pow_half_unit Math_pow -> valid_config c ->
  run_cycles Math_pow fuel rnd c = Some st ->
  Forall duration_ok (HypnogramGenerator.blocks st).
Proof.
  intros Hp Hv Er. unfold run_cycles in Er.
  pose proof (activeCaffeine_range Math_pow c Hp Hv) as Ha.
  pose proof (initialN1_range Math_pow c Ha) as Hi.
  pose proof (latency_lower Math_pow c (proj1 Ha)) as Hl.
  assert (Hs : sdbSeverity c <= 10)
    by (destruct Hv as (_ & _ & _ & _ & [_ H] & _); exact H).
  destruct (adjustedTargets_ok Math_pow c Hs) as (H3 & [Hr _] & _ & Hw & _).
  apply (cycle_loop_durations c _ _ fuel _ _) in Er; try assumption.
  - lra.
  - apply wakeChunkDuration_pos. lra.
  - simpl. lia.
  - simpl. repeat constructor; simpl; lra.
Qed.

(** X1. For every configuration in the documented ranges, no block of the
    result has a negative duration, and every block other than an N2
    bridge has a strictly positive one. *)
Theorem generate_block_durations
    (Math_pow : Q -> Q -> Q) (rnd : nat -> Q) (c : Config) (fuel : nat)
    (r : SimulationResult.t) :
  pow_half_unit Math_pow -> valid_config c ->
  generate Math_pow fuel rnd c = Some r ->
  Forall duration_ok (blocks r).
Proof.
  intros Hp Hv E.
  destruct (generate_inv _ _ _ _ _ E) as (st & Er & ->). simpl.
  apply (Forall_duration_shift
           (fun s d => 0 <= d /\ (s <> N2 -> 0 < d))).
  exact (run_cycles_durations _ _ _ _ _ Hp Hv Er).
Qed.

Lemma generate_block_durations_witness :
  exists r, generate pow_sample enough_fuel random_high config_70 = Some r /\
    Forall duration_ok (blocks r).
Proof.
  destruct (generate_returns pow_sample random_high config_70
              pow_sample_half_unit valid_config_70) as [r Er].
  exists r. split; [exact Er|].
  exact (generate_block_durations _ _ _ _ _
           pow_sample_half_unit valid_config_70 Er).
Defined.

(** X2. Whatever the configuration, a result of [generate] begins with
    the WAKE block of the sleep latency, at the shifted anchor, followed
    by the initial N1 block; [stats.latency] is the duration of the
    first block. *)
Theorem generate_first_blocks
    (Math_pow : Q -> Q -> Q) (rnd : nat -> Q) (c : Config) (fuel : nat)
    (r : SimulationResult.t) :
  generate Math_pow fuel rnd c = Some r ->
  exists rest,
    blocks r =
      mkBlock WAKE (Stats.latency (stats r))
              (0 + 240 + Params.startTimeOffset (params r))
      :: mkBlock N1 (initialN1 Math_pow c)
                 (0 + Stats.latency (stats r) + 240
                  + Params.startTimeOffset (params r))
      :: rest.
Proof.
  intro E. destruct (generate_inv _ _ _ _ _ E) as (st & Er & ->). simpl.
  unfold run_cycles in Er. apply cycle_loop_blocks in Er.
  destruct Er as [l ->]. simpl. eexists. reflexivity.
Qed.

Lemma generate_first_blocks_witness :
  exists r rest,
    generate pow_sample enough_fuel random_high config_70 = Some r /\
    blocks r =
      mkBlock WAKE (Stats.latency (stats r))
              (0 + 240 + Params.startTimeOffset (params r))
      :: mkBlock N1 (initialN1 pow_sample config_70)
                 (0 + Stats.latency (stats r) + 240
                  + Params.startTimeOffset (params r))
      :: rest.
Proof.
  destruct (generate_returns pow_sample random_high config_70
              pow_sample_half_unit valid_config_70) as [r Er].
  destruct (generate_first_blocks _ _ _ _ _ Er) as [rest H].
  exists r, rest. split; [exact Er | exact H].
Defined.

Lemma startTimeOffset_bounds (c : Config) :
  - (240) <= startTimeOffset c <= 450.
Proof.
  unfold startTimeOffset, bedtimeShift. cbv zeta.
  pose proof (agePhaseShift_range c) as Ha.
  destruct (teenShift_range c) as [Ht Ht0].
  assert (Hx : agePhaseShift c == 0 \/ teenShift c == 0).
  { destruct (Qlt_le_dec 65 (age c)) as [Hold|Hyoung];
      [right; now apply Ht0 | left].
    unfold agePhaseShift. destruct (Qltb_spec 65 (age c)); lra. }
  destruct (chronotype c), (socialJetLag c); destruct Hx; split; lra.
Qed.

(** X3. Whatever the configuration, the start-time offset of the result
    lies between -240 and 450 minutes: at the earliest (lark, age 85 or
    more) the night starts at the 18:00 origin itself, never before; the
    teenage delay lies between 0 and 90 minutes and the elderly advance
    between -120 and 0, and the two never apply together. *)
Theorem startTimeOffset_range (c : Config) :
  - (240) <= startTimeOffset c <= 450 /\
  0 <= teenShift c <= 90 /\
  - (120) <= agePhaseShift c <= 0 /\
  (teenShift c == 0 \/ agePhaseShift c == 0).
Proof.
  split; [apply startTimeOffset_bounds|].
  destruct (teenShift_range c) as [Ht Ht0].
  split; [exact Ht|]. split; [apply agePhaseShift_range|].
  destruct (Qlt_le_dec 65 (age c)) as [Hold|Hyoung];
    [left; now apply Ht0 | right].
  unfold agePhaseShift. destruct (Qltb_spec 65 (age c)); lra.
Qed.

(** The blocks of the result lie between the shifted anchor and the
    shifted end of the night. *)
Lemma blocks_within_night
    (Math_pow : Q -> Q -> Q) (rnd : nat -> Q) (c : Config) (fuel : nat)
    (r : SimulationResult.t) :
  pow_half_unit Math_pow -> valid_config c ->
  generate Math_pow fuel rnd c = Some r ->
  Forall (fun b =>
            240 + Params.startTimeOffset (params r) <= start b /\
            start b + duration b
              <= 240 + Params.startTimeOffset (params r) + Params.tib (params r))
         (blocks r).
Proof.
  intros Hp Hv E.
  destruct (generate_inv _ _ _ _ _ E) as (st & Er & ->). simpl in *.
  pose proof (run_cycles_durations _ _ _ _ _ Hp Hv Er) as Hd.
  destruct (run_cycles_accounting _ _ _ _ _ Er) as (Hc & Ht & _).
  pose proof (contiguous_from_shift 0 (startTimeOffset c) _ Hc) as Hcs.
  assert (Hd' : Forall (fun b => 0 <= duration b)
                  (map (shift_block (startTimeOffset c))
                     (HypnogramGenerator.blocks st))).
  { apply Forall_map. eapply Forall_impl; [|exact Hd].
    intros b [Hb _]. exact Hb. }
  pose proof (contiguous_from_within _ _ Hcs Hd') as Hw.
  rewrite sum_durations_shift in Hw.
  eapply Forall_impl; [|exact Hw]. intros b [H1 H2]. simpl in *.
  split; lra.
Qed.

(** X4. For every configuration in the documented ranges, every block of
    the result lies within the night: it starts no earlier than
    [240 + startTimeOffset] (hence at a non-negative time) and ends no
    later than [240 + startTimeOffset + tib]. *)
Theorem generate_blocks_within_night
    (Math_pow : Q -> Q -> Q) (rnd : nat -> Q) (c : Config) (fuel : nat)
    (r : SimulationResult.t) :
  pow_half_unit Math_pow -> valid_config c ->
  generate Math_pow fuel rnd c = Some r ->
  Forall (fun b =>
            0 <= start b /\
            240 + Params.startTimeOffset (params r) <= start b /\
            start b + duration b
              <= 240 + Params.startTimeOffset (params r) + Params.tib (params r))
         (blocks r).
Proof.
  intros Hp Hv E.
  pose proof (blocks_within_night _ _ _ _ _ Hp Hv E) as Hw.
  assert (Ho : - (240) <= Params.startTimeOffset (params r)).
  { destruct (generate_inv _ _ _ _ _ E) as (st & _ & ->).
    cbn [params finish Params.startTimeOffset].
    apply startTimeOffset_bounds. }
  eapply Forall_impl; [|exact Hw]. intros b [H1 H2].
  repeat split; lra.
Qed.

Lemma generate_blocks_within_night_witness :
  exists r, generate pow_sample enough_fuel random_high config_70 = Some r /\
    Forall (fun b =>
              0 <= start b /\
              240 + Params.startTimeOffset (params r) <= start b /\
              start b + duration b
                <= 240 + Params.startTimeOffset (params r)
                   + Params.tib (params r))
           (blocks r).
Proof.
  destruct (generate_returns pow_sample random_high config_70
              pow_sample_half_unit valid_config_70) as [r Er].
  exists r. split; [exact Er|].
  exact (generate_blocks_within_night _ _ _ _ _
           pow_sample_half_unit valid_config_70 Er).
Defined.

(** X5. Whatever the configuration, the four stage fractions in [stats]
    add up to 1 and N2 is at least 0.05 (the three others are held under
    the 0.95 ceiling); with a severity of at most 10 the three others are
    strictly positive. *)
Theorem generate_stats_fractions
    (Math_pow : Q -> Q -> Q) (rnd : nat -> Q) (c : Config) (fuel : nat)
    (r : SimulationResult.t) :
  generate Math_pow fuel rnd c = Some r ->
  Stats.n3P (stats r) + Stats.remP (stats r) + Stats.n1P (stats r)
    + Stats.n2P (stats r) == 1 /\
  0.05 <= Stats.n2P (stats r) /\
  (sdbSeverity c <= 10 ->
   0 < Stats.n3P (stats r) /\ 0 < Stats.remP (stats r) /\
   0 < Stats.n1P (stats r) /\ Stats.n2P (stats r) < 1).
Proof.
  intro E. destruct (generate_inv _ _ _ _ _ E) as (st & _ & ->). simpl.
  unfold adjustedTargets at 1 2 3 4 5.
  destruct (recalculate_n2_fractions
              (nocturia_model c (sdb_model c (targets_before_sdb Math_pow c))))
    as [Hs Hn].
  split; [exact Hs|]. split; [exact Hn|].
  intro Hsev. destruct (adjustedTargets_ok Math_pow c Hsev) as (H3 & Hr & H1 & _).
  unfold adjustedTargets in *. repeat split; lra.
Qed.

Lemma generate_stats_fractions_witness :
  exists r, generate pow_sample enough_fuel random_high config_70 = Some r /\
    Stats.n3P (stats r) + Stats.remP (stats r) + Stats.n1P (stats r)
      + Stats.n2P (stats r) == 1 /\
    0.05 <= Stats.n2P (stats r) /\
    0 < Stats.n3P (stats r) /\ 0 < Stats.remP (stats r) /\
    0 < Stats.n1P (stats r) /\ Stats.n2P (stats r) < 1.
Proof.
  destruct (generate_returns pow_sample random_high config_70
              pow_sample_half_unit valid_config_70) as [r Er].
  destruct (generate_stats_fractions _ _ _ _ _ Er) as (H1 & H2 & H3).
  exists r. split; [exact Er|]. split; [exact H1|]. split; [exact H2|].
  apply H3. simpl. lra.
Defined.

Lemma adjusted_tst_nonneg (Math_pow : Q -> Q -> Q) (c : Config) :
  pow_half_unit Math_pow -> valid_config c ->
  0 <= tst (adjustedTargets Math_pow c).
Proof.
  intros Hp Hv.
  pose proof (activeCaffeine_range Math_pow c Hp Hv) as Ha.
  assert (Hs : sdbSeverity c <= 10)
    by (destruct Hv as (_ & _ & _ & _ & [_ H] & _); exact H).
  pose proof (tst_adjusted_lower Math_pow c (proj1 Ha) Hs) as Hl. lra.
Qed.

(** X6. For every configuration in the documented ranges the adjusted
    total-sleep target stays between 0 and 960 minutes (the modifiers
    never drive it negative, though nothing clamps it), the WASO target
    is at least 5 minutes, and [estCycles] lies between 0 and 11. *)
Theorem adjustedTargets_range (Math_pow : Q -> Q -> Q) (c : Config) :
  pow_half_unit Math_pow -> valid_config c ->
  0 <= tst (adjustedTargets Math_pow c) <= 960 /\
  5 <= wasoMins (adjustedTargets Math_pow c) /\
  (0 <= estCycles (tst (adjustedTargets Math_pow c)) <= 11)%Z.
Proof.
  intros Hp Hv.
  assert (Hs : sdbSeverity c <= 10)
    by (destruct Hv as (_ & _ & _ & _ & [_ H] & _); exact H).
  destruct (adjustedTargets_ok Math_pow c Hs) as (_ & _ & _ & Hw & Ht).
  pose proof (adjusted_tst_nonneg Math_pow c Hp Hv) as H0.
  repeat split; try lra.
  - now apply estCycles_nonneg.
  - unfold estCycles, cycleLength.
    change 11%Z with (Qceiling (inject_Z 11)). apply Qceiling_resp_le.
    apply Qle_shift_div_r; [lra|]. unfold inject_Z. lra.
Qed.

Lemma adjustedTargets_range_witness :
  0 <= tst (adjustedTargets pow_sample config_90) <= 960 /\
  5 <= wasoMins (adjustedTargets pow_sample config_90) /\
  (0 <= estCycles (tst (adjustedTargets pow_sample config_90)) <= 11)%Z.
Proof.
  exact (adjustedTargets_range pow_sample config_90
           pow_sample_half_unit valid_config_90).
Defined.

(** ** The WASO that reaches the blocks *)

(** X7. For every configuration in the documented ranges, the WAKE
    blocks pushed in the loop hold a whole number of chunks, at most
    [numWakeChunks] of them: their total lies between 0 and the WASO
    target, and the time in bed is the latency plus the actual sleep plus
    that total. *)
Theorem generate_waso_at_most_target
    (Math_pow : Q -> Q -> Q) (rnd : nat -> Q) (c : Config) (fuel : nat)
    (r : SimulationResult.t) :
  valid_config c ->
  generate Math_pow fuel rnd c = Some r ->
  (exists k : nat,
     (k <= Z.to_nat (numWakeChunks (Stats.wasoMins (stats r))))%nat /\
     sum_durations (wake_blocks (tl (blocks r)))
       == inject_Z (Z.of_nat k) * wakeChunkDuration (Stats.wasoMins (stats r))) /\
  0 <= sum_durations (wake_blocks (tl (blocks r))) <= Stats.wasoMins (stats r) /\
  Stats.tib (stats r)
    == Stats.latency (stats r) + Stats.tst (stats r)
       + sum_durations (wake_blocks (tl (blocks r))).
Proof.
  intros Hv E.
  destruct (generate_inv _ _ _ _ _ E) as (st & Er & ->). simpl.
  destruct (run_cycles_wake_total _ _ _ _ _ Er) as [Hw Hk].
  destruct (run_cycles_accounting _ _ _ _ _ Er) as (_ & Ht & Ha).
  assert (Hs : sdbSeverity c <= 10)
    by (destruct Hv as (_ & _ & _ & _ & [_ H] & _); exact H).
  destruct (adjustedTargets_ok Math_pow c Hs) as (_ & _ & _ & Hwaso & _).
  set (w := wasoMins (adjustedTargets Math_pow c)) in *.
  assert (Hd : 0 < wakeChunkDuration w) by (apply wakeChunkDuration_pos; lra).
  pose proof (wakeChunk_partition w) as Hpart.
  assert (Etl : tl (map (shift_block (startTimeOffset c))
                      (HypnogramGenerator.blocks st))
                = map (shift_block (startTimeOffset c))
                    (tl (HypnogramGenerator.blocks st)))
    by (destruct (HypnogramGenerator.blocks st); reflexivity).
  rewrite Etl, wake_blocks_shift, sum_durations_shift.
  set (W := sum_durations (wake_blocks (tl (HypnogramGenerator.blocks st)))) in *.
  assert (Hk0 : 0 <= inject_Z (Z.of_nat (wakeChunkIndex st)))
    by (change 0 with (inject_Z 0); rewrite <- Zle_Qle; lia).
  assert (Hk1 : inject_Z (Z.of_nat (wakeChunkIndex st))
                <= inject_Z (Z.of_nat (Z.to_nat (numWakeChunks w))))
    by (rewrite <- Zle_Qle; lia).
  split; [exists (wakeChunkIndex st); split; [exact Hk | exact Hw]|].
  split; [split; nra|].
  rewrite actualTST_sum.
  unfold run_cycles in Er.
  pose proof (cycle_loop_wake_pointer c _ _ (latency Math_pow c) fuel _ _
                (initial_wake_pointer Math_pow c _ _) Er) as [Hwp _].
  fold w in Hwp. lra.
Qed.

Lemma generate_waso_at_most_target_witness :
  exists r, generate pow_sample enough_fuel random_high config_70 = Some r /\
    0 <= sum_durations (wake_blocks (tl (blocks r))) <= Stats.wasoMins (stats r) /\
    Stats.tib (stats r)
      == Stats.latency (stats r) + Stats.tst (stats r)
         + sum_durations (wake_blocks (tl (blocks r))).
Proof.
  destruct (generate_returns pow_sample random_high config_70
              pow_sample_half_unit valid_config_70) as [r Er].
  destruct (generate_waso_at_most_target _ _ _ _ _ valid_config_70 Er)
    as (_ & H1 & H2).
  exists r. split; [exact Er|]. split; [exact H1 | exact H2].
Defined.

(** X8. For every configuration in the documented ranges and draws in
    [[0, 1)], the loop pushes exactly the chunks whose scheduled index is
    below the number of cycles it runs (the cycle index at the exit).
    So every chunk is pushed, and the WAKE blocks of the loop add up to
    the WASO target, whenever the target of sleep is positive and the loop
    runs at least [estCycles] cycles. *)
Theorem run_cycles_waso_count
    (Math_pow : Q -> Q -> Q) (rnd : nat -> Q) (c : Config) (fuel : nat)
    (st : LoopState) :
  pow_half_unit Math_pow -> valid_config c -> unit_draws rnd ->
  run_cycles Math_pow fuel rnd c = Some st ->
  wakeChunkIndex st
    = count_below (cycleIndex st)
        (wakeInsertionIndices rnd (adjustedTargets Math_pow c)) /\
  sum_durations (wake_blocks (tl (HypnogramGenerator.blocks st)))
    == inject_Z (Z.of_nat (count_below (cycleIndex st)
                   (wakeInsertionIndices rnd (adjustedTargets Math_pow c))))
       * wakeChunkDuration (wasoMins (adjustedTargets Math_pow c)) /\
  (0 < tst (adjustedTargets Math_pow c) ->
   (estCycles (tst (adjustedTargets Math_pow c)) <= cycleIndex st)%Z ->
   sum_durations (wake_blocks (tl (HypnogramGenerator.blocks st)))
     == wasoMins (adjustedTargets Math_pow c)).
Proof.
  intros Hp Hv Hr E.
  destruct (run_cycles_wake_total _ _ _ _ _ E) as [Hw Hk].
  pose proof (adjusted_tst_nonneg Math_pow c Hp Hv) as Ht0.
  set (p := adjustedTargets Math_pow c) in *.
  pose proof (wakeInsertionIndices_range rnd p Hr Ht0) as Hrange.
  pose proof (wakeInsertionIndices_length rnd p) as Hlen.
  unfold run_cycles in E. fold p in E.
  assert (Hscan : scan_ok (wakeInsertionIndices rnd p) st).
  { apply (cycle_loop_scan c p _ fuel (initial_state Math_pow c) st).
    - unfold wakeInsertionIndices. apply sort_ascending_sorted.
    - unfold scan_ok. simpl. split; [constructor|].
      eapply Forall_impl; [|exact Hrange]. intros i [Hi _]. exact Hi.
    - exact E. }
  destruct Hscan as [Hf Hg].
  assert (Ek : count_below (cycleIndex st) (wakeInsertionIndices rnd p)
               = wakeChunkIndex st).
  { apply pointer_count; [rewrite Hlen; exact Hk | exact Hf | exact Hg]. }
  rewrite Ek. split; [reflexivity|]. split; [exact Hw|].
  intros Hpos Hest.
  assert (Hall : count_below (cycleIndex st) (wakeInsertionIndices rnd p)
                 = length (wakeInsertionIndices rnd p)).
  { unfold count_below. f_equal.
    clear -Hrange Hpos Hest.
    induction Hrange as [|i l [_ Hi] Hl IHl]; simpl; [reflexivity|].
    specialize (Hi Hpos). destruct (Z.ltb_spec i (cycleIndex st)); [|lia].
    now rewrite IHl. }
  rewrite Ek, Hlen in Hall. rewrite Hw, Hall.
  apply wakeChunk_partition.
Qed.

Lemma valid_config_18 : valid_config config_18.
Proof. unfold valid_config. simpl. repeat split; lra. Qed.

Lemma run_cycles_waso_count_witness :
  exists st, run_cycles pow_sample enough_fuel random_low config_18 = Some st /\
    wakeChunkIndex st
      = count_below (cycleIndex st)
          (wakeInsertionIndices random_low (adjustedTargets pow_sample config_18)) /\
    sum_durations (wake_blocks (tl (HypnogramGenerator.blocks st)))
      == wasoMins (adjustedTargets pow_sample config_18).
Proof.
  destruct (run_cycles_exit pow_sample random_low config_18
              pow_sample_half_unit valid_config_18) as (st & Er & _).
  assert (Hr : unit_draws random_low) by (intro k; unfold random_low; lra).
  destruct (run_cycles_waso_count pow_sample random_low config_18 enough_fuel st
              pow_sample_half_unit valid_config_18 Hr Er) as (H1 & _ & H3).
  exists st. split; [exact Er|]. split; [exact H1|].
  apply H3.
  - apply Qlt_alt. vm_compute. reflexivity.
  - assert (Hb : match run_cycles pow_sample enough_fuel random_low config_18 with
                 | Some s =>
                     (estCycles (tst (adjustedTargets pow_sample config_18))
                      <=? cycleIndex s)%Z
                 | None => false
                 end = true) by (vm_compute; reflexivity).
    rewrite Er in Hb. now apply Z.leb_le.
Defined.

(** ** The micro-arousals *)

Lemma microArousals_length (Math_pow : Q -> Q -> Q) (rnd : nat -> Q)
    (first : nat) (c : Config) (t : Q) :
  length (microArousals Math_pow rnd first c t)
  = Z.to_nat (Qceiling (numMicroArousals c)).
Proof. unfold microArousals. now rewrite length_map, length_seq. Qed.

Lemma microArousals_count (c : Config) (n : Z) :
  (0 <= n)%Z -> sdbSeverity c == inject_Z n ->
  Z.of_nat (Z.to_nat (Qceiling (numMicroArousals c)))
  = (5 + (if (age c >? 50)%Q then 5 else 0) + 15 * n)%Z.
Proof.
  intros Hn En.
  assert (Eq : numMicroArousals c
               == inject_Z (5 + (if (age c >? 50)%Q then 5 else 0) + 15 * n)).
  { unfold numMicroArousals. rewrite En.
    rewrite !inject_Z_plus, inject_Z_mult.
    destruct (age c >? 50);
      change (inject_Z 5) with 5; change (inject_Z 15) with 15;
      change (inject_Z 0) with 0; ring. }
  rewrite (Qceiling_comp _ _ Eq), Qceiling_Z.
  apply Z2Nat.id. destruct (age c >? 50); lia.
Qed.

(** The wake events of the result fall between the sleep onset and the
    end of the night. *)
Lemma wakeEvents_within_night
    (Math_pow : Q -> Q -> Q) (rnd : nat -> Q) (c : Config) (fuel : nat)
    (r : SimulationResult.t) :
  pow_half_unit Math_pow -> valid_config c -> unit_draws rnd ->
  generate Math_pow fuel rnd c = Some r ->
  Forall (fun w =>
            we_duration w = 1 /\
            240 + Params.startTimeOffset (params r) + Stats.latency (stats r)
              <= time w /\
            time w < 240 + Params.startTimeOffset (params r)
                     + Stats.tib (stats r))
         (wakeEvents r).
Proof.
  intros Hp Hv Hr E.
  destruct (generate_inv _ _ _ _ _ E) as (st & Er & ->).
  simpl.
  destruct (run_cycles_awake _ _ _ _ _ Hp Hv Er) as (Hs & Hw).
  pose proof (activeCaffeine_range Math_pow c Hp Hv) as Ha.
  pose proof (latency_lower Math_pow c (proj1 Ha)) as Hl.
  assert (Hslack : latency Math_pow c
                   <= currentTime st - accumulatedSleep st).
  { unfold run_cycles in Er.
    assert (Hsev : sdbSeverity c <= 10)
      by (destruct Hv as (_ & _ & _ & _ & [_ H] & _); exact H).
    destruct (adjustedTargets_ok Math_pow c Hsev) as (_ & _ & _ & Hwaso & _).
    assert (Hd : 0 <= wakeChunkDuration (wasoMins (adjustedTargets Math_pow c)))
      by (apply Qlt_le_weak, wakeChunkDuration_pos; lra).
    pose proof (cycle_loop_awake _ _ _ _ _ _ Hd Er) as H1. simpl in H1. lra. }
  apply Forall_map. unfold microArousals. apply Forall_map.
  apply Forall_forall. intros i _. simpl.
  destruct (Hr (Z.to_nat (numWakeChunks (wasoMins (adjustedTargets Math_pow c))) + i)%nat)
    as [H0 H1].
  set (x := rnd _) in *. clearbody x.
  repeat split; nra.
Qed.

(** X9. For every configuration in the documented ranges and draws in
    [[0, 1)], every wake event of the result lasts 1 minute and falls
    between the sleep onset and the end of the night (the shifted latency
    and the shifted time in bed); for a whole severity [n >= 0] there are
    [5 + (5 if age > 50) + 15 n] of them. *)
Theorem generate_wakeEvents
    (Math_pow : Q -> Q -> Q) (rnd : nat -> Q) (c : Config) (fuel : nat)
    (r : SimulationResult.t) :
  pow_half_unit Math_pow -> valid_config c -> unit_draws rnd ->
  generate Math_pow fuel rnd c = Some r ->
  Forall (fun w =>
            we_duration w = 1 /\
            240 + Params.startTimeOffset (params r) + Stats.latency (stats r)
              <= time w /\
            time w < 240 + Params.startTimeOffset (params r)
                     + Stats.tib (stats r))
         (wakeEvents r) /\
  forall n : Z, (0 <= n)%Z -> sdbSeverity c == inject_Z n ->
    Z.of_nat (length (wakeEvents r))
    = (5 + (if (age c >? 50)%Q then 5 else 0) + 15 * n)%Z.
Proof.
  intros Hp Hv Hr E.
  split; [exact (wakeEvents_within_night _ _ _ _ _ Hp Hv Hr E)|].
  destruct (generate_inv _ _ _ _ _ E) as (st & Er & ->).
  intros n Hn En. unfold finish. cbn [wakeEvents].
  rewrite length_map, microArousals_length.
  now apply microArousals_count.
Qed.

Lemma generate_wakeEvents_witness :
  exists r, generate pow_sample enough_fuel random_high config_70 = Some r /\
    Forall (fun w =>
              we_duration w = 1 /\
              240 + Params.startTimeOffset (params r) + Stats.latency (stats r)
                <= time w /\
              time w < 240 + Params.startTimeOffset (params r)
                       + Stats.tib (stats r))
           (wakeEvents r) /\
    Z.of_nat (length (wakeEvents r)) = 70%Z.
Proof.
  destruct (generate_returns pow_sample random_high config_70
              pow_sample_half_unit valid_config_70) as [r Er].
  assert (Hr : unit_draws random_high) by (intro k; unfold random_high; lra).
  destruct (generate_wakeEvents _ _ _ _ _
              pow_sample_half_unit valid_config_70 Hr Er) as [H1 H2].
  exists r. split; [exact Er|]. split; [exact H1|].
  apply (H2 4%Z); [lia | reflexivity].
Defined.

(** ** The interpolation at and between the keyframes *)

Lemma ages_increasing_In (a1 v1 a v : Q) (rest : list (Q * Q)) :
  ages_increasing ((a1, v1) :: rest) -> In (a, v) rest -> a1 < a.
Proof.
  revert a1 v1. induction rest as [|[a2 v2] rest IH]; intros a1 v1 H Hin;
    [destruct Hin|].
  destruct H as [H12 H]. destruct Hin as [E|Hin].
  - injection E as <- <-. exact H12.
  - specialize (IH a2 v2 H Hin). lra.
Qed.

Lemma interpolate_scan_at_keyframe (a1 v1 a v fb : Q) (rest : list (Q * Q)) :
  ages_increasing ((a1, v1) :: rest) -> In (a, v) rest ->
  interpolate_scan a ((a1, v1) :: rest) fb == v.
Proof.
  revert a1 v1. induction rest as [|[a2 v2] rest IH]; intros a1 v1 H Hin;
    [destruct Hin|].
  pose proof H as [H12 H']. destruct Hin as [E|Hin].
  - injection E as <- <-. simpl.
    destruct (Qleb_spec a1 a2); [|lra].
    destruct (Qleb_spec a2 a2); [|lra]. simpl. field. lra.
  - pose proof (ages_increasing_In _ _ _ _ _ H' Hin) as Hlt.
    change (interpolate_scan a ((a1, v1) :: (a2, v2) :: rest) fb)
      with (if (a >=? a1) && (a <=? a2)
            then v1 + ((a - a1) / (a2 - a1)) * (v2 - v1)
            else interpolate_scan a ((a2, v2) :: rest) fb).
    destruct (Qleb_spec a a2); [lra|]. rewrite andb_false_r.
    now apply IH.
Qed.

Lemma last_cons_default (A : Type) (x : A) (l : list A) (d d' : A) :
  last (x :: l) d = last (x :: l) d'.
Proof.
  revert x. induction l as [|y l IH]; intro x; [reflexivity|].
  change (last (y :: l) d = last (y :: l) d'). apply IH.
Qed.

Lemma last_In_or (A : Type) (l : list A) (d : A) : l <> [] -> In (last l d) l.
Proof.
  induction l as [|a l IH]; [congruence|]. intros _.
  destruct l as [|b l]; [left; reflexivity|].
  right. apply IH. discriminate.
Qed.

(** In a table of increasing ages the last keyframe has the greatest
    age, and it is the only one there. *)
Lemma ages_increasing_last (a1 v1 a v : Q) (rest : list (Q * Q)) :
  ages_increasing ((a1, v1) :: rest) -> In (a, v) ((a1, v1) :: rest) ->
  a <= fst (last ((a1, v1) :: rest) (a1, v1)) /\
  (fst (last ((a1, v1) :: rest) (a1, v1)) <= a ->
   v = snd (last ((a1, v1) :: rest) (a1, v1))).
Proof.
  revert a1 v1 a v.
  induction rest as [|[a2 v2] rest IH]; intros a1 v1 a v H Hin.
  - destruct Hin as [E|[]]. injection E as <- <-. simpl. split; [lra|auto].
  - pose proof H as [H12 H'].
    assert (El : last ((a1, v1) :: (a2, v2) :: rest) (a1, v1)
                 = last ((a2, v2) :: rest) (a2, v2)).
    { change (last ((a1, v1) :: (a2, v2) :: rest) (a1, v1))
        with (last ((a2, v2) :: rest) (a1, v1)).
      apply last_cons_default. }
    rewrite El.
    assert (Hge : a2 <= fst (last ((a2, v2) :: rest) (a2, v2))).
    { apply (IH a2 v2 a2 v2 H'). left. reflexivity. }
    destruct Hin as [E|Hin].
    + injection E as <- <-. split; [lra|]. intro Hc. lra.
    + exact (IH a2 v2 a v H' Hin).
Qed.


(** X10. On a table with ages in increasing order the interpolation is
    exact at every keyframe: at the age of a keyframe it returns the
    value of that keyframe (the flat ends and the first bracketing
    segment agree there). *)
Theorem interpolate_at_keyframe (keyframes : list (Q * Q)) (a v : Q) :
  ages_increasing keyframes -> In (a, v) keyframes ->
  interpolate a keyframes == v.
Proof.
  intros H Hin. unfold interpolate.
  destruct keyframes as [|[a0 v0] rest]; [destruct Hin|].
  destruct (ages_increasing_last _ _ _ _ _ H Hin) as [Hle Hlast].
  destruct (last ((a0, v0) :: rest) (a0, v0)) as [an vn] eqn:El.
  simpl in Hle, Hlast.
  destruct Hin as [E|Hin].
  - injection E as <- <-. destruct (Qleb_spec a0 a0); [reflexivity | lra].
  - pose proof (ages_increasing_In _ _ _ _ _ H Hin) as Hlt.
    destruct (Qleb_spec a a0); [lra|].
    destruct (Qleb_spec an a) as [Hge|Hlt'].
    + rewrite (Hlast Hge). reflexivity.
    + now apply interpolate_scan_at_keyframe.
Qed.

Lemma interpolate_at_keyframe_witness : interpolate 18 tstKeyframes == 480.
Proof.
  apply interpolate_at_keyframe.
  - simpl. repeat split; lra.
  - simpl. tauto.
Defined.

(** *** Monotone tables *)

Lemma values_nonincreasing_In (a1 v1 a v : Q) (rest : list (Q * Q)) :
  values_nonincreasing ((a1, v1) :: rest) -> In (a, v) rest -> v <= v1.
Proof.
  revert a1 v1. induction rest as [|[a2 v2] rest IH]; intros a1 v1 H Hin;
    [destruct Hin|].
  destruct H as [H12 H]. destruct Hin as [E|Hin].
  - injection E as <- <-. exact H12.
  - specialize (IH a2 v2 H Hin). lra.
Qed.

Lemma values_nonincreasing_last (a1 v1 : Q) (rest : list (Q * Q)) :
  values_nonincreasing ((a1, v1) :: rest) ->
  forall a v, In (a, v) ((a1, v1) :: rest) ->
    snd (last ((a1, v1) :: rest) (a1, v1)) <= v.
Proof.
  revert a1 v1. induction rest as [|[a2 v2] rest IH]; intros a1 v1 H a v Hin.
  - destruct Hin as [E|[]]. injection E as <- <-. simpl. lra.
  - pose proof H as [H12 H'].
    change (last ((a1, v1) :: (a2, v2) :: rest) (a1, v1))
      with (last ((a2, v2) :: rest) (a1, v1)).
    rewrite (last_cons_default _ _ _ (a1, v1) (a2, v2)).
    destruct Hin as [E|Hin].
    + injection E as <- <-.
      assert (Hl : snd (last ((a2, v2) :: rest) (a2, v2)) <= v2)
        by (apply (IH a2 v2 H' a2 v2); left; reflexivity).
      lra.
    + exact (IH a2 v2 H' a v Hin).
Qed.

(** The scan on a table of non-increasing values, from the first age on:
    between the fallback and the first value, and non-increasing. *)
Lemma interpolate_scan_nonincreasing (a1 v1 fb : Q) (rest : list (Q * Q)) :
  ages_increasing ((a1, v1) :: rest) ->
  values_nonincreasing ((a1, v1) :: rest) ->
  (forall a v, In (a, v) ((a1, v1) :: rest) -> fb <= v) ->
  forall x : Q, a1 <= x ->
    (fb <= interpolate_scan x ((a1, v1) :: rest) fb <= v1) /\
    forall y : Q, x <= y ->
      interpolate_scan y ((a1, v1) :: rest) fb
        <= interpolate_scan x ((a1, v1) :: rest) fb.
Proof.
  revert a1 v1. induction rest as [|[a2 v2] rest IH];
    intros a1 v1 Ha Hv Hfb x Hx.
  - simpl. assert (fb <= v1) by (apply (Hfb a1 v1); left; reflexivity).
    split; [lra | intros; lra].
  - destruct Ha as [Ha12 Ha]. destruct Hv as [Hv12 Hv].
    assert (Hfb' : forall a v, In (a, v) ((a2, v2) :: rest) -> fb <= v)
      by (intros a v Hin; apply (Hfb a v); right; exact Hin).
    assert (Hfb2 : fb <= v2) by (apply (Hfb' a2 v2); left; reflexivity).
    assert (Eq : forall z,
              interpolate_scan z ((a1, v1) :: (a2, v2) :: rest) fb
              = if (z >=? a1) && (z <=? a2)
                then v1 + ((z - a1) / (a2 - a1)) * (v2 - v1)
                else interpolate_scan z ((a2, v2) :: rest) fb)
      by reflexivity.
    rewrite Eq.
    destruct (Qleb_spec a1 x); [|lra].
    destruct (Qleb_spec x a2) as [Hin|Hout]; cbn [andb].
    + qdiv (x - a1) (a2 - a1).
      assert (Hq01 : 0 <= q <= 1) by (split; nra).
      split; [split; nra|].
      intros y Hy. rewrite Eq.
      destruct (Qleb_spec a1 y); [|lra].
      destruct (Qleb_spec y a2) as [Hyin|Hyout]; cbn [andb].
      * qdiv (y - a1) (a2 - a1).
        assert (Hqq : q <= q0) by nra. nra.
      * assert (Hy2 : a2 <= y) by lra.
        destruct (IH a2 v2 Ha Hv Hfb' y Hy2) as [[_ Hb] _]. nra.
    + assert (Hx2 : a2 <= x) by lra.
      destruct (IH a2 v2 Ha Hv Hfb' x Hx2) as [[Hlo Hhi] Hm].
      split; [split; lra|].
      intros y Hy. rewrite Eq.
      destruct (Qleb_spec a1 y); [|lra].
      destruct (Qleb_spec y a2); [lra|]. cbn [andb].
      now apply Hm.
Qed.

Lemma keyframes_ok_of_nonincreasing (a1 v1 : Q) (rest : list (Q * Q)) :
  ages_increasing ((a1, v1) :: rest) ->
  values_nonincreasing ((a1, v1) :: rest) ->
  forall lo hi : Q,
    v1 <= hi -> (forall a v, In (a, v) ((a1, v1) :: rest) -> lo <= v) ->
    keyframes_ok lo hi ((a1, v1) :: rest).
Proof.
  revert a1 v1. induction rest as [|[a2 v2] rest IH];
    intros a1 v1 Ha Hv lo hi Hhi Hlo.
  - simpl. assert (lo <= v1) by (apply (Hlo a1 v1); left; reflexivity).
    repeat split; lra.
  - destruct Ha as [Ha12 Ha]. destruct Hv as [Hv12 Hv].
    assert (lo <= v1) by (apply (Hlo a1 v1); left; reflexivity).
    split; [split; lra|]. split; [exact Ha12|].
    apply IH; try assumption; [lra|].
    intros a v Hin. apply (Hlo a v). right. exact Hin.
Qed.

Lemma interpolate_antitone (keyframes : list (Q * Q)) (x y : Q) :
  ages_increasing keyframes -> values_nonincreasing keyframes ->
  x <= y -> interpolate y keyframes <= interpolate x keyframes.
Proof.
  intros Ha Hv Hxy.
  destruct keyframes as [|[a0 v0] rest]; [simpl; lra|].
  pose proof (values_nonincreasing_last _ _ _ Hv) as Hlast.
  assert (Hb : forall z, snd (last ((a0, v0) :: rest) (a0, v0))
                         <= interpolate z ((a0, v0) :: rest) <= v0).
  { intro z. apply interpolate_bounds; [discriminate|].
    apply keyframes_ok_of_nonincreasing; try assumption; lra. }
  pose proof (Hb x) as Hbx. pose proof (Hb y) as Hby.
  unfold interpolate in *.
  destruct (last ((a0, v0) :: rest) (a0, v0)) as [an vn] eqn:El.
  cbn [snd] in Hlast, Hbx, Hby, Hb.
  destruct (Qleb_spec x a0) as [Hx0|Hx0]; [lra|].
  destruct (Qleb_spec y a0) as [Hy0|Hy0]; [lra|].
  destruct (Qleb_spec an y) as [Hyn|Hyn]; [lra|].
  destruct (Qleb_spec an x) as [Hxn|Hxn]; [lra|].
  assert (Hx : a0 <= x) by lra.
  destruct (interpolate_scan_nonincreasing a0 v0 vn rest Ha Hv Hlast x Hx)
    as [_ Hm].
  now apply Hm.
Qed.

(** The table with negated values interpolates to the negated value. *)
Lemma interpolate_scan_negate (x fb : Q) (keyframes : list (Q * Q)) :
  interpolate_scan x (negate_values keyframes) (- fb)
  == - interpolate_scan x keyframes fb.
Proof.
  induction keyframes as [|[a1 v1] rest IH]; [reflexivity|].
  destruct rest as [|[a2 v2] rest]; [reflexivity|].
  change (interpolate_scan x (negate_values ((a1, v1) :: (a2, v2) :: rest)) (- fb))
    with (if (x >=? a1) && (x <=? a2)
          then - v1 + ((x - a1) / (a2 - a1)) * (- v2 - - v1)
          else interpolate_scan x (negate_values ((a2, v2) :: rest)) (- fb)).
  change (interpolate_scan x ((a1, v1) :: (a2, v2) :: rest) fb)
    with (if (x >=? a1) && (x <=? a2)
          then v1 + ((x - a1) / (a2 - a1)) * (v2 - v1)
          else interpolate_scan x ((a2, v2) :: rest) fb).
  destruct ((x >=? a1) && (x <=? a2)); [|exact IH].
  set (t := (x - a1) / (a2 - a1)). ring.
Qed.

Lemma last_negate_values (keyframes : list (Q * Q)) (d : Q * Q) :
  last (negate_values keyframes) (fst d, - snd d)
  = (fst (last keyframes d), - snd (last keyframes d)).
Proof.
  induction keyframes as [|kv rest IH]; [reflexivity|].
  destruct rest as [|kv' rest]; [reflexivity|].
  change (last (negate_values (kv :: kv' :: rest)) (fst d, - snd d))
    with (last (negate_values (kv' :: rest)) (fst d, - snd d)).
  rewrite IH. reflexivity.
Qed.

Lemma interpolate_negate (x : Q) (keyframes : list (Q * Q)) :
  interpolate x (negate_values keyframes) == - interpolate x keyframes.
Proof.
  destruct keyframes as [|[a0 v0] rest]; [reflexivity|].
  change (interpolate x (negate_values ((a0, v0) :: rest)))
    with (let '(an, vn) := last (negate_values ((a0, v0) :: rest)) (a0, - v0) in
          if x <=? a0 then - v0
          else if x >=? an then vn
          else interpolate_scan x (negate_values ((a0, v0) :: rest)) vn).
  pose proof (last_negate_values ((a0, v0) :: rest) (a0, v0)) as El.
  cbn [fst snd] in El. rewrite El.
  unfold interpolate.
  destruct (last ((a0, v0) :: rest) (a0, v0)) as [an vn]. cbn [fst snd].
  destruct (x <=? a0); [reflexivity|].
  destruct (x >=? an); [reflexivity|].
  apply interpolate_scan_negate.
Qed.

Lemma negate_values_monotone (keyframes : list (Q * Q)) :
  (ages_increasing keyframes -> ages_increasing (negate_values keyframes)) /\
  (values_nondecreasing keyframes ->
   values_nonincreasing (negate_values keyframes)).
Proof.
  induction keyframes as [|[a1 v1] rest [IHa IHv]]; [split; trivial|].
  destruct rest as [|[a2 v2] rest].
  - split; intro; simpl; tauto.
  - split; intros [H1 H2].
    + split; [exact H1 | exact (IHa H2)].
    + split; [simpl; lra | exact (IHv H2)].
Qed.

Lemma interpolate_isotone (keyframes : list (Q * Q)) (x y : Q) :
  ages_increasing keyframes -> values_nondecreasing keyframes ->
  x <= y -> interpolate x keyframes <= interpolate y keyframes.
Proof.
  intros Ha Hv Hxy.
  destruct (negate_values_monotone keyframes) as [Na Nv].
  pose proof (interpolate_antitone _ x y (Na Ha) (Nv Hv) Hxy) as H.
  rewrite !interpolate_negate in H. lra.
Qed.

(** X11. On a table with ages in increasing order, the interpolation
    follows the table: values that never increase give an output that
    never increases with the age, and values that never decrease give an
    output that never decreases. *)
Theorem interpolate_follows_table (keyframes : list (Q * Q)) (x y : Q) :
  ages_increasing keyframes -> x <= y ->
  (values_nonincreasing keyframes ->
   interpolate y keyframes <= interpolate x keyframes) /\
  (values_nondecreasing keyframes ->
   interpolate x keyframes <= interpolate y keyframes).
Proof.
  intros Ha Hxy. split; intro Hv.
  - now apply interpolate_antitone.
  - now apply interpolate_isotone.
Qed.

Lemma interpolate_follows_table_witness :
  interpolate 70 tstKeyframes <= interpolate 30 tstKeyframes /\
  interpolate 30 wasoKeyframes <= interpolate 70 wasoKeyframes.
Proof.
  assert (H : 30 <= 70) by lra.
  split.
  - apply (interpolate_follows_table tstKeyframes 30 70); try exact H;
      simpl; repeat split; lra.
  - apply (interpolate_follows_table wasoKeyframes 30 70); try exact H;
      simpl; repeat split; lra.
Defined.

(** X12. The age profile is monotone in the age: from one age to a
    greater one the total-sleep target, the N3 fraction and the REM
    fraction never increase, and the N1 fraction and the WASO target
    never decrease. *)
Theorem getAgeProfile_monotone (a b : Q) :
  a <= b ->
  tst (getAgeProfile b) <= tst (getAgeProfile a) /\
  n3P (getAgeProfile b) <= n3P (getAgeProfile a) /\
  remP (getAgeProfile b) <= remP (getAgeProfile a) /\
  n1P (getAgeProfile a) <= n1P (getAgeProfile b) /\
  wasoMins (getAgeProfile a) <= wasoMins (getAgeProfile b).
Proof.
  intro Hab.
  destruct (getAgeProfile_fields a) as (-> & -> & -> & -> & -> & _).
  destruct (getAgeProfile_fields b) as (-> & -> & -> & -> & -> & _).
  split; [|split; [|split; [|split]]].
  - apply interpolate_antitone; try exact Hab; simpl; repeat split; lra.
  - apply interpolate_antitone; try exact Hab; simpl; repeat split; lra.
  - apply interpolate_antitone; try exact Hab; simpl; repeat split; lra.
  - apply interpolate_isotone; try exact Hab; simpl; repeat split; lra.
  - apply interpolate_isotone; try exact Hab; simpl; repeat split; lra.
Qed.

Lemma getAgeProfile_monotone_witness :
  tst (getAgeProfile 70) <= tst (getAgeProfile 30) /\
  n3P (getAgeProfile 70) <= n3P (getAgeProfile 30) /\
  remP (getAgeProfile 70) <= remP (getAgeProfile 30) /\
  n1P (getAgeProfile 30) <= n1P (getAgeProfile 70) /\
  wasoMins (getAgeProfile 30) <= wasoMins (getAgeProfile 70).
Proof. apply getAgeProfile_monotone. lra. Defined.
(** ** The caffeine block of the sleep-drive curve *)

(** X13. The curve parameters take the half-life that the engine uses
    for the same metabolism.  The caffeine block drawn with them is 0
    before the intake, lies between 0 and a tenth of the cups after it,
    and at bedtime ([t = sleepStart], caffeine taken [caffeineTime] hours
    before) it is a tenth of the engine's active caffeine. *)
Theorem caffeineBlock_matches_engine
    (Math_pow : Q -> Q -> Q) (c : Config) (tib sleepStart t : Q) :
  let models :=
    TwoProcessModel.getCurves tib (chronotype c) (caffeine c)
      (caffeineTime c) (caffeineMetabolism c) (blueLight c) in
  TwoProcessModel.halfLife models = halfLife c /\
  (t < sleepStart - caffeineTime c * 60 ->
   TwoProcessModel.caffeineBlock Math_pow models sleepStart t = 0) /\
  (pow_half_unit Math_pow -> 0 <= caffeine c ->
   0 <= TwoProcessModel.caffeineBlock Math_pow models sleepStart t
     <= 0.1 * caffeine c) /\
  ((forall x y : Q, x == y -> Math_pow 0.5 x == Math_pow 0.5 y) ->
   0 < caffeine c -> 0 <= caffeineTime c ->
   TwoProcessModel.caffeineBlock Math_pow models sleepStart sleepStart
   == 0.1 * activeCaffeine Math_pow c).
Proof.
  cbv zeta.
  assert (Eh : TwoProcessModel.halfLife
                 (TwoProcessModel.getCurves tib (chronotype c) (caffeine c)
                    (caffeineTime c) (caffeineMetabolism c) (blueLight c))
               = halfLife c).
  { unfold TwoProcessModel.getCurves, halfLife. cbv zeta.
    destruct (caffeineMetabolism c); reflexivity. }
  pose proof (halfLife_pos c) as Hh.
  split; [exact Eh|].
  unfold TwoProcessModel.caffeineBlock. cbv zeta. rewrite Eh.
  cbn [TwoProcessModel.getCurves TwoProcessModel.caffeine
       TwoProcessModel.caffeineTime].
  split; [|split].
  - intro Hlt.
    destruct (Qleb_spec (sleepStart - caffeineTime c * 60) t); [lra|].
    now rewrite andb_false_r.
  - intros Hp Hc.
    destruct (Qltb_spec 0 (caffeine c));
      destruct (Qleb_spec (sleepStart - caffeineTime c * 60) t);
      cbn [andb]; try lra.
    assert (Hx : 0 <= (t - (sleepStart - caffeineTime c * 60)) / 60 / halfLife c).
    { apply Qle_shift_div_l; [exact Hh|].
      rewrite Qmult_0_l. apply Qle_shift_div_l; lra. }
    specialize (Hp _ Hx).
    set (w := Math_pow 0.5 _) in *. clearbody w. split; nra.
  - intros Hproper Hc Ht.
    destruct (Qltb_spec 0 (caffeine c)); [|lra].
    destruct (Qleb_spec (sleepStart - caffeineTime c * 60) sleepStart); [|lra].
    cbn [andb]. unfold activeCaffeine.
    assert (Ex : (sleepStart - (sleepStart - caffeineTime c * 60)) / 60 / halfLife c
                 == caffeineTime c / halfLife c) by (field; lra).
    rewrite (Hproper _ _ Ex). ring.
Qed.

Lemma pow_sample_proper (x y : Q) : x == y -> pow_sample 0.5 x == pow_sample 0.5 y.
Proof.
  intro E. unfold pow_sample. cbv zeta.
  rewrite (Qfloor_comp _ _ E), E. reflexivity.
Qed.

Lemma caffeineBlock_matches_engine_witness :
  TwoProcessModel.caffeineBlock pow_sample
    (TwoProcessModel.getCurves 500 (chronotype config_70) (caffeine config_70)
       (caffeineTime config_70) (caffeineMetabolism config_70)
       (blueLight config_70)) 420 100 = 0 /\
  0 <= TwoProcessModel.caffeineBlock pow_sample
         (TwoProcessModel.getCurves 500 (chronotype config_70)
            (caffeine config_70) (caffeineTime config_70)
            (caffeineMetabolism config_70) (blueLight config_70)) 420 100
    <= 0.1 * caffeine config_70 /\
  TwoProcessModel.caffeineBlock pow_sample
    (TwoProcessModel.getCurves 500 (chronotype config_70) (caffeine config_70)
       (caffeineTime config_70) (caffeineMetabolism config_70)
       (blueLight config_70)) 420 420
  == 0.1 * activeCaffeine pow_sample config_70.
Proof.
  destruct (caffeineBlock_matches_engine pow_sample config_70 500 420 100)
    as (_ & H1 & H2 & _).
  destruct (caffeineBlock_matches_engine pow_sample config_70 500 420 420)
    as (_ & _ & _ & H3).
  split; [apply H1; simpl; lra|].
  split; [apply H2; [exact pow_sample_half_unit | simpl; lra]|].
  apply H3; [exact pow_sample_proper | simpl; lra | simpl; lra].
Defined.

(** ** The event handlers *)

Lemma counter_set_counter (key : App.CounterKey) (v : Q) (s : Config) :
  App.counter key (App.set_counter key v s) = v.
Proof. destruct key; reflexivity. Qed.

Lemma clamp_range (x : Q) :
  0 <= Qmax 0 (Qmin 10 x) <= 10 /\
  (0 <= x <= 10 -> Qmax 0 (Qmin 10 x) == x).
Proof.
  destruct (Qmin_cases 10 x) as [[? Hm]|[? Hm]];
    destruct (Qmax_cases 0 (Qmin 10 x)) as [[? Hx]|[? Hx]];
    set (m := Qmin 10 x) in *; clearbody m;
    set (w := Qmax 0 m) in *; clearbody w; split; lra.
Qed.

(** X14. A click on a counter leaves it between 0 and 10 whatever it was
    and whatever the change; it adds the change when the sum stays in
    that range; it touches no other field; and it keeps a state in the
    documented ranges in them. *)
Theorem updateCounter_clamps
    (key : App.CounterKey) (change : Q) (s : Config) :
  0 <= App.counter key (App.updateCounter key change s) <= 10 /\
  (0 <= App.counter key s + change <= 10 ->
   App.counter key (App.updateCounter key change s)
   == App.counter key s + change) /\
  (forall key' : App.CounterKey, key' <> key ->
     App.counter key' (App.updateCounter key change s) = App.counter key' s) /\
  (age (App.updateCounter key change s) = age s /\
   gender (App.updateCounter key change s) = gender s /\
   caffeineTime (App.updateCounter key change s) = caffeineTime s /\
   caffeineMetabolism (App.updateCounter key change s) = caffeineMetabolism s /\
   sdbSeverity (App.updateCounter key change s) = sdbSeverity s /\
   chronotype (App.updateCounter key change s) = chronotype s /\
   socialJetLag (App.updateCounter key change s) = socialJetLag s /\
   blueLight (App.updateCounter key change s) = blueLight s /\
   isMenopausal (App.updateCounter key change s) = isMenopausal s) /\
  (valid_config s -> valid_config (App.updateCounter key change s)).
Proof.
  unfold App.updateCounter.
  destruct (clamp_range (App.counter key s + change)) as [Hc Hid].
  split; [rewrite counter_set_counter; exact Hc|].
  split.
  { intro Hin. rewrite counter_set_counter. exact (Hid Hin). }
  split.
  { intros key' Hne. destruct key, key'; try congruence; reflexivity. }
  split; [destruct key; repeat split; reflexivity|].
  intros (Ha & Hal & Hcf & Hct & Hsd & Hn).
  set (v := Qmax 0 (Qmin 10 (App.counter key s + change))) in *.
  unfold valid_config. destruct key; simpl; repeat split; lra.
Qed.

Lemma updateCounter_clamps_witness :
  0 <= App.counter App.key_caffeine
         (App.updateCounter App.key_caffeine 1 config_90) <= 10 /\
  App.counter App.key_alcohol (App.updateCounter App.key_alcohol 1 config_70)
  == App.counter App.key_alcohol config_70 + 1 /\
  App.counter App.key_nocturia (App.updateCounter App.key_alcohol 1 config_70)
  = App.counter App.key_nocturia config_70 /\
  valid_config (App.updateCounter App.key_alcohol 1 config_70).
Proof.
  destruct (updateCounter_clamps App.key_caffeine 1 config_90) as (H1 & _).
  destruct (updateCounter_clamps App.key_alcohol 1 config_70)
    as (_ & H2 & H3 & _ & H4).
  split; [exact H1|].
  split; [apply H2; simpl; lra|].
  split; [apply H3; discriminate|].
  apply H4, valid_config_70.
Defined.

Ltac conjs := repeat match goal with |- _ /\ _ => split end.

Lemma menopauseVisible_spec (s : Config) :
  App.menopauseVisible s = true <->
  gender s = female /\ 40 <= age s <= 60.
Proof.
  unfold App.menopauseVisible.
  destruct (Qleb_spec 40 (age s)); destruct (Qleb_spec (age s) 60);
    destruct (gender s); simpl; split;
    try discriminate; try (intros [Hg Hr]; try discriminate; lra);
    intros _; repeat split; lra.
Qed.

Lemma menopauseGate_ok (s : Config) :
  isMenopausal (App.menopauseGate s) = true ->
  gender (App.menopauseGate s) = female /\
  40 <= age (App.menopauseGate s) <= 60.
Proof.
  unfold App.menopauseGate.
  destruct (App.menopauseVisible s) eqn:E; [|discriminate].
  intros _. now apply menopauseVisible_spec.
Qed.

Lemma menopauseGate_counters (s : Config) :
  alcohol (App.menopauseGate s) = alcohol s /\
  caffeine (App.menopauseGate s) = caffeine s /\
  nocturia (App.menopauseGate s) = nocturia s /\
  age (App.menopauseGate s) = age s /\
  sdbSeverity (App.menopauseGate s) = sdbSeverity s /\
  caffeineTime (App.menopauseGate s) = caffeineTime s.
Proof.
  unfold App.menopauseGate. destruct (App.menopauseVisible s);
    repeat split; reflexivity.
Qed.

Lemma handle_ok (s : Config) (e : App.Event) :
  App.profile_ok s ->
  match e with
  | App.MenopauseToggle _ => App.menopauseVisible s = true
  | _ => True
  end ->
  App.profile_ok (App.handle s e).
Proof.
  intros (Hal & Hcf & Hn & Hm) He. unfold App.profile_ok.
  destruct e; cbn [App.handle];
    try (simpl; conjs; try lra; exact Hm).
  - unfold App.updateCounter.
    destruct (clamp_range (App.counter key s + change)) as [Hc _].
    set (v := Qmax 0 (Qmin 10 (App.counter key s + change))) in *.
    destruct key; simpl; conjs; try lra; exact Hm.
  - destruct (menopauseGate_counters (App.set_age (inject_Z val) s))
      as (-> & -> & -> & _).
    simpl. conjs; try lra. apply menopauseGate_ok.
  - apply menopauseVisible_spec in He.
    simpl. conjs; try lra. intros _. exact He.
  - destruct (menopauseGate_counters (App.set_gender g s))
      as (-> & -> & -> & _).
    simpl. conjs; try lra. apply menopauseGate_ok.
Qed.

Lemma menopauseVisible_gate (s : Config) :
  App.menopauseVisible (App.menopauseGate s) = App.menopauseVisible s.
Proof.
  unfold App.menopauseGate. destruct (App.menopauseVisible s) eqn:E;
    [exact E|]. exact E.
Qed.

Lemma handle_keeps_window (s : Config) (e : App.Event) :
  match e with
  | App.AgeInput _ | App.GenderChange _ => False
  | _ => True
  end ->
  App.menopauseVisible (App.handle s e) = App.menopauseVisible s.
Proof.
  destruct e; intro He; try contradiction; try reflexivity.
  destruct key; reflexivity.
Qed.

Lemma step_ok (st : App.Store) (a : App.Action) :
  App.possible st a -> App.store_ok st -> App.store_ok (App.step st a).
Proof.
  intros Hp (HA & HB & Hs).
  destruct a as [e|p|checked].
  - assert (Hact : App.profile_ok
                     (App.handle (App.states st (App.activeProfile st)) e)).
    { apply handle_ok.
      - destruct (App.activeProfile st); assumption.
      - destruct e; try exact I. apply Hs. exact Hp. }
    assert (Hshown :
              (match e with
               | App.AgeInput _ | App.GenderChange _ =>
                   App.menopauseVisible
                     (App.handle (App.states st (App.activeProfile st)) e)
               | _ => App.menopauseShown st
               end) = true ->
              App.menopauseVisible
                (App.handle (App.states st (App.activeProfile st)) e) = true).
    { destruct e; try (intro H; exact H);
        intro H; rewrite handle_keeps_window by exact I; apply Hs; exact H. }
    unfold App.step. cbv zeta.
    set (s' := App.handle (App.states st (App.activeProfile st)) e) in *.
    set (shown := match e with
                  | App.AgeInput _ | App.GenderChange _ =>
                      App.menopauseVisible s'
                  | _ => App.menopauseShown st
                  end) in *.
    clearbody shown s'.
    unfold App.store_ok, App.set_state.
    destruct (App.activeProfile st) eqn:Ea; simpl; rewrite ?Ea; simpl;
      conjs; assumption.
  - unfold App.step, App.switchProfile, App.store_ok. simpl.
    conjs; try assumption. destruct p; intro H; exact H.
  - unfold App.step. destruct checked; [unfold App.store_ok; tauto|].
    unfold App.switchProfile, App.store_ok. simpl.
    conjs; try assumption. intro H; exact H.
Qed.

(** X15. From the store at load with the menopause group hidden, after
    any sequence of inputs, tab clicks and compare toggles (the menopause
    toggle firing only while its group is shown, and the counters moved
    by their buttons only), in both profiles the three counters lie
    between 0 and 10 and [isMenopausal] is set only for a woman of 40 to
    60; and the menopause group is shown only if the active profile is
    one. *)
Theorem handlers_keep_store_ok (acts : list App.Action) :
  App.possible_run (App.initialStore false) acts ->
  let st := fold_left App.step acts (App.initialStore false) in
  (forall p : App.ProfileId,
     0 <= alcohol (App.states st p) <= 10 /\
     0 <= caffeine (App.states st p) <= 10 /\
     0 <= nocturia (App.states st p) <= 10 /\
     (isMenopausal (App.states st p) = true ->
      gender (App.states st p) = female /\
      40 <= age (App.states st p) <= 60)) /\
  (App.menopauseShown st = true ->
   gender (App.states st (App.activeProfile st)) = female /\
   40 <= age (App.states st (App.activeProfile st)) <= 60).
Proof.
  intro Hrun. cbv zeta.
  assert (H : forall st0,
            App.possible_run st0 acts -> App.store_ok st0 ->
            App.store_ok (fold_left App.step acts st0)).
  { clear Hrun. induction acts as [|a acts IH]; intros st0 Hr Hi; [exact Hi|].
    destruct Hr as [Ha Hr]. simpl.
    apply (IH (App.step st0 a) Hr). exact (step_ok st0 a Ha Hi). }
  destruct (H (App.initialStore false) Hrun) as (HA & HB & Hs).
  { unfold App.store_ok, App.profile_ok, App.initialStore, App.defaultState.
    simpl. conjs; try lra; discriminate. }
  split.
  - intros [|]; [exact HA | exact HB].
  - intro E. apply menopauseVisible_spec. exact (Hs E).
Qed.

Lemma handlers_keep_store_ok_witness :
  let st := fold_left App.step
              [App.Input (App.GenderChange female);
               App.Input (App.AgeInput 45);
               App.Input (App.MenopauseToggle true);
               App.CompareToggle true;
               App.TabClick App.profile_B;
               App.Input (App.CounterClick App.key_caffeine 11);
               App.Input (App.AgeInput 50);
               App.TabClick App.profile_A;
               App.Input (App.AgeInput 70)]
              (App.initialStore false) in
  (forall p : App.ProfileId,
     0 <= alcohol (App.states st p) <= 10 /\
     0 <= caffeine (App.states st p) <= 10 /\
     0 <= nocturia (App.states st p) <= 10 /\
     (isMenopausal (App.states st p) = true ->
      gender (App.states st p) = female /\
      40 <= age (App.states st p) <= 60)) /\
  caffeine (App.states st App.profile_B) == 10 /\
  isMenopausal (App.states st App.profile_A) = false.
Proof.
  cbv zeta.
  destruct (handlers_keep_store_ok
              [App.Input (App.GenderChange female);
               App.Input (App.AgeInput 45);
               App.Input (App.MenopauseToggle true);
               App.CompareToggle true;
               App.TabClick App.profile_B;
               App.Input (App.CounterClick App.key_caffeine 11);
               App.Input (App.AgeInput 50);
               App.TabClick App.profile_A;
               App.Input (App.AgeInput 70)])
    as (H1 & _).
  - simpl. repeat split.
  - split; [exact H1|]. split; reflexivity.
Defined.

(** ** The viewport of the chart *)

Section ViewportFacts.

Variables canvas_width canvas_height : Q.
Variable params : Params.t.

Lemma viewport_shape :
  exists m : Q,
    60 <= m /\
    Chart.viewStart params == Chart.sleepStart params - m /\
    Chart.viewEnd params == Chart.sleepEnd params + m /\
    Chart.totalViewMins params == Qmax 600 (Params.tib params + 120) /\
    (0 <= Params.tib params -> m <= 300).
Proof.
  unfold Chart.totalViewMins, Chart.viewStart, Chart.viewEnd, Chart.viewport,
    Chart.sleepEnd. cbv zeta.
  set (s := Chart.sleepStart params). set (tib := Params.tib params).
  assert (E : (600 - (s + tib + 60 - (s - 60))) / 2
              == (600 - (tib + 120)) * 0.5) by field.
  destruct (Qmax_cases 600 (tib + 120)) as [[Hc Hm]|[Hc Hm]];
    set (mx := Qmax 600 (tib + 120)) in *; clearbody mx;
    (destruct (Qltb_spec (s + tib + 60 - (s - 60)) 600); cbn [fst snd];
     [ exists (60 + (600 - (tib + 120)) * 0.5); rewrite E
     | exists 60 ]; repeat split; lra).
Qed.

Lemma totalViewMins_pos : 600 <= Chart.totalViewMins params.
Proof.
  destruct viewport_shape as (m & _ & _ & _ & E & _). rewrite E.
  apply Q.le_max_l.
Qed.

(** [timeToX] is the affine map of slope [width / totalViewMins] that
    sends [viewStart] to the left edge of the plot. *)
Lemma timeToX_affine (t : Q) :
  Chart.timeToX canvas_width params t
  == Chart.left Chart.padding
     + (t - Chart.viewStart params)
       * (Chart.width canvas_width / Chart.totalViewMins params).
Proof.
  unfold Chart.timeToX. pose proof totalViewMins_pos. field. lra.
Qed.

Lemma timeToX_slope :
  (Chart.width canvas_width / Chart.totalViewMins params)
  * Chart.totalViewMins params == Chart.width canvas_width /\
  (0 <= Chart.width canvas_width ->
   0 <= Chart.width canvas_width / Chart.totalViewMins params).
Proof.
  pose proof totalViewMins_pos as Hpos.
  split; [field; lra|]. intro Hw.
  apply Qle_shift_div_l; lra.
Qed.

Lemma timeToX_monotone (t1 t2 : Q) :
  0 <= Chart.width canvas_width -> t1 <= t2 ->
  Chart.timeToX canvas_width params t1 <= Chart.timeToX canvas_width params t2.
Proof.
  intros Hw Ht. rewrite !timeToX_affine.
  destruct timeToX_slope as [_ Hk]. specialize (Hk Hw).
  set (k := Chart.width canvas_width / Chart.totalViewMins params) in *.
  clearbody k. nra.
Qed.

Lemma timeToX_viewStart :
  Chart.timeToX canvas_width params (Chart.viewStart params)
  == Chart.left Chart.padding.
Proof. rewrite timeToX_affine. ring. Qed.

Lemma timeToX_viewEnd :
  Chart.timeToX canvas_width params (Chart.viewEnd params)
  == canvas_width - Chart.right Chart.padding.
Proof.
  rewrite timeToX_affine. destruct timeToX_slope as [E _].
  unfold Chart.totalViewMins in E at 2.
  set (k := Chart.width canvas_width / Chart.totalViewMins params) in *.
  clearbody k. unfold Chart.width in E. lra.
Qed.

Lemma timeToX_in_plot (t : Q) :
  0 <= Chart.width canvas_width ->
  Chart.viewStart params <= t <= Chart.viewEnd params ->
  Chart.left Chart.padding <= Chart.timeToX canvas_width params t
  <= canvas_width - Chart.right Chart.padding.
Proof.
  intros Hw [H1 H2].
  rewrite <- timeToX_viewStart, <- timeToX_viewEnd.
  split; apply timeToX_monotone; assumption.
Qed.

(** X16. The viewport is the night with the same margin of at least an
    hour on either side, and it spans [max(600, tib + 120)] minutes, so
    [timeToX] never divides by zero; [timeToX] sends the ends of the
    viewport to the left and right edges of the plot and, on a canvas at
    least as wide as the padding, it is monotone; with a time in bed that
    is not negative the marker of the end of sleep is drawn. *)
Theorem viewport_frames_night :
  Chart.totalViewMins params == Qmax 600 (Params.tib params + 120) /\
  Chart.sleepStart params - Chart.viewStart params
    == Chart.viewEnd params - Chart.sleepEnd params /\
  60 <= Chart.sleepStart params - Chart.viewStart params /\
  Chart.timeToX canvas_width params (Chart.viewStart params)
    == Chart.left Chart.padding /\
  Chart.timeToX canvas_width params (Chart.viewEnd params)
    == canvas_width - Chart.right Chart.padding /\
  (0 <= Chart.width canvas_width ->
   forall t1 t2 : Q, t1 <= t2 ->
     Chart.timeToX canvas_width params t1
     <= Chart.timeToX canvas_width params t2) /\
  (0 <= Params.tib params ->
   Chart.endOfSleepMarker canvas_width params
   = Some (Chart.timeToX canvas_width params (Chart.sleepEnd params))).
Proof.
  destruct viewport_shape as (m & Hm & Es & Ee & Et & _).
  split; [exact Et|]. split; [lra|]. split; [lra|].
  split; [exact timeToX_viewStart|]. split; [exact timeToX_viewEnd|].
  split; [intros Hw t1 t2; now apply timeToX_monotone|].
  intro Htib. unfold Chart.endOfSleepMarker.
  assert (Hse : Chart.sleepEnd params == Chart.sleepStart params + Params.tib params)
    by reflexivity.
  destruct (Qleb_spec (Chart.viewStart params) (Chart.sleepEnd params));
    [|lra].
  destruct (Qleb_spec (Chart.sleepEnd params) (Chart.viewEnd params));
    [reflexivity|lra].
Qed.

End ViewportFacts.

Lemma viewport_frames_night_witness :
  let params := Params.mk neutral 30 460 500 in
  Chart.totalViewMins params == 620 /\
  (forall t1 t2 : Q, t1 <= t2 ->
     Chart.timeToX 800 params t1 <= Chart.timeToX 800 params t2) /\
  Chart.endOfSleepMarker 800 params
  = Some (Chart.timeToX 800 params (Chart.sleepEnd params)).
Proof.
  cbv zeta.
  destruct (viewport_frames_night 800 (Params.mk neutral 30 460 500))
    as (H1 & _ & _ & _ & _ & H6 & H7).
  split; [rewrite H1; reflexivity|].
  split; [apply H6; vm_compute; discriminate|].
  apply H7. simpl. lra.
Defined.

(** ** What the chart draws of a result *)

Lemma Qmax_lt_r (x y : Q) : x < y -> Qmax x y = y.
Proof.
  intro H. unfold Qmax, GenericMinMax.gmax.
  now rewrite (proj1 (Qlt_alt x y) H).
Qed.

Lemma Qmin_gt_r (x y : Q) : y < x -> Qmin x y = y.
Proof.
  intro H. unfold Qmin, GenericMinMax.gmin.
  now rewrite (proj1 (Qgt_alt x y) H).
Qed.

(** The parameters of a result: the night starts at a time that is not
    negative and lasts at least ten minutes. *)
Lemma result_params
    (Math_pow : Q -> Q -> Q) (rnd : nat -> Q) (c : Config) (fuel : nat)
    (r : SimulationResult.t) :
  pow_half_unit Math_pow -> valid_config c ->
  generate Math_pow fuel rnd c = Some r ->
  0 <= Chart.sleepStart (params r) <= 690 /\
  10 <= Params.tib (params r) /\
  Stats.tib (stats r) = Params.tib (params r) /\
  Stats.tst (stats r) = Params.tst (params r) /\
  5 <= Params.tst (params r) /\
  Params.tst (params r) + 5 <= Params.tib (params r) /\
  0 <= Stats.latency (stats r).
Proof.
  intros Hp Hv E.
  destruct (generate_inv _ _ _ _ _ E) as (st & Er & ->).
  destruct (run_cycles_awake _ _ _ _ _ Hp Hv Er) as (Hs & Hw).
  destruct (run_cycles_accounting _ _ _ _ _ Er) as (_ & _ & Ha).
  pose proof (actualTST_sum (HypnogramGenerator.blocks st)) as Et.
  pose proof (startTimeOffset_bounds c) as Ho.
  pose proof (activeCaffeine_range Math_pow c Hp Hv) as Hc.
  pose proof (latency_lower Math_pow c (proj1 Hc)) as Hl.
  unfold Chart.sleepStart. simpl.
  set (t := actualTST (HypnogramGenerator.blocks st)) in *. clearbody t.
  repeat split; lra.
Qed.

Section Drawn.

Variables canvas_width canvas_height : Q.
Hypothesis canvas_wide : 0 <= Chart.width canvas_width.

Variable Math_pow : Q -> Q -> Q.
Variable rnd : nat -> Q.
Variable c : Config.
Variable fuel : nat.
Variable r : SimulationResult.t.
Hypothesis pow_ok : pow_half_unit Math_pow.
Hypothesis c_ok : valid_config c.
Hypothesis r_result : generate Math_pow fuel rnd c = Some r.

Lemma night_in_view (t : Q) :
  Chart.sleepStart (params r) <= t <= Chart.sleepEnd (params r) ->
  Chart.viewStart (params r) < t < Chart.viewEnd (params r).
Proof.
  destruct (viewport_shape (params r)) as (m & Hm & Es & Ee & _).
  intros [H1 H2]. lra.
Qed.

Lemma block_drawn (b : Block) :
  Chart.sleepStart (params r) <= start b ->
  0 <= duration b ->
  start b + duration b <= Chart.sleepEnd (params r) ->
  let x1 := Chart.timeToX canvas_width (params r) (start b) in
  let x2 := Chart.timeToX canvas_width (params r) (start b + duration b) in
  Chart.left Chart.padding <= x1 /\ x1 <= x2 /\
  x2 <= canvas_width - Chart.right Chart.padding /\
  Chart.blockRects canvas_width canvas_height (params r) b
  = if x2 - x1 <? 0.5 then []
    else [Chart.mkRect x1 (Chart.stageY canvas_height (stage b)) (x2 - x1)
            ((canvas_height - Chart.bottom Chart.padding)
             - Chart.stageY canvas_height (stage b));
          Chart.mkRect x1 (Chart.stageY canvas_height (stage b) - 1)
            (x2 - x1) 4].
Proof.
  intros Hs Hd He. cbv zeta.
  assert (H1 : Chart.viewStart (params r) < start b < Chart.viewEnd (params r))
    by (apply night_in_view; lra).
  assert (H2 : Chart.viewStart (params r) < start b + duration b
               < Chart.viewEnd (params r))
    by (apply night_in_view; lra).
  split; [apply timeToX_in_plot; [exact canvas_wide | lra]|].
  split; [apply timeToX_monotone; [exact canvas_wide | lra]|].
  split; [apply timeToX_in_plot; [exact canvas_wide | lra]|].
  unfold Chart.blockRects. cbv zeta.
  destruct (Qltb_spec (start b + duration b) (Chart.viewStart (params r)));
    [lra|].
  destruct (Qltb_spec (Chart.viewEnd (params r)) (start b)); [lra|].
  cbn [orb].
  rewrite (Qmax_lt_r _ _ (proj1 H1)), (Qmin_gt_r _ _ (proj2 H2)).
  reflexivity.
Qed.

(** X17. For every configuration in the documented ranges and draws in
    [[0, 1)], on a canvas at least as wide as the padding, nothing of the
    result falls outside the viewport: no block is skipped as out of
    view or clipped (its two rectangles run from the [x] of its start to
    the [x] of its end, inside the plot, and only a block narrower than
    half a pixel is left out), and every wake event gets its line, inside
    the plot. *)
Theorem result_drawn_within_plot :
  unit_draws rnd ->
  Forall (fun b =>
            let x1 := Chart.timeToX canvas_width (params r) (start b) in
            let x2 := Chart.timeToX canvas_width (params r)
                        (start b + duration b) in
            Chart.left Chart.padding <= x1 /\ x1 <= x2 /\
            x2 <= canvas_width - Chart.right Chart.padding /\
            Chart.blockRects canvas_width canvas_height (params r) b
            = if x2 - x1 <? 0.5 then []
              else [Chart.mkRect x1 (Chart.stageY canvas_height (stage b))
                      (x2 - x1)
                      ((canvas_height - Chart.bottom Chart.padding)
                       - Chart.stageY canvas_height (stage b));
                    Chart.mkRect x1
                      (Chart.stageY canvas_height (stage b) - 1)
                      (x2 - x1) 4])
         (blocks r) /\
  Forall (fun w =>
            Chart.wakeLine canvas_width (params r) w
            = [Chart.timeToX canvas_width (params r) (time w)] /\
            Chart.left Chart.padding
            <= Chart.timeToX canvas_width (params r) (time w)
            <= canvas_width - Chart.right Chart.padding)
         (wakeEvents r).
Proof.
  intro Hr.
  destruct (result_params _ _ _ _ _ pow_ok c_ok r_result)
    as (_ & _ & Etib & _ & _ & _ & Hlat).
  split.
  - pose proof (blocks_within_night _ _ _ _ _ pow_ok c_ok r_result) as Hb.
    assert (Hd : Forall (fun b => 0 <= duration b) (blocks r)).
    { destruct (generate_inv _ _ _ _ _ r_result) as (st & Er & ->). simpl.
      apply Forall_map.
      pose proof (run_cycles_durations _ _ _ _ _ pow_ok c_ok Er) as H.
      eapply Forall_impl; [|exact H]. intros b [Hb0 _]. exact Hb0. }
    rewrite Forall_forall in *. intros b Hin.
    destruct (Hb b Hin) as (H1 & H2).
    apply block_drawn; unfold Chart.sleepEnd, Chart.sleepStart;
      [lra | apply Hd; exact Hin | lra].
  - pose proof (wakeEvents_within_night _ _ _ _ _ pow_ok c_ok Hr r_result)
      as Hw.
    eapply Forall_impl; [|exact Hw]. intros w (_ & H1 & H2).
    rewrite Etib in H2.
    assert (Hv : Chart.viewStart (params r) < time w
                 < Chart.viewEnd (params r)).
    { apply night_in_view. unfold Chart.sleepEnd, Chart.sleepStart. lra. }
    split; [|apply timeToX_in_plot; [exact canvas_wide | lra]].
    unfold Chart.wakeLine.
    destruct (Qltb_spec (time w) (Chart.viewStart (params r))); [lra|].
    destruct (Qltb_spec (Chart.viewEnd (params r)) (time w)); [lra|].
    reflexivity.
Qed.

End Drawn.

Lemma result_drawn_within_plot_witness :
  exists r, generate pow_sample enough_fuel random_high config_70 = Some r /\
    Forall (fun b =>
              Chart.left Chart.padding
              <= Chart.timeToX 800 (params r) (start b) /\
              Chart.timeToX 800 (params r) (start b + duration b)
              <= 800 - Chart.right Chart.padding)
           (blocks r) /\
    Forall (fun w =>
              Chart.wakeLine 800 (params r) w
              = [Chart.timeToX 800 (params r) (time w)])
           (wakeEvents r).
Proof.
  destruct (generate_returns pow_sample random_high config_70
              pow_sample_half_unit valid_config_70) as [r Er].
  assert (Hr : unit_draws random_high) by (intro k; unfold random_high; lra).
  assert (Hw : 0 <= Chart.width 800) by (vm_compute; discriminate).
  destruct (result_drawn_within_plot 800 400 Hw _ _ _ _ _
              pow_sample_half_unit valid_config_70 Er Hr) as [H1 H2].
  exists r. split; [exact Er|]. split.
  - eapply Forall_impl; [|exact H1]. cbv zeta. intros b (Ha & _ & Hb & _).
    split; assumption.
  - eapply Forall_impl; [|exact H2]. intros w [Ha _]. exact Ha.
Defined.

(** ** The [for] loops of the chart *)

Lemma inject_Z_le_floor (t : Z) (x : Q) :
  inject_Z t <= x <-> (t <= Qfloor x)%Z.
Proof.
  split; intro H.
  - rewrite <- (Qfloor_Z t). now apply Qfloor_resp_le.
  - apply Qle_trans with (inject_Z (Qfloor x)); [|apply Qfloor_le].
    now rewrite <- Zle_Qle.
Qed.

Section ForLoop.

Context {A : Type}.
Variable step : Z.
Variable last : Q.
Variable body : Z -> list A.
Hypothesis step_pos : (0 < step)%Z.

Lemma loop_fuel_continue (t : Z) :
  inject_Z t <= last ->
  Chart.loop_fuel t step last = S (Chart.loop_fuel (t + step) step last).
Proof.
  intro H. apply inject_Z_le_floor in H. unfold Chart.loop_fuel.
  replace (Qfloor last - t)%Z with ((Qfloor last - (t + step)) + 1 * step)%Z
    by ring.
  rewrite Z.div_add by lia.
  assert (0 <= (Qfloor last - (t + step)) / step + 1)%Z.
  { assert (- (1) <= (Qfloor last - (t + step)) / step)%Z; [|lia].
    apply Z.div_le_lower_bound; lia. }
  rewrite <- Z2Nat.inj_succ by assumption. f_equal.
Qed.

Lemma loop_fuel_exit (t : Z) :
  ~ inject_Z t <= last -> Chart.loop_fuel t step last = O.
Proof.
  intro H. rewrite inject_Z_le_floor in H. unfold Chart.loop_fuel.
  assert ((Qfloor last - t) / step < 0)%Z
    by (apply Z.div_lt_upper_bound; lia).
  lia.
Qed.

Lemma for_loop_fuel (fuel : nat) (t : Z) :
  (Chart.loop_fuel t step last <= fuel)%nat ->
  Chart.for_loop fuel t step last body
  = Chart.for_loop (Chart.loop_fuel t step last) t step last body.
Proof.
  revert t. induction fuel as [|fuel IH]; intros t Hf.
  - replace (Chart.loop_fuel t step last) with O by lia. reflexivity.
  - destruct (Qleb_spec (inject_Z t) last) as [Hle|Hgt].
    + rewrite (loop_fuel_continue t Hle) in *. cbn [Chart.for_loop].
      destruct (Qleb_spec (inject_Z t) last); [|lra].
      f_equal. apply IH. lia.
    + assert (Hn : ~ inject_Z t <= last) by lra.
      rewrite (loop_fuel_exit t Hn). cbn [Chart.for_loop].
      destruct (Qleb_spec (inject_Z t) last); [lra|reflexivity].
Qed.

Lemma for_loop_Forall (P : A -> Prop) (fuel : nat) (t0 : Z) :
  (forall t : Z, (t0 <= t)%Z -> inject_Z t <= last -> Forall P (body t)) ->
  Forall P (Chart.for_loop fuel t0 step last body).
Proof.
  revert t0. induction fuel as [|fuel IH]; intros t0 H; [constructor|].
  cbn [Chart.for_loop].
  destruct (Qleb_spec (inject_Z t0) last); [|constructor].
  apply Forall_app. split; [apply H; [lia|assumption]|].
  apply IH. intros t Ht. apply H. lia.
Qed.

Lemma for_loop_length (fuel : nat) (t0 : Z) :
  (forall t : Z, (t0 <= t)%Z -> inject_Z t <= last ->
     length (body t) = 1%nat) ->
  (Chart.loop_fuel t0 step last <= fuel)%nat ->
  length (Chart.for_loop fuel t0 step last body)
  = Chart.loop_fuel t0 step last.
Proof.
  revert t0. induction fuel as [|fuel IH]; intros t0 H Hf.
  - simpl. lia.
  - cbn [Chart.for_loop].
    destruct (Qleb_spec (inject_Z t0) last) as [Hle|Hgt].
    + rewrite (loop_fuel_continue t0 Hle) in *.
      rewrite length_app, (H t0) by (lia || assumption).
      rewrite IH; [reflexivity | intros t Ht; apply H; lia | lia].
    + assert (Hn : ~ inject_Z t0 <= last) by lra.
      rewrite (loop_fuel_exit t0 Hn). reflexivity.
Qed.

End ForLoop.

(** ** The grid of the chart *)

Section Grid.

Variable canvas_width : Q.
Hypothesis canvas_wide : 0 <= Chart.width canvas_width.

Variable Math_pow : Q -> Q -> Q.
Variable rnd : nat -> Q.
Variable c : Config.
Variable fuel : nat.
Variable r : SimulationResult.t.
Hypothesis pow_ok : pow_half_unit Math_pow.
Hypothesis c_ok : valid_config c.
Hypothesis r_result : generate Math_pow fuel rnd c = Some r.

Lemma viewStart_lower : - (300) <= Chart.viewStart (params r).
Proof.
  destruct (result_params _ _ _ _ _ pow_ok c_ok r_result)
    as ([Hs _] & Htib & _).
  destruct (viewport_shape (params r)) as (m & _ & Es & _ & _ & Hm).
  assert (m <= 300) by (apply Hm; lra). lra.
Qed.

Lemma startHourMins_spec :
  inject_Z (Chart.startHourMins (params r)) <= Chart.viewStart (params r) /\
  Chart.viewStart (params r)
  < inject_Z (Chart.startHourMins (params r) + 60).
Proof.
  unfold Chart.startHourMins.
  pose proof (Qfloor_le (Chart.viewStart (params r) / 60)) as H1.
  pose proof (Qlt_floor (Chart.viewStart (params r) / 60)) as H2.
  rewrite inject_Z_plus in *. rewrite inject_Z_mult.
  assert (E : Chart.viewStart (params r) / 60 * 60
              == Chart.viewStart (params r)) by field.
  set (q := Chart.viewStart (params r) / 60) in *.
  set (f := inject_Z (Qfloor q)) in *. clearbody f q.
  change (inject_Z 60) with 60. change (inject_Z 1) with 1 in H2.
  split; lra.
Qed.

Lemma gridBody_line (m : Z) :
  Chart.viewStart (params r) <= inject_Z m ->
  inject_Z m <= Chart.viewEnd (params r) ->
  exists g, Chart.gridBody canvas_width (params r) m = [g] /\
    (0 <= Chart.hourAbsolute g < 24)%Z /\
    Chart.left Chart.padding <= Chart.grid_x g
    <= canvas_width - Chart.right Chart.padding.
Proof.
  intros H1 H2. unfold Chart.gridBody. cbv zeta.
  destruct (Qltb_spec (inject_Z m) (Chart.viewStart (params r))); [lra|].
  eexists. split; [reflexivity|]. cbn [Chart.hourAbsolute Chart.grid_x].
  split; [|apply timeToX_in_plot; [exact canvas_wide | lra]].
  apply Z.rem_bound_pos; [|lia].
  pose proof viewStart_lower as Hv.
  assert (Hq : inject_Z (- (5)) <= inject_Z m / 60).
  { apply Qle_shift_div_l; [reflexivity|].
    change (inject_Z (- (5)) * 60) with (- (300)). lra. }
  apply Qfloor_resp_le in Hq. rewrite Qfloor_Z in Hq. lia.
Qed.

(** X18. For every configuration in the documented ranges, on a canvas
    at least as wide as the padding, the loop of the grid leaves by its
    own test; every line that it draws is inside the plot and is
    labelled with an hour from 0 to 23 (the left operand of [%] is never
    negative); and there are at least ten lines. *)
Theorem grid_hours :
  (forall fuel' : nat,
     (Chart.loop_fuel (Chart.startHourMins (params r)) 60
        (Chart.viewEnd (params r)) <= fuel')%nat ->
     Chart.gridLines canvas_width (params r) fuel'
     = Chart.gridLines canvas_width (params r)
         (Chart.loop_fuel (Chart.startHourMins (params r)) 60
            (Chart.viewEnd (params r)))) /\
  (forall fuel' : nat,
     Forall (fun g =>
               (0 <= Chart.hourAbsolute g < 24)%Z /\
               Chart.left Chart.padding <= Chart.grid_x g
               <= canvas_width - Chart.right Chart.padding)
            (Chart.gridLines canvas_width (params r) fuel')) /\
  (10 <= length (Chart.gridLines canvas_width (params r)
                   (Chart.loop_fuel (Chart.startHourMins (params r)) 60
                      (Chart.viewEnd (params r)))))%nat.
Proof.
  destruct startHourMins_spec as [Hm0 Hm1].
  pose proof (totalViewMins_pos (params r)) as Ht.
  unfold Chart.totalViewMins in Ht.
  split; [|split].
  - intros fuel' Hf. unfold Chart.gridLines. apply for_loop_fuel; [lia|exact Hf].
  - intro fuel'. unfold Chart.gridLines. apply for_loop_Forall; [lia|].
    intros t Ht0 Hle. unfold Chart.gridBody at 1. cbv zeta.
    destruct (Qltb_spec (inject_Z t) (Chart.viewStart (params r)));
      [constructor|].
    destruct (gridBody_line t) as (g & Eg & Hg); [lra | exact Hle |].
    unfold Chart.gridBody in Eg. cbv zeta in Eg.
    destruct (Qltb_spec (inject_Z t) (Chart.viewStart (params r))); [lra|].
    rewrite Eg. constructor; [exact Hg | constructor].
  - unfold Chart.gridLines.
    assert (Hle : inject_Z (Chart.startHourMins (params r))
                  <= Chart.viewEnd (params r)) by lra.
    rewrite loop_fuel_continue; [|lia|exact Hle]. cbn [Chart.for_loop].
    destruct (Qleb_spec (inject_Z (Chart.startHourMins (params r)))
                (Chart.viewEnd (params r))); [|lra].
    rewrite length_app.
    rewrite for_loop_length; [|lia| |lia].
    + assert (10 <= Chart.loop_fuel (Chart.startHourMins (params r) + 60) 60
                      (Chart.viewEnd (params r)))%nat; [|lia].
      unfold Chart.loop_fuel.
      assert (Hf : (Chart.startHourMins (params r) + 600
                    <= Qfloor (Chart.viewEnd (params r)))%Z).
      { apply inject_Z_le_floor. rewrite inject_Z_plus.
        change (inject_Z 600) with 600. lra. }
      assert (9 <= (Qfloor (Chart.viewEnd (params r))
                    - (Chart.startHourMins (params r) + 60)) / 60)%Z
        by (apply Z.div_le_lower_bound; lia).
      lia.
    + intros t Ht0 Hlt.
      assert (Hin : inject_Z (Chart.startHourMins (params r) + 60)
                    <= inject_Z t) by (rewrite <- Zle_Qle; exact Ht0).
      destruct (gridBody_line t) as (g & Eg & _); [lra | exact Hlt |].
      rewrite Eg. reflexivity.
Qed.

End Grid.

Lemma grid_hours_witness :
  exists r, generate pow_sample enough_fuel random_high config_70 = Some r /\
    Forall (fun g =>
              (0 <= Chart.hourAbsolute g < 24)%Z /\
              Chart.left Chart.padding <= Chart.grid_x g
              <= 800 - Chart.right Chart.padding)
           (Chart.gridLines 800 (params r) 30) /\
    (10 <= length (Chart.gridLines 800 (params r)
                     (Chart.loop_fuel (Chart.startHourMins (params r)) 60
                        (Chart.viewEnd (params r)))))%nat.
Proof.
  destruct (generate_returns pow_sample random_high config_70
              pow_sample_half_unit valid_config_70) as [r Er].
  assert (Hw : 0 <= Chart.width 800) by (vm_compute; discriminate).
  destruct (grid_hours 800 Hw _ _ _ _ _
              pow_sample_half_unit valid_config_70 Er) as (_ & H2 & H3).
  exists r. split; [exact Er|]. split; [apply H2 | exact H3].
Defined.

(** ** The curves drawn over the chart *)

Lemma neg_div_nonpos (x d : Q) : 0 <= x -> 0 < d -> - x / d <= 0.
Proof.
  intros Hx Hd. unfold Qdiv.
  pose proof (Qinv_lt_0_compat d Hd) as Hi.
  set (i := / d) in *. clearbody i. nra.
Qed.

Lemma sq_nonneg (x : Q) : 0 <= x * x.
Proof. nra. Qed.

Lemma div_nonneg (x d : Q) : 0 <= x -> 0 < d -> 0 <= x / d.
Proof.
  intros Hx Hd. apply Qle_shift_div_l; [exact Hd|]. lra.
Qed.

Lemma exp_sample_unit : exp_unit exp_sample.
Proof.
  split; intro x; unfold exp_sample.
  - destruct (Qleb_spec x 0); [|lra].
    apply Qlt_shift_div_l; lra.
  - intro Hx. destruct (Qleb_spec x 0); [|lra].
    apply Qle_shift_div_r; lra.
Qed.

Lemma cos_sample_unit : cos_unit cos_sample.
Proof.
  intro x. unfold cos_sample.
  destruct (Qmin_cases 1 (1 - x * x / 2)) as [[? Hm]|[? Hm]];
    destruct (Qmax_cases (- (1)) (Qmin 1 (1 - x * x / 2)))
      as [[? Hx]|[? Hx]];
    set (m := Qmin 1 (1 - x * x / 2)) in *; clearbody m;
    set (w := Qmax (- (1)) m) in *; clearbody w; lra.
Qed.

Lemma pow_sample_square : pow_square pow_sample.
Proof.
  intro x. unfold pow_sample. cbv zeta.
  change (Qfloor 2) with 2%Z. change (x ^ 2) with (x * x).
  change (inject_Z 2) with 2. ring.
Qed.

Section Curves.

Variables canvas_width canvas_height : Q.
Variable params : Params.t.
Variable Math_exp : Q -> Q.
Variable Math_cos : Q -> Q.
Variable Math_pow : Q -> Q -> Q.
Variable Math_PI : Q.
Variable state_local : Config.

Hypothesis exp_ok : exp_unit Math_exp.
Hypothesis cos_ok : cos_unit Math_cos.
Hypothesis pow_ok : pow_half_unit Math_pow.
Hypothesis square_ok : pow_square Math_pow.
Hypothesis tib_ok : 0 <= Params.tib params.

Lemma models_constants :
  TwoProcessModel.tau_r (Chart.models params state_local) == 1092 /\
  TwoProcessModel.tau_d (Chart.models params state_local) == 252 /\
  0 < TwoProcessModel.halfLife (Chart.models params state_local).
Proof.
  unfold Chart.models, TwoProcessModel.getCurves. cbv zeta.
  cbn [TwoProcessModel.tau_r TwoProcessModel.tau_d TwoProcessModel.halfLife].
  split; [lra|]. split; [lra|].
  destruct (caffeineMetabolism state_local); lra.
Qed.

Lemma processS_le_1 (t : Q) :
  Chart.processS params Math_exp state_local t <= 1.
Proof.
  destruct exp_ok as [Hpos Hle].
  destruct models_constants as (Er & Ed & _).
  unfold Chart.processS. cbv zeta.
  set (tr := TwoProcessModel.tau_r (Chart.models params state_local)) in *.
  set (td := TwoProcessModel.tau_d (Chart.models params state_local)) in *.
  clearbody tr td.
  assert (Hss : Chart.sleepEnd params
                == Chart.sleepStart params + Params.tib params)
    by reflexivity.
  set (s := Chart.sleepStart params) in *.
  set (e := Chart.sleepEnd params) in *. clearbody s e.
  pose proof (Hpos (- (11 * 60) / tr)) as H0.
  set (e0 := Math_exp (- (11 * 60) / tr)) in *. clearbody e0.
  destruct (Qltb_spec t s) as [Hts|Hts].
  - pose proof (Hpos (- t / tr)) as H1.
    set (e1 := Math_exp (- t / tr)) in *. clearbody e1.
    pose proof (Qmult_lt_0_compat _ _ H0 H1). lra.
  - pose proof (Hpos (- s / tr)) as H1.
    set (e1 := Math_exp (- s / tr)) in *. clearbody e1.
    destruct (Qltb_spec t e) as [Hte|Hte].
    + pose proof (Hpos (- (t - s) / td)) as H2.
      assert (H3 : Math_exp (- (t - s) / td) <= 1)
        by (apply Hle, neg_div_nonpos; lra).
      set (e2 := Math_exp (- (t - s) / td)) in *. clearbody e2.
      pose proof (Qmult_lt_0_compat _ _ H0 H1) as H01.
      assert (H5 : 0 <= (1 - e2) * 1) by lra.
      assert (H6 : 0 <= e0 * e1 * e2)
        by (apply Qmult_le_0_compat; lra).
      lra.
    + pose proof (Hpos (- (e - s) / td)) as H2.
      assert (H3 : Math_exp (- (e - s) / td) <= 1)
        by (apply Hle, neg_div_nonpos; lra).
      set (e2 := Math_exp (- (e - s) / td)) in *. clearbody e2.
      pose proof (Hpos (- (t - e) / tr)) as H4.
      set (e4 := Math_exp (- (t - e) / tr)) in *. clearbody e4.
      pose proof (Qmult_lt_0_compat _ _ H0 H1) as H01.
      assert (H6 : 0 <= e0 * e1 * e2)
        by (apply Qmult_le_0_compat; lra).
      assert (H7 : 0 <= (1 - e2 + e0 * e1 * e2) * e4)
        by (apply Qmult_le_0_compat; lra).
      lra.
Qed.

Lemma caffeineBlock_nonneg (sleepStart t : Q) :
  0 <= TwoProcessModel.caffeineBlock Math_pow
         (Chart.models params state_local) sleepStart t.
Proof.
  destruct models_constants as (_ & _ & Hh).
  unfold TwoProcessModel.caffeineBlock. cbv zeta.
  set (m := Chart.models params state_local) in *. clearbody m.
  destruct (Qltb_spec 0 (TwoProcessModel.caffeine m)); cbn [andb]; [|lra].
  destruct (Qleb_spec
              (sleepStart - TwoProcessModel.caffeineTime m * 60) t);
    [|lra].
  assert (Hx : 0 <= (t - (sleepStart - TwoProcessModel.caffeineTime m * 60))
                    / 60 / TwoProcessModel.halfLife m).
  { apply div_nonneg; [|exact Hh]. apply div_nonneg; lra. }
  destruct (pow_ok _ Hx) as [Hp _].
  set (w := Math_pow 0.5 _) in *. clearbody w. nra.
Qed.

Lemma sleepDrive_range (t : Q) :
  0 <= Chart.sleepDrive params Math_exp Math_pow state_local t <= 1.
Proof.
  unfold Chart.sleepDrive, TwoProcessModel.effectiveS.
  pose proof (processS_le_1 t) as Hs.
  pose proof (caffeineBlock_nonneg (Chart.sleepStart params) t) as Hb.
  set (S := Chart.processS params Math_exp state_local t) in *.
  set (b := TwoProcessModel.caffeineBlock _ _ _ _) in *. clearbody S b.
  destruct (Qmax_cases 0 (S - b)) as [[? Hm]|[? Hm]];
    set (m := Qmax 0 (S - b)) in *; clearbody m; lra.
Qed.

Lemma processC_range (t : Q) :
  0.1 <= Chart.processC params Math_cos Math_PI state_local t <= 0.9.
Proof.
  unfold Chart.processC. cbv zeta.
  pose proof (cos_ok ((t - TwoProcessModel.peakTime
                             (Chart.models params state_local))
                      / (24 * 60) * 2 * Math_PI)) as H.
  set (w := Math_cos _) in *. clearbody w. lra.
Qed.

Lemma growthHormone_range (t : Q) :
  0.1 <= Chart.growthHormone params Math_exp Math_pow t <= 0.9.
Proof.
  destruct exp_ok as [Hpos Hle].
  unfold Chart.growthHormone. cbv zeta.
  destruct ((t >=? Chart.sleepStart params) && (t <=? Chart.sleepEnd params));
    [|lra].
  pose proof (square_ok (t - Chart.sleepStart params - 70)) as E1.
  pose proof (square_ok 25) as E2.
  set (p1 := Math_pow (t - Chart.sleepStart params - 70) 2) in *.
  set (p2 := Math_pow 25 2) in *. clearbody p1 p2.
  pose proof (sq_nonneg (t - Chart.sleepStart params - 70)) as Hsq.
  assert (H1 : - p1 / (2 * p2) <= 0) by (apply neg_div_nonpos; lra).
  pose proof (Hpos (- p1 / (2 * p2))) as H2.
  pose proof (Hle _ H1) as H3.
  set (w := Math_exp _) in *. clearbody w. lra.
Qed.

Lemma cortisol_range (t : Q) :
  0 < Chart.cortisol params Math_exp Math_pow t <= 0.9.
Proof.
  destruct exp_ok as [Hpos Hle].
  unfold Chart.cortisol. cbv zeta.
  set (e := Chart.sleepEnd params). clearbody e.
  destruct (Qltb_spec t (e - 180)); [lra|].
  destruct (Qleb_spec t (e + 30)).
  - pose proof (square_ok ((t - (e - 180)) / 210)) as E.
    assert (Ep : (t - (e - 180)) / 210 * 210 == t - (e - 180)) by field.
    set (p := (t - (e - 180)) / 210) in *.
    set (w := Math_pow p 2) in *. clearbody w p.
    pose proof (sq_nonneg p) as Hsq.
    assert (Hp1 : 0 <= (1 - p) * (1 + p))
      by (apply Qmult_le_0_compat; lra).
    lra.
  - assert (H1 : - (t - (e + 30)) / 180 <= 0)
      by (apply neg_div_nonpos; lra).
    pose proof (Hpos (- (t - (e + 30)) / 180)) as H2.
    pose proof (Hle _ H1) as H3.
    set (w := Math_exp _) in *. clearbody w. lra.
Qed.

Lemma curveY_range (v : Q) :
  0 <= Chart.height canvas_height -> 0 <= v <= 1 ->
  Chart.top Chart.padding + 0.1 * Chart.height canvas_height
  <= Chart.curveY canvas_height v
  <= canvas_height - Chart.bottom Chart.padding.
Proof.
  intros Hh Hv. unfold Chart.curveY.
  unfold Chart.height in *. set (t := Chart.top Chart.padding) in *.
  set (b := Chart.bottom Chart.padding) in *. clearbody t b. nra.
Qed.

(** X19. With [Math.exp] positive and at most 1 below zero, [Math.cos]
    between -1 and 1, [Math.pow(0.5, x)] in the unit interval,
    [Math.pow(x, 2)] the square and a time in bed that is not negative,
    at every time the sleep drive lies in [[0, 1]], the circadian wave
    and the growth hormone in [[0.1, 0.9]] and the cortisol in
    [(0, 0.9]]; so on a canvas at least as high as the padding every
    point of the four curves is drawn between the top and the bottom of
    the plot; and each loop leaves by its own test with at least 121
    points. *)
Theorem curves_within_plot :
  (forall t : Q,
     0 <= Chart.sleepDrive params Math_exp Math_pow state_local t <= 1 /\
     0.1 <= Chart.processC params Math_cos Math_PI state_local t <= 0.9 /\
     0.1 <= Chart.growthHormone params Math_exp Math_pow t <= 0.9 /\
     0 < Chart.cortisol params Math_exp Math_pow t <= 0.9) /\
  forall curve : Q -> Q,
    In curve [Chart.sleepDrive params Math_exp Math_pow state_local;
              Chart.processC params Math_cos Math_PI state_local;
              Chart.growthHormone params Math_exp Math_pow;
              Chart.cortisol params Math_exp Math_pow] ->
    (0 <= Chart.height canvas_height ->
     forall fuel : nat,
       Forall (fun p =>
                 Chart.top Chart.padding <= Chart.point_y p
                 <= canvas_height - Chart.bottom Chart.padding)
              (Chart.curvePoints canvas_width canvas_height params curve
                 fuel)) /\
    (forall fuel : nat,
       (Chart.loop_fuel (Qfloor (Chart.viewStart params)) 5
          (inject_Z (Qceiling (Chart.viewEnd params))) <= fuel)%nat ->
       Chart.curvePoints canvas_width canvas_height params curve fuel
       = Chart.curvePoints canvas_width canvas_height params curve
           (Chart.loop_fuel (Qfloor (Chart.viewStart params)) 5
              (inject_Z (Qceiling (Chart.viewEnd params))))) /\
    (121 <= length (Chart.curvePoints canvas_width canvas_height params
                      curve
                      (Chart.loop_fuel (Qfloor (Chart.viewStart params)) 5
                         (inject_Z (Qceiling (Chart.viewEnd params))))))%nat.
Proof.
  split.
  - intro t. split; [apply sleepDrive_range|].
    split; [apply processC_range|].
    split; [apply growthHormone_range | apply cortisol_range].
  - intros curve Hin.
    assert (Hrange : forall t, 0 <= curve t <= 1).
    { intro t. simpl in Hin.
      destruct Hin as [<-|[<-|[<-|[<-|[]]]]].
      - apply sleepDrive_range.
      - pose proof (processC_range t). lra.
      - pose proof (growthHormone_range t). lra.
      - pose proof (cortisol_range t). lra. }
    split; [|split].
    + intros Hh fuel. unfold Chart.curvePoints.
      apply for_loop_Forall; [lia|]. intros t _ _.
      constructor; [|constructor]. cbn [Chart.point_y].
      pose proof (curveY_range (curve (inject_Z t)) Hh (Hrange _)) as Hy.
      lra.
    + intros fuel Hf. unfold Chart.curvePoints.
      apply for_loop_fuel; [lia | exact Hf].
    + unfold Chart.curvePoints.
      rewrite for_loop_length; [|lia|reflexivity|lia].
      unfold Chart.loop_fuel. rewrite Qfloor_Z.
      pose proof (totalViewMins_pos params) as Ht.
      unfold Chart.totalViewMins in Ht.
      pose proof (Qfloor_le (Chart.viewStart params)) as H1.
      pose proof (Qle_ceiling (Chart.viewEnd params)) as H2.
      assert (Hz : (Qfloor (Chart.viewStart params) + 600
                    <= Qceiling (Chart.viewEnd params))%Z).
      { rewrite Zle_Qle, inject_Z_plus. change (inject_Z 600) with 600.
        lra. }
      assert (120 <= (Qceiling (Chart.viewEnd params)
                      - Qfloor (Chart.viewStart params)) / 5)%Z
        by (apply Z.div_le_lower_bound; lia).
      lia.
Qed.

End Curves.

Lemma curves_within_plot_witness :
  let params := Params.mk neutral 30 460 500 in
  (forall t : Q,
     0 <= Chart.sleepDrive params exp_sample pow_sample config_70 t <= 1 /\
     0.1 <= Chart.processC params cos_sample PI_sample config_70 t <= 0.9 /\
     0.1 <= Chart.growthHormone params exp_sample pow_sample t <= 0.9 /\
     0 < Chart.cortisol params exp_sample pow_sample t <= 0.9) /\
  Forall (fun p =>
            Chart.top Chart.padding <= Chart.point_y p
            <= 400 - Chart.bottom Chart.padding)
         (Chart.curvePoints 800 400 params
            (Chart.cortisol params exp_sample pow_sample) 200).
Proof.
  cbv zeta.
  assert (Ht : 0 <= Params.tib (Params.mk neutral 30 460 500))
    by (simpl; lra).
  destruct (curves_within_plot 800 400 (Params.mk neutral 30 460 500)
              exp_sample cos_sample pow_sample PI_sample config_70
              exp_sample_unit cos_sample_unit pow_sample_half_unit
              pow_sample_square Ht) as [H1 H2].
  split; [exact H1|].
  destruct (H2 (Chart.cortisol (Params.mk neutral 30 460 500)
                  exp_sample pow_sample)) as (H3 & _).
  - simpl. tauto.
  - apply H3. vm_compute. discriminate.
Defined.

(** ** The pie chart *)

(** The statistics of a result: the four fractions are positive and add
    up to 1, and there is some wake time and some sleep. *)
Lemma result_stats
    (Math_pow : Q -> Q -> Q) (rnd : nat -> Q) (c : Config) (fuel : nat)
    (r : SimulationResult.t) :
  pow_half_unit Math_pow -> valid_config c ->
  generate Math_pow fuel rnd c = Some r ->
  0 < Stats.n3P (stats r) /\ 0 < Stats.remP (stats r) /\
  0 < Stats.n2P (stats r) /\ 0 < Stats.n1P (stats r) /\
  Stats.n3P (stats r) + Stats.remP (stats r) + Stats.n2P (stats r)
    + Stats.n1P (stats r) == 1 /\
  0 < Stats.wasoMins (stats r) /\ 0 < Stats.tst (stats r).
Proof.
  intros Hp Hv E.
  destruct (result_params _ _ _ _ _ Hp Hv E) as (_ & _ & _ & Et & Ht & _).
  rewrite <- Et in Ht.
  destruct (generate_inv _ _ _ _ _ E) as (st & _ & ->).
  cbn [stats finish Stats.n3P Stats.remP Stats.n2P Stats.n1P Stats.wasoMins]
    in *.
  assert (Hsev : sdbSeverity c <= 10)
    by (destruct Hv as (_ & _ & _ & _ & [_ H] & _); exact H).
  destruct (adjustedTargets_ok Math_pow c Hsev) as (H3 & Hr & H1 & Hw & _).
  destruct (recalculate_n2_fractions
              (nocturia_model c (sdb_model c (targets_before_sdb Math_pow c))))
    as [Hs Hn].
  fold (adjustedTargets Math_pow c) in Hs, Hn.
  repeat split; lra.
Qed.

Section PieFacts.

Variable Math_PI : Q.
Variable stats : Stats.t.

Hypothesis PI_pos : 0 < Math_PI.
Hypothesis n3_pos : 0 < Stats.n3P stats.
Hypothesis rem_pos : 0 < Stats.remP stats.
Hypothesis n2_pos : 0 < Stats.n2P stats.
Hypothesis n1_pos : 0 < Stats.n1P stats.
Hypothesis fractions_sum :
  Stats.n3P stats + Stats.remP stats + Stats.n2P stats + Stats.n1P stats == 1.
Hypothesis waso_pos : 0 < Stats.wasoMins stats.
Hypothesis tst_pos : 0 < Stats.tst stats.

Lemma wake_share_pos : 0 < Stats.wasoMins stats / Stats.tst stats.
Proof. apply Qlt_shift_div_l; lra. Qed.

Lemma total_spec :
  PieChart.total stats == 1 + Stats.wasoMins stats / Stats.tst stats.
Proof.
  unfold PieChart.total, PieChart.data. cbn [fold_left].
  rewrite <- fractions_sum. ring.
Qed.

Lemma total_pos : 1 < PieChart.total stats.
Proof. rewrite total_spec. pose proof wake_share_pos. lra. Qed.

(** The shares [value / total] of the five slices are positive and add
    up to 1. *)
Lemma shares :
  0 < Stats.n3P stats / PieChart.total stats /\
  0 < Stats.remP stats / PieChart.total stats /\
  0 < Stats.n2P stats / PieChart.total stats /\
  0 < Stats.n1P stats / PieChart.total stats /\
  0 < Stats.wasoMins stats / Stats.tst stats / PieChart.total stats /\
  Stats.n3P stats / PieChart.total stats
  + Stats.remP stats / PieChart.total stats
  + Stats.n2P stats / PieChart.total stats
  + Stats.n1P stats / PieChart.total stats
  + Stats.wasoMins stats / Stats.tst stats / PieChart.total stats == 1.
Proof.
  pose proof total_pos as Ht. pose proof total_spec as Es.
  pose proof wake_share_pos as Hw.
  repeat split; try (apply Qlt_shift_div_l; lra).
  set (w := Stats.wasoMins stats / Stats.tst stats) in *. clearbody w.
  set (T := PieChart.total stats) in *. clearbody T.
  assert (E : Stats.n3P stats / T + Stats.remP stats / T
              + Stats.n2P stats / T + Stats.n1P stats / T + w / T
              == (Stats.n3P stats + Stats.remP stats + Stats.n2P stats
                  + Stats.n1P stats + w) / T) by (field; lra).
  rewrite E, fractions_sum, <- Es. field. lra.
Qed.

Lemma Math_round_near (x : Q) :
  x - 0.5 < inject_Z (PieChart.Math_round x) <= x + 0.5.
Proof.
  unfold PieChart.Math_round.
  pose proof (Qfloor_le (x + 0.5)) as H1.
  pose proof (Qlt_floor (x + 0.5)) as H2.
  rewrite inject_Z_plus in H2. change (inject_Z 1) with 1 in H2.
  split; lra.
Qed.

End PieFacts.

(** X20. For every configuration in the documented ranges and a positive
    [Math.PI], the total of the pie is [1 + wasoMins / tst]; the chart
    has five slices of positive angle, the first one starts at
    [-PI / 2], each one starts where the one before ends, and the last
    one ends a full turn later. *)
Theorem pie_full_circle
    (Math_PI : Q) (Math_pow : Q -> Q -> Q) (rnd : nat -> Q) (c : Config)
    (fuel : nat) (r : SimulationResult.t) :
  0 < Math_PI -> pow_half_unit Math_pow -> valid_config c ->
  generate Math_pow fuel rnd c = Some r ->
  PieChart.total (stats r)
  == 1 + Stats.wasoMins (stats r) / Stats.tst (stats r) /\
  exists a1 a2 a3 a4 a5 : PieChart.Arc,
    PieChart.arcs Math_PI (stats r) = [a1; a2; a3; a4; a5] /\
    PieChart.startAngle a1 = - Math_PI / 2 /\
    PieChart.endAngle a1 = PieChart.startAngle a2 /\
    PieChart.endAngle a2 = PieChart.startAngle a3 /\
    PieChart.endAngle a3 = PieChart.startAngle a4 /\
    PieChart.endAngle a4 = PieChart.startAngle a5 /\
    PieChart.endAngle a5 == - Math_PI / 2 + 2 * Math_PI /\
    Forall (fun a => PieChart.startAngle a < PieChart.endAngle a)
           [a1; a2; a3; a4; a5].
Proof.
  intros HPI Hp Hv E.
  destruct (result_stats _ _ _ _ _ Hp Hv E)
    as (H3 & Hr & H2 & H1 & Hs & Hw & Ht).
  split; [now apply total_spec|].
  destruct (shares (stats r) H3 Hr H2 H1 Hs Hw Ht)
    as (S3 & Sr & S2 & S1 & Sw & Sum).
  unfold PieChart.arcs, PieChart.data. cbn [PieChart.drawSlices].
  do 5 eexists. split; [reflexivity|].
  cbn [PieChart.startAngle PieChart.endAngle].
  repeat (split; [reflexivity|]).
  set (q3 := Stats.n3P (stats r) / PieChart.total (stats r)) in *.
  set (qr := Stats.remP (stats r) / PieChart.total (stats r)) in *.
  set (q2 := Stats.n2P (stats r) / PieChart.total (stats r)) in *.
  set (q1 := Stats.n1P (stats r) / PieChart.total (stats r)) in *.
  set (qw := Stats.wasoMins (stats r) / Stats.tst (stats r)
             / PieChart.total (stats r)) in *.
  clearbody q3 qr q2 q1 qw.
  set (h := - Math_PI / 2). clearbody h.
  split.
  - assert (Eall : h + q3 * 2 * Math_PI + qr * 2 * Math_PI
                   + q2 * 2 * Math_PI + q1 * 2 * Math_PI + qw * 2 * Math_PI
                   == h + (q3 + qr + q2 + q1 + qw) * (2 * Math_PI)) by ring.
    rewrite Eall, Sum. ring.
  - assert (P3 : 0 < q3 * Math_PI) by (apply Qmult_lt_0_compat; lra).
    assert (Pr : 0 < qr * Math_PI) by (apply Qmult_lt_0_compat; lra).
    assert (P2 : 0 < q2 * Math_PI) by (apply Qmult_lt_0_compat; lra).
    assert (P1 : 0 < q1 * Math_PI) by (apply Qmult_lt_0_compat; lra).
    assert (Pw : 0 < qw * Math_PI) by (apply Qmult_lt_0_compat; lra).
    repeat (apply Forall_cons;
            [cbn [PieChart.startAngle PieChart.endAngle]; lra|]).
    apply Forall_nil.
Qed.

Lemma pie_full_circle_witness :
  exists r, generate pow_sample enough_fuel random_high config_70 = Some r /\
    PieChart.total (stats r)
    == 1 + Stats.wasoMins (stats r) / Stats.tst (stats r) /\
    length (PieChart.arcs PI_sample (stats r)) = 5%nat.
Proof.
  destruct (generate_returns pow_sample random_high config_70
              pow_sample_half_unit valid_config_70) as [r Er].
  assert (HPI : 0 < PI_sample) by (vm_compute; reflexivity).
  destruct (pie_full_circle PI_sample _ _ _ _ _ HPI
              pow_sample_half_unit valid_config_70 Er)
    as (H1 & a1 & a2 & a3 & a4 & a5 & Ea & _).
  exists r. split; [exact Er|]. split; [exact H1|].
  rewrite Ea. reflexivity.
Defined.

(** X21. For every configuration in the documented ranges, each of the
    five percentages of the legend lies between 0 and 100, and together
    they add up to a number from 98 to 102: the rounding can miss 100 by
    at most 2. *)
Theorem legend_percentages
    (Math_pow : Q -> Q -> Q) (rnd : nat -> Q) (c : Config)
    (fuel : nat) (r : SimulationResult.t) :
  pow_half_unit Math_pow -> valid_config c ->
  generate Math_pow fuel rnd c = Some r ->
  Forall (fun p => (0 <= p <= 100)%Z) (PieChart.legend (stats r)) /\
  (98 <= fold_right Z.add 0%Z (PieChart.legend (stats r)) <= 102)%Z.
Proof.
  intros Hp Hv E.
  destruct (result_stats _ _ _ _ _ Hp Hv E)
    as (H3 & Hr & H2 & H1 & Hs & Hw & Ht).
  destruct (shares (stats r) H3 Hr H2 H1 Hs Hw Ht)
    as (S3 & Sr & S2 & S1 & Sw & Sum).
  unfold PieChart.legend, PieChart.data. cbn [map fold_right].
  set (q3 := Stats.n3P (stats r) / PieChart.total (stats r)) in *.
  set (qr := Stats.remP (stats r) / PieChart.total (stats r)) in *.
  set (q2 := Stats.n2P (stats r) / PieChart.total (stats r)) in *.
  set (q1 := Stats.n1P (stats r) / PieChart.total (stats r)) in *.
  set (qw := Stats.wasoMins (stats r) / Stats.tst (stats r)
             / PieChart.total (stats r)) in *.
  clearbody q3 qr q2 q1 qw.
  pose proof (Math_round_near (q3 * 100)) as R3.
  pose proof (Math_round_near (qr * 100)) as Rr.
  pose proof (Math_round_near (q2 * 100)) as R2.
  pose proof (Math_round_near (q1 * 100)) as R1.
  pose proof (Math_round_near (qw * 100)) as Rw.
  set (p3 := PieChart.Math_round (q3 * 100)) in *.
  set (pr := PieChart.Math_round (qr * 100)) in *.
  set (p2 := PieChart.Math_round (q2 * 100)) in *.
  set (p1 := PieChart.Math_round (q1 * 100)) in *.
  set (pw := PieChart.Math_round (qw * 100)) in *.
  clearbody p3 pr p2 p1 pw.
  assert (B : forall (p : Z) (q : Q),
            0 < q -> q < 1 -> q * 100 - 0.5 < inject_Z p <= q * 100 + 0.5 ->
            (0 <= p <= 100)%Z).
  { intros p q Hq0 Hq1 [Ha Hb]. split.
    - assert (H : inject_Z (- (1)) < inject_Z p)
        by (change (inject_Z (- (1))) with (- (1)); lra).
      rewrite <- Zlt_Qlt in H. lia.
    - assert (H : inject_Z p < inject_Z 101)
        by (change (inject_Z 101) with 101; lra).
      rewrite <- Zlt_Qlt in H. lia. }
  split.
  - repeat (apply Forall_cons; [split|]); try apply Forall_nil;
      match goal with
      | H : ?q * 100 - 0.5 < inject_Z ?p <= _ |- (0 <= ?p)%Z =>
          apply (B p q); [lra | lra | exact H]
      | H : ?q * 100 - 0.5 < inject_Z ?p <= _ |- (?p <= 100)%Z =>
          apply (B p q); [lra | lra | exact H]
      end.
  - assert (Hlo : inject_Z 97 < inject_Z (p3 + (pr + (p2 + (p1 + (pw + 0)))))).
    { rewrite !inject_Z_plus. change (inject_Z 97) with 97.
      change (inject_Z 0) with 0. lra. }
    assert (Hhi : inject_Z (p3 + (pr + (p2 + (p1 + (pw + 0))))) < inject_Z 103).
    { rewrite !inject_Z_plus. change (inject_Z 103) with 103.
      change (inject_Z 0) with 0. lra. }
    rewrite <- Zlt_Qlt in Hlo, Hhi. lia.
Qed.

Lemma legend_percentages_witness :
  exists r, generate pow_sample enough_fuel random_high config_70 = Some r /\
    Forall (fun p => (0 <= p <= 100)%Z) (PieChart.legend (stats r)) /\
    (98 <= fold_right Z.add 0%Z (PieChart.legend (stats r)) <= 102)%Z.
Proof.
  destruct (generate_returns pow_sample random_high config_70
              pow_sample_half_unit valid_config_70) as [r Er].
  exists r. split; [exact Er|].
  exact (legend_percentages _ _ _ _ _
           pow_sample_half_unit valid_config_70 Er).
Defined.

(** * The engine of the second bundle *)

(** The sleep target of the profile of the second bundle. *)
Lemma fixed_profile_tst (a : Q) :
  356 <= tst (FixedCycles.ScientificConstants.getAgeProfile a) <= 660.
Proof.
  unfold FixedCycles.ScientificConstants.getAgeProfile. cbv zeta.
  cbn [tst]. qcases; lra.
Qed.

(** X22. Whatever the age, the profile of the second bundle has a target
    of sleep from 356 to 660 minutes, N3 from 0.15 to 0.25, REM 0.20 or
    0.25, N1 at least 0.05, at least 10 minutes of WASO, and fractions
    that add up to 1; up to the age of 120, N2 lies between 0.44 and
    0.54 and N1 is at most 0.2. *)
Theorem fixed_getAgeProfile_ranges (a : Q) :
  let p := FixedCycles.ScientificConstants.getAgeProfile a in
  356 <= tst p <= 660 /\
  0.15 <= n3P p <= 0.25 /\
  (remP p = 0.20 \/ remP p = 0.25) /\
  0.05 <= n1P p /\
  10 <= wasoMins p /\
  n3P p + remP p + n1P p + n2P p == 1 /\
  (a <= 120 -> 0.44 <= n2P p <= 0.54 /\ n1P p <= 0.2).
Proof.
  cbv zeta. split; [apply fixed_profile_tst|].
  unfold FixedCycles.ScientificConstants.getAgeProfile. cbv zeta.
  cbn [tst n3P remP n1P n2P wasoMins].
  split; [qcases; lra|].
  split; [destruct (a >? 60); [left|right]; reflexivity|].
  split; [qcases; lra|].
  split; [qcases; lra|].
  split; [ring|].
  intro Ha.
  destruct (Qleb_spec a 10); destruct (Qleb_spec a 20);
    destruct (Qleb_spec a 60); destruct (Qltb_spec 60 a);
    destruct (Qltb_spec 20 a); try lra; split; lra.
Qed.

Lemma fixed_getAgeProfile_ranges_witness :
  0.44 <= n2P (FixedCycles.ScientificConstants.getAgeProfile 41) <= 0.54 /\
  n1P (FixedCycles.ScientificConstants.getAgeProfile 41) <= 0.2.
Proof.
  destruct (fixed_getAgeProfile_ranges 41) as (_ & _ & _ & _ & _ & _ & H).
  apply H. lra.
Defined.

Section FixedEngineFacts.

Variable Math_pow : Q -> Q -> Q.
Variable c : Config.

Lemma fixed_tst_steps (p : Profile) :
  tst (recalculate_n2 p) = tst p /\
  tst (nocturia_model c p) = tst p /\
  tst (FixedEngine.sdb_model c p) = tst p /\
  tst (FixedEngine.menopause_model c p) = tst p /\
  tst (gender_model c p) = tst p /\
  tst p - 60 <= tst (FixedEngine.socialJetLag_model c p) <= tst p /\
  tst (FixedEngine.alcohol_model c p) = tst p /\
  tst (FixedEngine.caffeine_model Math_pow c p) = tst p /\
  tst p - 30 <= tst (blueLight_model c p) <= tst p.
Proof.
  split; [unfold recalculate_n2; cbv zeta;
          destruct (n3P p + remP p + n1P p >? 0.95); reflexivity|].
  split; [unfold nocturia_model; destruct (nocturia c >? 0); reflexivity|].
  split; [unfold FixedEngine.sdb_model;
          destruct (sdbSeverity c >? 0); reflexivity|].
  split; [unfold FixedEngine.menopause_model;
          destruct (isMenopausal c); reflexivity|].
  split; [unfold gender_model;
          destruct (gender c), (age c >? 30); reflexivity|].
  split; [unfold FixedEngine.socialJetLag_model;
          destruct (socialJetLag c); simpl; lra|].
  split; [unfold FixedEngine.alcohol_model;
          destruct (alcohol c >? 0); reflexivity|].
  split; [unfold FixedEngine.caffeine_model; cbv zeta;
          destruct (activeCaffeine Math_pow c >? 0.1); reflexivity|].
  unfold blueLight_model. destruct (blueLight c); simpl; lra.
Qed.

Lemma fixed_tst_range :
  266 <= tst (FixedEngine.adjustedTargets Math_pow c) <= 660.
Proof.
  unfold FixedEngine.adjustedTargets.
  pose proof (fixed_profile_tst (age c)) as Ht.
  set (p0 := FixedCycles.ScientificConstants.getAgeProfile (age c)) in *.
  clearbody p0.
  destruct (fixed_tst_steps p0) as (_ & _ & _ & _ & _ & _ & _ & _ & H0).
  set (p1 := blueLight_model c p0) in *. clearbody p1.
  destruct (fixed_tst_steps p1) as (_ & _ & _ & _ & _ & _ & _ & H1 & _).
  set (p2 := FixedEngine.caffeine_model Math_pow c p1) in *. clearbody p2.
  destruct (fixed_tst_steps p2) as (_ & _ & _ & _ & _ & _ & H2 & _).
  set (p3 := FixedEngine.alcohol_model c p2) in *. clearbody p3.
  destruct (fixed_tst_steps p3) as (_ & _ & _ & _ & _ & H3 & _).
  set (p4 := FixedEngine.socialJetLag_model c p3) in *. clearbody p4.
  destruct (fixed_tst_steps p4) as (_ & _ & _ & _ & H4 & _).
  set (p5 := gender_model c p4) in *. clearbody p5.
  destruct (fixed_tst_steps p5) as (_ & _ & _ & H5 & _).
  set (p6 := FixedEngine.menopause_model c p5) in *. clearbody p6.
  destruct (fixed_tst_steps p6) as (_ & _ & H6 & _).
  set (p7 := FixedEngine.sdb_model c p6) in *. clearbody p7.
  destruct (fixed_tst_steps p7) as (_ & H7 & _).
  set (p8 := nocturia_model c p7) in *. clearbody p8.
  destruct (fixed_tst_steps p8) as (H8 & _).
  rewrite H8, H7, H6, H5, H4. rewrite H2, H1 in H3. lra.
Qed.

Lemma fixed_numCycles_range :
  (2 <= FixedEngine.numCycles (tst (FixedEngine.adjustedTargets Math_pow c))
   <= 7)%Z.
Proof.
  pose proof fixed_tst_range as Ht. unfold FixedEngine.numCycles, cycleLength.
  set (t := tst (FixedEngine.adjustedTargets Math_pow c)) in *. clearbody t.
  split.
  - change 2%Z with (Qfloor 2). apply Qfloor_resp_le.
    apply Qle_shift_div_l; lra.
  - assert (H : (Qfloor (t / 90) <= Qfloor (660 / 90))%Z).
    { apply Qfloor_resp_le. unfold Qdiv.
      apply Qmult_le_compat_r; [lra | discriminate]. }
    exact H.
Qed.

End FixedEngineFacts.

Section FixedCycle.

Variable Math_pow : Q -> Q -> Q.
Variable c : Config.
Variable p : Profile.
Variable indices : list Z.
Variable lat : Q.

(** The local fractions of a cycle add up to 1. *)
Lemma fixed_localFractions_sum (n i : Z) (l3 lrem l2 : Q) :
  FixedEngine.localFractions c p n i = (l3, lrem, l2) ->
  l3 + lrem + l2 == 1.
Proof.
  unfold FixedEngine.localFractions. cbv zeta.
  set (a := n3P p * (1 - inject_Z i / inject_Z n) * 2.5).
  set (b := remP p * (0.5 + inject_Z i / inject_Z n * 1.5)).
  clearbody a b.
  destruct (alcohol c >? 0); [destruct (inject_Z i <? inject_Z n / 2)|];
    cbv beta iota;
    match goal with
    | |- context [?x <? 0] => destruct (Qltb_spec x 0)
    end; intro E; injection E as <- <- <-; field.
Qed.

(** The blocks of sleep of a cycle hold 90 minutes, and the N1 block
    after every cycle but the last; they leave the wake pointer, the
    cycle index and the time awake alone. *)
Lemma fixed_cycle_sleep_shape (n : Z) (st : LoopState) :
  let st' := FixedEngine.cycle_sleep c p n st in
  wakeChunkIndex st' = wakeChunkIndex st /\
  cycleIndex st' = cycleIndex st /\
  currentTime st' - accumulatedSleep st'
    == currentTime st - accumulatedSleep st /\
  accumulatedSleep st'
    == accumulatedSleep st + 90
       + (if (cycleIndex st <? n - 1)%Z then transN1 c else 0) /\
  (accounting st -> accounting st').
Proof.
  cbv zeta. unfold FixedEngine.cycle_sleep. cbv zeta.
  destruct (FixedEngine.localFractions c p n (cycleIndex st))
    as [[l3 lrem] l2] eqn:E.
  pose proof (fixed_localFractions_sum _ _ _ _ _ E) as Hs.
  unfold cycleLength.
  destruct (cycleIndex st <? n - 1)%Z; destruct (l3 >? 0.05);
    (split; [reflexivity|]); (split; [reflexivity|]);
    (split; [simpl; lra|]); (split; [simpl; nra|]);
    intro Ha;
    repeat (apply accounting_push_sleep; [discriminate|]); exact Ha.
Qed.

Lemma fixed_cycle_body_inv (st : LoopState) :
  StronglySorted Z.le indices ->
  let n := FixedEngine.numCycles (tst p) in
  let st' := FixedEngine.cycle_body c p indices st in
  cycleIndex st' = (cycleIndex st + 1)%Z /\
  accumulatedSleep st'
    == accumulatedSleep st + 90
       + (if (cycleIndex st <? n - 1)%Z then transN1 c else 0) /\
  (accounting st -> accounting st') /\
  (wake_pointer_ok lat (wakeChunkDuration (wasoMins p)) indices st ->
   wake_pointer_ok lat (wakeChunkDuration (wasoMins p)) indices st') /\
  (scan_ok indices st -> scan_ok indices st').
Proof.
  intro Hsorted. cbv zeta. unfold FixedEngine.cycle_body. cbv zeta.
  destruct (fixed_cycle_sleep_shape (FixedEngine.numCycles (tst p)) st)
    as (Ek & Eci & Ew & Es & Hacc).
  cbv zeta in *.
  set (stX := FixedEngine.cycle_sleep c p (FixedEngine.numCycles (tst p)) st)
    in *.
  clearbody stX.
  split; [unfold next_cycle; cbn [cycleIndex];
          rewrite inject_wake_cycleIndex, Eci; reflexivity|].
  split; [unfold next_cycle; cbn [accumulatedSleep];
          rewrite inject_wake_accumulatedSleep; exact Es|].
  split; [intro Ha;
          apply accounting_next_cycle, accounting_inject_wake, Hacc, Ha|].
  split.
  - intros [Ht Hk]. unfold wake_pointer_ok, next_cycle. simpl.
    rewrite inject_wake_accumulatedSleep.
    destruct (inject_wake_time indices (wakeChunkDuration (wasoMins p))
                (length indices) stX) as (H1 & H2 & H3); [lia|].
    split; [|exact H2].
    rewrite H3, Ek.
    set (k' := wakeChunkIndex
                 (inject_wake (length indices) indices
                    (wakeChunkDuration (wasoMins p)) stX)) in *.
    replace (Z.of_nat k')
      with ((Z.of_nat k' - Z.of_nat (wakeChunkIndex st))
            + Z.of_nat (wakeChunkIndex st))%Z at 2 by lia.
    rewrite inject_Z_plus. lra.
  - intros [Hf Hg]. unfold scan_ok, next_cycle. simpl.
    rewrite inject_wake_cycleIndex, Eci. rewrite <- Eci.
    apply inject_wake_scan.
    + exact Hsorted.
    + lia.
    + rewrite Ek, Eci. eapply Forall_impl; [|exact Hf].
      intros i Hi. simpl in Hi. lia.
    + rewrite Ek, Eci. exact Hg.
Qed.

(** The state after [k] cycles from a state at the head of cycle [i0],
    when the loop stops at [numCycles >= i0 + k]. *)
Lemma fixed_cycles_inv (k : nat) (st : LoopState) :
  StronglySorted Z.le indices ->
  let n := FixedEngine.numCycles (tst p) in
  (0 <= cycleIndex st)%Z -> (cycleIndex st + Z.of_nat k <= n)%Z ->
  let st' := FixedEngine.cycles k c p indices st in
  cycleIndex st' = (cycleIndex st + Z.of_nat k)%Z /\
  accumulatedSleep st'
    == accumulatedSleep st + 90 * inject_Z (Z.of_nat k)
       + transN1 c
         * inject_Z (Z.min (Z.of_nat k) (Z.max 0 (n - 1 - cycleIndex st))) /\
  (accounting st -> accounting st') /\
  (wake_pointer_ok lat (wakeChunkDuration (wasoMins p)) indices st ->
   wake_pointer_ok lat (wakeChunkDuration (wasoMins p)) indices st') /\
  (scan_ok indices st -> scan_ok indices st').
Proof.
  intro Hsorted. cbv zeta. revert st.
  induction k as [|k IH]; intros st Hi Hn.
  - cbn [FixedEngine.cycles]. rewrite Z.add_0_r.
    split; [reflexivity|].
    split.
    { change (Z.of_nat 0) with 0%Z.
      rewrite Z.min_l by lia. change (inject_Z 0) with 0. lra. }
    split; [intro H; exact H|]. split; intro H; exact H.
  - cbn [FixedEngine.cycles].
    destruct (fixed_cycle_body_inv st Hsorted) as (Eci & Es & Ha & Hw & Hsc).
    cbv zeta in *.
    destruct (IH (FixedEngine.cycle_body c p indices st))
      as (Eci' & Es' & Ha' & Hw' & Hsc'); [lia | lia |].
    split; [lia|].
    split.
    { rewrite Es', Es, Eci.
      set (n := FixedEngine.numCycles (tst p)) in *.
      assert (Em : Z.min (Z.of_nat (S k)) (Z.max 0 (n - 1 - cycleIndex st))
                   = ((if (cycleIndex st <? n - 1)%Z then 1 else 0)
                      + Z.min (Z.of_nat k)
                          (Z.max 0 (n - 1 - (cycleIndex st + 1))))%Z).
      { destruct (Z.ltb_spec (cycleIndex st) (n - 1)); lia. }
      rewrite Em.
      replace (Z.of_nat (S k)) with (Z.of_nat k + 1)%Z by lia.
      rewrite !inject_Z_plus. change (inject_Z 1) with 1.
      destruct (cycleIndex st <? n - 1)%Z;
        [change (inject_Z 1) with 1 | change (inject_Z 0) with 0]; ring. }
    split; [intro H; apply Ha', Ha, H|].
    split; [intro H; apply Hw', Hw, H | intro H; apply Hsc', Hsc, H].
Qed.

End FixedCycle.

Section FixedRun.

Variable Math_pow : Q -> Q -> Q.
Variable rnd : nat -> Q.
Variable c : Config.

Lemma fixed_cycle_body_blocks (p : Profile) (indices : list Z)
    (st : LoopState) :
  exists l, HypnogramGenerator.blocks (FixedEngine.cycle_body c p indices st)
            = HypnogramGenerator.blocks st ++ l.
Proof.
  unfold FixedEngine.cycle_body, FixedEngine.cycle_sleep. cbv zeta.
  destruct (FixedEngine.localFractions c p (FixedEngine.numCycles (tst p))
              (cycleIndex st)) as [[l3 lrem] l2].
  unfold next_cycle. cbn [HypnogramGenerator.blocks].
  match goal with
  | |- exists l, HypnogramGenerator.blocks (inject_wake ?n ?i ?d ?s) = _ =>
      destruct (inject_wake_blocks n i d s) as [l ->]
  end.
  destruct (cycleIndex st <? FixedEngine.numCycles (tst p) - 1)%Z;
    destruct (l3 >? 0.05); simpl; rewrite <- ?app_assoc;
    eexists; reflexivity.
Qed.

Lemma fixed_cycles_blocks (k : nat) (p : Profile) (indices : list Z)
    (st : LoopState) :
  exists l, HypnogramGenerator.blocks (FixedEngine.cycles k c p indices st)
            = HypnogramGenerator.blocks st ++ l.
Proof.
  revert st. induction k as [|k IH]; intro st; cbn [FixedEngine.cycles].
  - exists []. now rewrite app_nil_r.
  - destruct (IH (FixedEngine.cycle_body c p indices st)) as [l ->].
    destruct (fixed_cycle_body_blocks p indices st) as [l' ->].
    rewrite <- app_assoc. eexists. reflexivity.
Qed.

Lemma fixed_indices_length (p : Profile) :
  length (FixedEngine.wakeInsertionIndices rnd p)
  = Z.to_nat (numWakeChunks (wasoMins p)).
Proof.
  unfold FixedEngine.wakeInsertionIndices.
  now rewrite sort_ascending_length, length_map, length_seq.
Qed.

(** Draws in [[0, 1)] give indices from 0 below [numCycles]. *)
Lemma fixed_indices_range (p : Profile) :
  unit_draws rnd -> (1 <= FixedEngine.numCycles (tst p))%Z ->
  Forall (fun i => (0 <= i < FixedEngine.numCycles (tst p))%Z)
    (FixedEngine.wakeInsertionIndices rnd p).
Proof.
  intros Hr Hn. apply Forall_forall. intros i Hi.
  unfold FixedEngine.wakeInsertionIndices in Hi.
  rewrite sort_ascending_In in Hi.
  apply in_map_iff in Hi. destruct Hi as (k & <- & _).
  set (n := FixedEngine.numCycles (tst p)) in *.
  assert (Hn' : 1 <= inject_Z n)
    by (change 1 with (inject_Z 1); now rewrite <- Zle_Qle).
  destruct (Hr k) as [Hk0 Hk1].
  split.
  - change 0%Z with (Qfloor 0). apply Qfloor_resp_le. nra.
  - pose proof (Qfloor_le (rnd k * inject_Z n)) as Hf.
    assert (Hlt : inject_Z (Qfloor (rnd k * inject_Z n)) < inject_Z n) by nra.
    now rewrite <- Zlt_Qlt in Hlt.
Qed.

(** The state at the exit of the loop. *)
Lemma fixed_run_cycles_inv :
  let p := FixedEngine.adjustedTargets Math_pow c in
  let n := FixedEngine.numCycles (tst p) in
  let st := FixedEngine.run_cycles Math_pow rnd c in
  cycleIndex st = n /\
  accumulatedSleep st
    == initialN1 Math_pow c + 90 * inject_Z n
       + transN1 c * inject_Z (n - 1) /\
  accounting st /\
  wake_pointer_ok (FixedEngine.latency Math_pow c)
    (wakeChunkDuration (wasoMins p))
    (FixedEngine.wakeInsertionIndices rnd p) st /\
  (unit_draws rnd -> scan_ok (FixedEngine.wakeInsertionIndices rnd p) st) /\
  exists l, HypnogramGenerator.blocks st
            = mkBlock WAKE (FixedEngine.latency Math_pow c) 0 :: l.
Proof.
  cbv zeta. unfold FixedEngine.run_cycles. cbv zeta.
  pose proof (fixed_numCycles_range Math_pow c) as Hn.
  set (p := FixedEngine.adjustedTargets Math_pow c) in *.
  set (n := FixedEngine.numCycles (tst p)) in *.
  set (indices := FixedEngine.wakeInsertionIndices rnd p).
  assert (Hsorted : StronglySorted Z.le indices)
    by (apply sort_ascending_sorted).
  destruct (fixed_cycles_inv c p indices (FixedEngine.latency Math_pow c)
              (Z.to_nat n) (FixedEngine.initial_state Math_pow c) Hsorted)
    as (Eci & Es & Ha & Hw & Hsc).
  { cbn [FixedEngine.initial_state cycleIndex]. lia. }
  { cbn [FixedEngine.initial_state cycleIndex]. fold n. lia. }
  fold n in Eci, Es. cbn [FixedEngine.initial_state cycleIndex
                          accumulatedSleep] in Eci, Es.
  rewrite Z2Nat.id in Eci, Es by lia.
  split; [lia|].
  split.
  { rewrite Es. rewrite Z.sub_0_r, Z.max_r, Z.min_r by lia. reflexivity. }
  split.
  { apply Ha. unfold FixedEngine.initial_state. cbv zeta.
    generalize (FixedEngine.latency Math_pow c) as lat.
    generalize (initialN1 Math_pow c) as n1. intros n1 lat.
    unfold accounting, sleep_blocks, sum_durations. simpl.
    repeat split; lra. }
  split.
  { apply Hw. unfold FixedEngine.initial_state. cbv zeta.
    generalize (FixedEngine.latency Math_pow c) as lat.
    generalize (initialN1 Math_pow c) as n1. intros n1 lat.
    unfold wake_pointer_ok. cbn [currentTime accumulatedSleep wakeChunkIndex].
    split; [|lia]. change (inject_Z (Z.of_nat 0)) with 0. lra. }
  split.
  { intro Hr. apply Hsc. unfold scan_ok.
    cbn [FixedEngine.initial_state cycleIndex wakeChunkIndex firstn skipn].
    split; [constructor|].
    pose proof (fixed_indices_range p Hr) as Hrange. fold n in Hrange.
    eapply Forall_impl; [|apply Hrange; lia]. intros i Hi. simpl in Hi. lia. }
  destruct (fixed_cycles_blocks (Z.to_nat n) p indices
              (FixedEngine.initial_state Math_pow c)) as [l ->].
  simpl. eexists. reflexivity.
Qed.

(** X23. Whatever the configuration and the draws, the engine of the
    second bundle runs from 2 to 7 cycles, each one holding exactly 90
    minutes of sleep: the sleep time of the result is the initial N1
    plus 90 minutes per cycle plus the N1 block between two cycles. *)
Theorem fixed_cycles_sleep_time :
  let n := FixedEngine.numCycles
             (tst (FixedEngine.adjustedTargets Math_pow c)) in
  let r := FixedEngine.generate Math_pow rnd c in
  (2 <= n <= 7)%Z /\
  Stats.tst (stats r)
  == initialN1 Math_pow c + 90 * inject_Z n + transN1 c * inject_Z (n - 1) /\
  Params.tst (params r) = Stats.tst (stats r).
Proof.
  cbv zeta. split; [apply fixed_numCycles_range|].
  split; [|reflexivity].
  destruct fixed_run_cycles_inv as (_ & Es & (_ & _ & Ha) & _).
  unfold FixedEngine.generate, FixedEngine.finish. cbv zeta.
  cbn [stats Stats.tst].
  rewrite actualTST_sum, Ha. exact Es.
Qed.

(** X24. With draws in [[0, 1)], whatever the configuration, the engine
    of the second bundle inserts every chunk of wake time: the blocks are
    contiguous, the WAKE blocks after the latency block add up to
    [wasoMins], and the time in bed is the latency plus [wasoMins] plus
    the sleep time. *)
Theorem fixed_cycles_every_chunk_inserted :
  unit_draws rnd ->
  let r := FixedEngine.generate Math_pow rnd c in
  contiguous (blocks r) /\
  sum_durations (wake_blocks (tl (blocks r))) == Stats.wasoMins (stats r) /\
  Stats.tib (stats r)
  == Stats.latency (stats r) + Stats.wasoMins (stats r) + Stats.tst (stats r).
Proof.
  intro Hr. cbv zeta.
  destruct fixed_run_cycles_inv
    as (Eci & _ & (Hc & Ht & Ha) & [Hw Hk] & Hsc & l & El).
  destruct (Hsc Hr) as [Hf Hg].
  pose proof (fixed_numCycles_range Math_pow c) as Hn.
  set (p := FixedEngine.adjustedTargets Math_pow c) in *.
  set (st := FixedEngine.run_cycles Math_pow rnd c) in *.
  pose proof (fixed_indices_range p Hr) as Hrange.
  pose proof (fixed_indices_length p) as Hlen.
  set (indices := FixedEngine.wakeInsertionIndices rnd p) in *.
  assert (Ek : count_below (cycleIndex st) indices = wakeChunkIndex st)
    by (apply pointer_count; [exact Hk | exact Hf | exact Hg]).
  assert (Hall : count_below (cycleIndex st) indices = length indices).
  { unfold count_below. f_equal. rewrite Eci.
    assert (Hrange' : Forall (fun i => (0 <= i < FixedEngine.numCycles (tst p))%Z)
                        indices) by (apply Hrange; lia).
    clear -Hrange'.
    induction Hrange' as [|i l0 Hi Hl IHl]; simpl; [reflexivity|].
    destruct (Z.ltb_spec i (FixedEngine.numCycles (tst p))); [|lia].
    now rewrite IHl. }
  assert (Ewake : currentTime st - accumulatedSleep st
                  == FixedEngine.latency Math_pow c + wasoMins p).
  { rewrite Hw. rewrite <- Ek, Hall, Hlen.
    rewrite (wakeChunk_partition (wasoMins p)). reflexivity. }
  unfold FixedEngine.generate, FixedEngine.finish. cbv zeta.
  cbn [blocks stats Stats.wasoMins Stats.tib Stats.latency Stats.tst].
  fold p. fold st. clearbody indices st p.
  split; [|split].
  - apply (contiguous_from_contiguous (0 + 240 + FixedEngine.startTimeOffset c)).
    apply contiguous_from_shift. exact Hc.
  - pose proof (sum_sleep_wake (HypnogramGenerator.blocks st)) as Hsw.
    rewrite Ht in Hsw. rewrite El in Hsw, Ha |- *. cbn [map tl].
    rewrite wake_blocks_shift, sum_durations_shift.
    unfold wake_blocks, sleep_blocks in Hsw, Ha.
    cbn [filter stage is_wake STAGES Z.eqb negb] in Hsw, Ha.
    fold (wake_blocks l) in Hsw. fold (sleep_blocks l) in Hsw, Ha.
    unfold sum_durations in Hsw at 2. cbn [map fold_right duration] in Hsw.
    change (fold_right Qplus 0 (map duration (wake_blocks l)))
      with (sum_durations (wake_blocks l)) in Hsw.
    lra.
  - rewrite actualTST_sum. lra.
Qed.

End FixedRun.

Lemma fixed_cycles_every_chunk_inserted_witness :
  let r := FixedEngine.generate pow_sample random_high config_28 in
  contiguous (blocks r) /\
  sum_durations (wake_blocks (tl (blocks r))) == Stats.wasoMins (stats r) /\
  Stats.tib (stats r)
  == Stats.latency (stats r) + Stats.wasoMins (stats r) + Stats.tst (stats r).
Proof.
  apply fixed_cycles_every_chunk_inserted.
  intro k. unfold random_high. lra.
Defined.

(** ** The band of the ideal sleep window *)

Lemma startTimeOffset_by_chronotype (c : Config) :
  match chronotype c with
  | lark => - (240) <= startTimeOffset c <= 150
  | neutral => - (120) <= startTimeOffset c <= 270
  | owl => 60 <= startTimeOffset c <= 450
  end.
Proof.
  unfold startTimeOffset, bedtimeShift. cbv zeta.
  pose proof (agePhaseShift_range c) as Ha.
  destruct (teenShift_range c) as [Ht Ht0].
  assert (Hx : agePhaseShift c == 0 \/ teenShift c == 0).
  { destruct (Qlt_le_dec 65 (age c)) as [Hold|Hyoung];
      [right; now apply Ht0 | left].
    unfold agePhaseShift. destruct (Qltb_spec 65 (age c)); lra. }
  destruct (chronotype c), (socialJetLag c); destruct Hx; split; lra.
Qed.

(** X25. For every configuration in the documented ranges, on a canvas
    wider than the padding, the band of the ideal sleep window of the
    chronotype is always drawn: it has a positive width, lies inside the
    plot, and its label is written at its middle. *)
Theorem ideal_window_visible
    (canvas_width canvas_height : Q)
    (Math_pow : Q -> Q -> Q) (rnd : nat -> Q) (c : Config) (fuel : nat)
    (r : SimulationResult.t) :
  0 < Chart.width canvas_width ->
  pow_half_unit Math_pow -> valid_config c ->
  generate Math_pow fuel rnd c = Some r ->
  exists (band : Chart.Rect) (labelX : Q),
    Chart.drawBackground canvas_width canvas_height (params r)
    = Some (band, Some labelX) /\
    0 < Chart.rect_w band /\
    Chart.left Chart.padding <= Chart.rect_x band /\
    Chart.rect_x band + Chart.rect_w band
    <= canvas_width - Chart.right Chart.padding /\
    labelX == Chart.rect_x band + Chart.rect_w band / 2.
Proof.
  intros Hw Hp Hv E.
  destruct (result_params _ _ _ _ _ Hp Hv E) as ([Hs0 _] & Htib & _).
  destruct (viewport_shape (params r)) as (m & Hm & Es & Ee & Et & Hm').
  pose proof (totalViewMins_pos (params r)) as Htot.
  assert (Hm300 : m <= 300) by (apply Hm'; lra).
  assert (Hchrono :
            match Params.chronotype (params r) with
            | lark => Chart.sleepStart (params r) <= 390
            | neutral => Chart.sleepStart (params r) <= 510
            | owl => 300 <= Chart.sleepStart (params r) <= 690
            end).
  { destruct (generate_inv _ _ _ _ _ E) as (st & _ & ->).
    unfold Chart.sleepStart. cbn [params finish Params.chronotype
                                  Params.startTimeOffset].
    pose proof (startTimeOffset_by_chronotype c) as H.
    destruct (chronotype c); lra. }
  assert (Hse : forall se,
            se = match Params.chronotype (params r) with
                 | lark => (120, 600)
                 | neutral => (240, 720)
                 | owl => (420, 900)
                 end ->
            Chart.viewStart (params r) < snd se /\
            fst se < Chart.viewEnd (params r) /\ fst se < snd se).
  { unfold Chart.totalViewMins in Htot. unfold Chart.sleepEnd in Ee.
    revert Hchrono. clear Et Hm'.
    destruct (Params.chronotype (params r)); intros Hchrono se ->;
      cbn [fst snd]; repeat split; lra. }
  unfold Chart.drawBackground.
  set (se := match Params.chronotype (params r) with
             | lark => (120, 600)
             | neutral => (240, 720)
             | owl => (420, 900)
             end) in *.
  specialize (Hse se eq_refl). clearbody se.
  destruct se as [s e]. cbn [fst snd] in Hse. destruct Hse as (H1 & H2 & H3).
  cbv zeta.
  pose proof (timeToX_affine canvas_width (params r) s) as Xs.
  pose proof (timeToX_affine canvas_width (params r) e) as Xe.
  destruct (timeToX_slope canvas_width (params r)) as [Ek Hk].
  assert (Hk0 : 0 < Chart.width canvas_width / Chart.totalViewMins (params r)).
  { apply Qlt_shift_div_l; lra. }
  pose proof (timeToX_viewEnd canvas_width (params r)) as Xve.
  rewrite timeToX_affine in Xve.
  set (k := Chart.width canvas_width / Chart.totalViewMins (params r)) in *.
  set (xs := Chart.timeToX canvas_width (params r) s) in *.
  set (xe := Chart.timeToX canvas_width (params r) e) in *.
  set (L := Chart.left Chart.padding) in *.
  set (R := canvas_width - Chart.right Chart.padding) in *.
  unfold Chart.totalViewMins in Htot.
  set (vs := Chart.viewStart (params r)) in *.
  set (ve := Chart.viewEnd (params r)) in *.
  clearbody k xs xe L R vs ve.
  assert (P1 : 0 < (e - s) * k) by (apply Qmult_lt_0_compat; lra).
  assert (P2 : 0 < (e - vs) * k) by (apply Qmult_lt_0_compat; lra).
  assert (P3 : 0 < (ve - s) * k) by (apply Qmult_lt_0_compat; lra).
  assert (P4 : 0 < (ve - vs) * k) by (apply Qmult_lt_0_compat; lra).
  destruct (Qmax_cases L xs) as [[? Hx1]|[? Hx1]];
    destruct (Qmin_cases R xe) as [[? Hx2]|[? Hx2]];
    set (x1 := Qmax L xs) in *; set (x2 := Qmin R xe) in *;
    clearbody x1 x2;
    (destruct (Qltb_spec x1 x2); [|lra]);
    (destruct (Qltb_spec x1 R); [|lra]);
    (destruct (Qltb_spec L x2); [|lra]);
    cbn [andb];
    assert (Eh : (x1 + x2) / 2 == (x1 + x2) * 0.5) by field;
    (destruct (Qltb_spec L ((x1 + x2) / 2)); [|lra]);
    (destruct (Qltb_spec ((x1 + x2) / 2) R); [|lra]);
    cbn [andb];
    do 2 eexists; (split; [reflexivity|]);
    cbn [Chart.rect_x Chart.rect_w];
    assert (Eh2 : (x2 - x1) / 2 == (x2 - x1) * 0.5) by field;
    rewrite Eh, Eh2; repeat split; lra.
Qed.

Lemma ideal_window_visible_witness :
  exists r band labelX,
    generate pow_sample enough_fuel random_high config_70 = Some r /\
    Chart.drawBackground 800 400 (params r) = Some (band, Some labelX) /\
    0 < Chart.rect_w band.
Proof.
  destruct (generate_returns pow_sample random_high config_70
              pow_sample_half_unit valid_config_70) as [r Er].
  assert (Hw : 0 < Chart.width 800) by (vm_compute; reflexivity).
  destruct (ideal_window_visible 800 400 _ _ _ _ _ Hw
              pow_sample_half_unit valid_config_70 Er)
    as (band & labelX & H1 & H2 & _).
  exists r, band, labelX. split; [exact Er|]. split; [exact H1 | exact H2].
Defined.

(** * The engine of [models.js] *)

Section Phase6Facts.

Variable c : Config.

Lemma phase6_recalculate_n2_fractions (p : Profile) :
  n3P (Phase6Engine.recalculate_n2 p) + remP (Phase6Engine.recalculate_n2 p)
    + n1P (Phase6Engine.recalculate_n2 p)
    + n2P (Phase6Engine.recalculate_n2 p) == 1 /\
  0.1 <= n2P (Phase6Engine.recalculate_n2 p).
Proof.
  unfold Phase6Engine.recalculate_n2. cbv zeta.
  destruct (Qltb_spec 0.9 (n3P p + remP p + n1P p)) as [Hbig|Hsmall];
    cbn [n3P remP n1P n2P].
  - split; [ring|].
    assert (E : n3P p * (0.9 / (n3P p + remP p + n1P p))
                + remP p * (0.9 / (n3P p + remP p + n1P p))
                + n1P p * (0.9 / (n3P p + remP p + n1P p)) == 0.9)
      by (field; lra).
    lra.
  - split; [ring | lra].
Qed.

Lemma phase6_cycle_body_inv (p : Profile) (n : Z) (st : LoopState) :
  let st' := Phase6Engine.cycle_body c p n st in
  cycleIndex st' = (cycleIndex st + 1)%Z /\
  (accounting st -> accounting st') /\
  exists l, HypnogramGenerator.blocks st' = HypnogramGenerator.blocks st ++ l /\
            Forall (fun b => stage b <> WAKE) l /\
            (3 <= length l <= 4)%nat.
Proof.
  cbv zeta. unfold Phase6Engine.cycle_body. cbv zeta.
  destruct (Phase6Engine.localFractions p n (cycleIndex st))
    as [[l3 lrem] l2].
  destruct (l3 >? 0.05);
    (split; [reflexivity|]);
    (split; [intro Ha; unfold next_cycle;
             apply accounting_next_cycle;
             repeat (apply accounting_push_sleep; [discriminate|]);
             exact Ha|]);
    unfold next_cycle, push_sleep; cbn [HypnogramGenerator.blocks];
    rewrite <- ?app_assoc; cbn [app]; eexists;
    (split; [reflexivity|]);
    (split; [repeat (constructor; [discriminate|]); constructor
            | cbn [length]; lia]).
Qed.

Lemma phase6_cycles_inv (k : nat) (p : Profile) (n : Z) (st : LoopState) :
  let st' := Phase6Engine.cycles k c p n st in
  (accounting st -> accounting st') /\
  exists l, HypnogramGenerator.blocks st' = HypnogramGenerator.blocks st ++ l /\
            Forall (fun b => stage b <> WAKE) l /\
            (3 * k <= length l <= 4 * k)%nat.
Proof.
  cbv zeta. revert st. induction k as [|k IH]; intro st;
    cbn [Phase6Engine.cycles].
  - split; [intro H; exact H|]. exists []. rewrite app_nil_r.
    split; [reflexivity|]. split; [constructor | simpl; lia].
  - destruct (phase6_cycle_body_inv p n st) as (_ & Ha & l1 & E1 & F1 & L1).
    destruct (IH (Phase6Engine.cycle_body c p n st)) as (Ha' & l2 & E2 & F2 & L2).
    split; [intro H; apply Ha', Ha, H|].
    exists (l1 ++ l2). rewrite E2, E1, <- app_assoc.
    split; [reflexivity|].
    split; [apply Forall_app; split; assumption|].
    rewrite length_app. lia.
Qed.

End Phase6Facts.

(** X26. Whatever the configuration, the result of the engine of
    [models.js] has fractions that add up to 1 with N2 at least 0.1;
    contiguous blocks, of which the first is the latency WAKE block at
    [240 + startTimeOffset] and no other is a WAKE block; three or four
    blocks for each of the [Math.floor(effectiveTST / 90)] cycles; and,
    with draws in [[0, 1)], wake events that last from 2 to 5 minutes,
    or 10 minutes for nocturia, [Math.floor(wasoMins / 2)] of the first
    kind and one per whole unit of nocturia of the second. *)
Theorem phase6_generate_shape (rnd : nat -> Q) (c : Config) :
  unit_draws rnd ->
  let r := Phase6Engine.generate rnd c in
  let s := Phase6.Result.stats r in
  let n := Z.to_nat (Phase6Engine.numCycles c) in
  n3P s + remP s + n1P s + n2P s == 1 /\ 0.1 <= n2P s /\
  contiguous (Phase6.Result.blocks r) /\
  (exists l,
     Phase6.Result.blocks r
     = mkBlock WAKE (Phase6Engine.latency c)
         (0 + 240 + Phase6.Params.startTimeOffset (Phase6.Result.params r))
       :: l /\
     Forall (fun b => stage b <> WAKE) l /\
     (3 * n <= length l <= 4 * n)%nat) /\
  Forall (fun w => 2 <= we_duration w < 5 \/ we_duration w = 10)
         (Phase6.Result.wakeEvents r) /\
  length (Phase6.Result.wakeEvents r)
  = (Z.to_nat (Phase6Engine.numWakeEvents c)
     + (if nocturia c >? 0 then Z.to_nat (Qfloor (nocturia c)) else 0))%nat.
Proof.
  intro Hr. cbv zeta.
  unfold Phase6Engine.generate. cbv zeta.
  cbn [Phase6.Result.stats Phase6.Result.blocks Phase6.Result.params
       Phase6.Result.wakeEvents Phase6.Params.startTimeOffset].
  destruct (phase6_recalculate_n2_fractions (Phase6Engine.modifiedTargets c))
    as [Hs Hn].
  fold (Phase6Engine.adjustedTargets c) in Hs, Hn.
  split; [exact Hs|]. split; [exact Hn|].
  unfold Phase6Engine.run_cycles.
  destruct (phase6_cycles_inv c (Z.to_nat (Phase6Engine.numCycles c))
              (Phase6Engine.adjustedTargets c) (Phase6Engine.numCycles c)
              (Phase6Engine.initial_state c)) as (Ha & l & El & Fl & Ll).
  cbv zeta in *.
  set (st := Phase6Engine.cycles (Z.to_nat (Phase6Engine.numCycles c)) c
               (Phase6Engine.adjustedTargets c) (Phase6Engine.numCycles c)
               (Phase6Engine.initial_state c)) in *.
  clearbody st.
  assert (Hacc : accounting st).
  { apply Ha. unfold Phase6Engine.initial_state.
    generalize (Phase6Engine.latency c) as lat. intro lat.
    unfold accounting, sleep_blocks, sum_durations. simpl.
    repeat split; lra. }
  destruct Hacc as (Hc & _).
  split.
  { apply (contiguous_from_contiguous
             (0 + 240 + Phase6Engine.startTimeOffset c)).
    apply contiguous_from_shift. exact Hc. }
  split.
  { rewrite El. cbn [Phase6Engine.initial_state HypnogramGenerator.blocks
                     app map shift_block stage duration start].
    eexists. split; [reflexivity|].
    split; [|rewrite length_map; exact Ll].
    apply Forall_map. eapply Forall_impl; [|exact Fl].
    intros b Hb. exact Hb. }
  split.
  - rewrite map_app. apply Forall_app. split.
    + apply Forall_map. unfold Phase6Engine.randomWakeEvents.
      apply Forall_map. apply Forall_forall. intros i _. left.
      cbn [shift_event we_duration].
      destruct (Hr (2 * i + 1)%nat) as [H0 H1]. split; lra.
    + apply Forall_map. unfold Phase6Engine.nocturiaEvents.
      destruct (nocturia c >? 0); [|constructor].
      apply Forall_map. apply Forall_forall. intros i _. right. reflexivity.
  - rewrite length_map, length_app.
    unfold Phase6Engine.randomWakeEvents, Phase6Engine.nocturiaEvents.
    rewrite length_map, length_seq.
    destruct (nocturia c >? 0); [|reflexivity].
    now rewrite length_map, length_seq.
Qed.

Lemma phase6_generate_shape_witness :
  let r := Phase6Engine.generate random_high config_70 in
  contiguous (Phase6.Result.blocks r) /\
  Forall (fun w => 2 <= we_duration w < 5 \/ we_duration w = 10)
         (Phase6.Result.wakeEvents r).
Proof.
  cbv zeta.
  destruct (phase6_generate_shape random_high config_70)
    as (_ & _ & H3 & _ & H5 & _).
  - intro k. unfold random_high. lra.
  - split; [exact H3 | exact H5].
Defined.

